(** * Trust Pooler reference implementation: settlement of the two pools

    A shallow embedding of [main.cpp] (namespace [tp]): the mutually
    exclusive pool ([MutexPool]) and the long/short pool ([LongShortPool]),
    both built on the CRTP base [Pool<D, EVENT>].

    The source computes with [double].  The embedding is written once over
    an interface of the arithmetic the source uses ([Number]) and is run at
    two instances: [Binary64], IEEE-754 binary64 as the kernel's primitive
    floats implement it (the arithmetic of the source), and [Exact], the
    rationals, for the statements that are about exact arithmetic.
    Statements about all binary64 inputs rest on the IEEE-754
    specification the standard library gives of the primitive floats.

    [int] values are integers of [Z] with 32-bit two's complement
    wrap-around written out ([wrap_int]); a [std::map] or [std::set] is the
    list of its entries in increasing key order, which is the order the
    source's range-for loops visit them in. *)

From Stdlib Require Import ZArith List String Ascii Bool Lia.
From Stdlib Require Import QArith Qcanon Floats Sorted Finite.
From Stdlib Require OrderedTypeEx.
Import ListNotations.

Set Implicit Arguments.
Open Scope string_scope.
Open Scope list_scope.
Open Scope Z_scope.

(** ** Arithmetic *)

(** The operations on [double] that the source uses. *)
Class Number (T : Type) := {
  zero : T;                       (* 0. and Amount{} *)
  one : T;                        (* 1. *)
  add : T -> T -> T;
  sub : T -> T -> T;
  mul : T -> T -> T;
  div : T -> T -> T;
  fabs : T -> T;
  ltb : T -> T -> bool;           (* operator< *)
  of_int : Z -> T;                (* (double) of an int *)
  cent : T;                       (* the literal 0.01 *)
  default_fees : T                (* the literal 0.03 *)
}.

Declare Scope num_scope.
Delimit Scope num_scope with num.
Infix "+!" := add (at level 50, left associativity) : num_scope.
Infix "-!" := sub (at level 50, left associativity) : num_scope.
Infix "*!" := mul (at level 40, left associativity) : num_scope.
Infix "/!" := div (at level 40, left associativity) : num_scope.
Infix "<!" := ltb (at level 70, no associativity) : num_scope.

(** [double] of a 32-bit [int]: exact, since |z| < 2^53. *)
Definition float_of_int (z : Z) : float :=
  if z <? 0 then PrimFloat.opp (PrimFloat.of_uint63 (Uint63.of_Z (- z)))
  else PrimFloat.of_uint63 (Uint63.of_Z z).

(** IEEE-754 binary64, round to nearest even: the source's [double].
    The two literals are the doubles nearest to 0.01 and 0.03. *)
#[export] Instance Binary64 : Number float := {|
  zero := 0%float;
  one := 1%float;
  add := PrimFloat.add;
  sub := PrimFloat.sub;
  mul := PrimFloat.mul;
  div := PrimFloat.div;
  fabs := PrimFloat.abs;
  ltb := PrimFloat.ltb;
  of_int := float_of_int;
  cent := 0x1.47ae147ae147bp-7%float;
  default_fees := 0x1.eb851eb851eb8p-6%float
|}.

Definition Qcltb (x y : Qc) : bool :=
  match (x ?= y)%Qc with Lt => true | _ => false end.

Definition Qcabs (x : Qc) : Qc := if Qcltb x 0 then (- x)%Qc else x.

(** Exact rational arithmetic. *)
#[export] Instance Exact : Number Qc := {|
  zero := 0%Qc;
  one := 1%Qc;
  add := Qcplus;
  sub := Qcminus;
  mul := Qcmult;
  div := Qcdiv;
  fabs := Qcabs;
  ltb := Qcltb;
  of_int := fun z => Q2Qc (inject_Z z);
  cent := Q2Qc (1 # 100);
  default_fees := Q2Qc (3 # 100)
|}.

(** [int] is 32 bits wide; arithmetic on it wraps in two's complement. *)
Definition INT_MIN : Z := - 2 ^ 31.
Definition INT_MAX : Z := 2 ^ 31 - 1.

Definition wrap_int (z : Z) : Z := (z + 2 ^ 31) mod 2 ^ 32 - 2 ^ 31.

Definition in_int (z : Z) : Prop := INT_MIN <= z <= INT_MAX.

(** inline bool Close(double a, double b) *)
Definition Close {T} `{Number T} (a b : T) : bool :=
  (fabs (a -! b) <! cent)%num.

(** ** std::map and std::set

    The entries in increasing key order.  [cmp] is the order of the keys
    ([std::less]). *)
Section OrderedContainers.
Variables (K V : Type) (cmp : K -> K -> comparison).

(** [m[k] = v] *)
Fixpoint map_insert (k : K) (v : V) (m : list (K * V)) : list (K * V) :=
  match m with
  | [] => [(k, v)]
  | (k', v') :: m' =>
      match cmp k k' with
      | Lt => (k, v) :: m
      | Eq => (k, v) :: m'
      | Gt => (k', v') :: map_insert k v m'
      end
  end.

(** [m.at(k)]; [None] is the [std::out_of_range] exception. *)
Fixpoint map_at (k : K) (m : list (K * V)) : option V :=
  match m with
  | [] => None
  | (k', v') :: m' =>
      match cmp k k' with
      | Eq => Some v'
      | _ => map_at k m'
      end
  end.

(** [s.insert(k)] *)
Fixpoint set_insert (k : K) (s : list K) : list K :=
  match s with
  | [] => [k]
  | k' :: s' =>
      match cmp k k' with
      | Lt => k :: s
      | Eq => s
      | Gt => k' :: set_insert k s'
      end
  end.

End OrderedContainers.

(** What a call does: it returns, or stops on a failed [assert], or has no
    defined behaviour (it dereferences the end of an empty container).
    Overflow of [int] arithmetic is not an outcome of its own: it wraps,
    and the statements that depend on it say which range they cover. *)
Inductive Outcome (A : Type) : Type :=
| Returns (a : A)
| AssertionFailed
| Undefined.
Arguments AssertionFailed {A}.
Arguments Undefined {A}.

(** ** Transactions and events *)

Inductive Side : Type := Long | Short | Neither.

Definition Side_eqb (a b : Side) : bool :=
  match a, b with
  | Long, Long | Short, Short | Neither, Neither => true
  | _, _ => false
  end.

(** struct DefaultTX *)
Module DefaultTX.
Record t (T : Type) : Type := mk {
  id : Z;                    (* TxId = int *)
  amount : T;                (* Amount = double *)
  client_account : string;
  pool_account : string;
  payout : T
}.
End DefaultTX.

(** struct PoolEvent, the base of both events *)
Module PoolEvent.
Record t (T : Type) : Type := mk {
  pool_share : T;
  winnings_share : T;
  payoff : T
}.
End PoolEvent.

(** What [Pool<D, EVENT>] uses of its [EVENT] parameter. *)
Class EventOps (T E L : Type) := {
  ev_tx : E -> DefaultTX.t T;
  ev_set_tx : E -> DefaultTX.t T -> E;
  ev_base : E -> PoolEvent.t T;
  ev_default : E;                               (* Risk{} *)
  IsWinner : E -> L -> bool;
  WinningAmount : E -> L -> T;
  Category : E -> string;
  GetLevel : E -> L;
  level_compare : L -> L -> comparison;         (* std::less<Level> *)
  (* std::is_arithmetic_v<Level>: [Some (l - 1, l + 1)] when it holds *)
  level_ticks : option ((L -> L) * (L -> L))
}.

(** template <typename TX> struct MutexEvent : PoolEvent *)
Module MutexEvent.
Section WithNumber.
Context {T : Type} `{Number T}.

Record t : Type := mk {
  base : PoolEvent.t T;
  event : string;
  tx : DefaultTX.t T
}.

(** MutexEvent( const std::string& e ) : event(e) {} *)
Definition make (e : string) : t :=
  mk (PoolEvent.mk zero zero zero) e (DefaultTX.mk 0 zero "" "" zero).

(** MutexEvent()=default, value-initialised *)
Definition default : t := make "".

Definition IsWinner (e : t) (level : string) : bool :=
  String.eqb (event e) level.

Definition WinningAmount (e : t) (level : string) : T :=
  if String.eqb level (event e) then DefaultTX.amount (tx e) else zero.

Definition Category (e : t) : string := event e.

Definition GetLevel (e : t) : string := event e.

Definition set_tx (e : t) (x : DefaultTX.t T) : t := mk (base e) (event e) x.

#[global] Instance ops : EventOps T t string :=
  Build_EventOps tx set_tx base default
    IsWinner WinningAmount Category GetLevel String.compare None.

End WithNumber.
Arguments t T : clear implicits.
End MutexEvent.

(** template <typename TX> struct LongShortEvent : PoolEvent *)
Module LongShortEvent.
Section WithNumber.
Context {T : Type} `{Number T}.

Record t : Type := mk {
  base : PoolEvent.t T;
  side : Side;
  price : Z;                                    (* Price = int *)
  tx : DefaultTX.t T;
  prima_facie_payoff : T;
  prima_facie_payout : T;
  inverse_distance_to_the_pin : T;
  inverse_distance_to_pin_normalised : T;
  adjusted_amount : T
}.

(** LongShortEvent( Side s, Price p ) : side{s}, price{p} {}.  The member
    without an initializer, [inverse_distance_to_pin_normalised], is
    indeterminate after this constructor; it is taken as [0.] here, and a
    settlement writes it before it reads it. *)
Definition make (s : Side) (p : Z) : t :=
  mk (PoolEvent.mk zero zero zero) s p (DefaultTX.mk 0 zero "" "" zero)
     zero zero zero zero zero.

(** LongShortEvent()=default, value-initialised: [Side::Long] is 0. *)
Definition default : t := make Long 0.

Definition IsWinner (e : t) (level : Z) : bool :=
  if Side_eqb (side e) Long && (level >? price e) then true
  else if Side_eqb (side e) Short && (level <? price e) then true
  else false.

Definition WinningAmount (e : t) (level : Z) : T :=
  if Side_eqb (side e) Long && (level >? price e) then DefaultTX.amount (tx e)
  else if Side_eqb (side e) Short && (level <? price e)
       then DefaultTX.amount (tx e)
  else zero.

Definition WinningInverseDistance (e : t) (closing_price : Z) : T :=
  if Side_eqb (side e) Long && (closing_price >? price e)
  then (one /! of_int (wrap_int (closing_price - price e)))%num
  else if Side_eqb (side e) Short && (closing_price <? price e)
       then (one /! of_int (wrap_int (price e - closing_price)))%num
  else one.

Definition Category (e : t) : string :=
  match side e with
  | Long => "Long"
  | Short => "Short"
  | Neither => "Error"
  end.

Definition GetLevel (e : t) : Z := price e.

Definition set_tx (e : t) (x : DefaultTX.t T) : t :=
  mk (base e) (side e) (price e) x (prima_facie_payoff e)
     (prima_facie_payout e) (inverse_distance_to_the_pin e)
     (inverse_distance_to_pin_normalised e) (adjusted_amount e).

#[global] Instance ops : EventOps T t Z :=
  Build_EventOps tx set_tx base default
    IsWinner WinningAmount Category GetLevel Z.compare
    (Some (fun l => wrap_int (l - 1), fun l => wrap_int (l + 1))).

End WithNumber.
Arguments t T : clear implicits.
End LongShortEvent.

(** ** The pool: template <typename D, typename EVENT> struct Pool *)

(** A range-for loop whose body updates the captured state [S] and may
    stop the program. *)
Fixpoint for_each {A S : Type} (f : A -> S -> S * Outcome unit)
    (l : list A) (s : S) : S * Outcome unit :=
  match l with
  | [] => (s, Returns tt)
  | a :: l' =>
      match f a s with
      | (s', Returns _) => for_each f l' s'
      | (s', AssertionFailed) => (s', AssertionFailed)
      | (s', Undefined) => (s', Undefined)
      end
  end.

Module Pool.
Section WithEvent.
Context {T E L : Type} `{Number T} `{EventOps T E L}.

Record t : Type := mk {
  tx : Z;                       (* TxId counter *)
  fees : T;                     (* pool fees, 0.03 by default *)
  risks : list (Z * E)          (* std::map< TxId, Risk > *)
}.

(** A default-constructed pool. *)
Definition empty : t := mk 0 default_fees [].

Definition PoolManagerAccount : string := "Pool_Manager_Address".

Definition PoolAccount : string := "Pool_Account_Address".

(** TxId MakeRisk( const Event& event, Amount amount, const std::string& who ):
    the id returned and the pool after the call. *)
Definition MakeRisk (pool : t) (event : E) (amount : T) (who : string)
  : Z * t :=
  let risk :=
    ev_set_tx event
      (DefaultTX.mk (tx pool) amount who PoolAccount
         (DefaultTX.payout (ev_tx event))) in
  (DefaultTX.id (ev_tx risk),
   mk (wrap_int (tx pool + 1)) (fees pool)
      (map_insert Z.compare (tx pool) risk (risks pool))).

Definition TotalPool (pool : t) : T :=
  fold_left (fun result kr => (result +! DefaultTX.amount (ev_tx (snd kr)))%num)
    (risks pool) zero.

Definition TotalWinningAmount (pool : t) (level : L) : T :=
  fold_left (fun result kr => (result +! WinningAmount (snd kr) level)%num)
    (risks pool) zero.

Definition Fees (pool : t) : T := (TotalPool pool *! fees pool)%num.

Definition CategoryMap (pool : t) : list (string * T) :=
  fold_left
    (fun result kr =>
       let c := Category (snd kr) in
       let old := match map_at String.compare c result with
                  | Some x => x
                  | None => zero
                  end in
       map_insert String.compare c
         (old +! DefaultTX.amount (ev_tx (snd kr)))%num result)
    (risks pool) [].

(** The levels of the risks, collected into a [std::set]. *)
Definition collect_levels (pool : t) : list L :=
  fold_left (fun levels kr => set_insert level_compare (GetLevel (snd kr)) levels)
    (risks pool) [].

(** std::set<Level> MakeLevelSet() const.  With an arithmetic [Level] the
    source reads [*levels.begin()] and [*levels.rbegin()] without looking
    whether the set is empty. *)
Definition MakeLevelSet (pool : t) : Outcome (list L) :=
  let levels := collect_levels pool in
  match level_ticks with
  | None => Returns levels
  | Some (under, over) =>
      match levels with
      | [] => Undefined
      | min :: _ =>
          let max := last levels min in
          Returns (set_insert level_compare (over max)
                     (set_insert level_compare (under min) levels))
      end
  end.

(** void ForEachLevel( CALLABLE&& f, ARGS&&... args ) const, with the
    state the callable captures by reference made explicit. *)
Definition ForEachLevel {S : Type} (pool : t)
    (f : L -> S -> S * Outcome unit) (s : S) : S * Outcome unit :=
  match MakeLevelSet pool with
  | Returns levels => for_each f levels s
  | AssertionFailed => (s, AssertionFailed)
  | Undefined => (s, Undefined)
  end.

Definition PoolWinningAmount (pool : t) : Outcome T :=
  match ForEachLevel pool
          (fun level result =>
             ((result +! TotalWinningAmount pool level)%num, Returns tt))
          zero with
  | (result, Returns _) => Returns result
  | (_, AssertionFailed) => AssertionFailed
  | (_, Undefined) => Undefined
  end.

(** The derived class [D] of the CRTP supplies [MakeWinningRisks]. *)
Variable MakeWinningRisks : t -> L -> Outcome (list (Z * E)).

(** auto ProFormaReturnHelper( const Event& event, Amount amount, Level level ):
    the pool after the call, which holds the hypothetical risk, and the
    risk returned. *)
Definition ProFormaReturnHelper (pool : t) (event : E) (amount : T)
    (level : L) : t * Outcome E :=
  let '(tx_id, pool1) := MakeRisk pool event amount "Hypothetical" in
  (pool1,
   match MakeWinningRisks pool1 level with
   | Returns winning_risks =>
       Returns match map_at Z.compare tx_id winning_risks with
               | Some r => r                      (* we won *)
               | None => ev_default               (* a bust *)
               end
   | AssertionFailed => AssertionFailed
   | Undefined => Undefined
   end).

(** auto ProFormaReturn( const Event& event, Amount amount, Level level ) const:
    [Self pool{*this}] copies the pool and the helper runs on the copy. *)
Definition ProFormaReturn (pool : t) (event : E) (amount : T) (level : L)
  : t * Outcome E :=
  let copy := pool in
  let '(_, r) := ProFormaReturnHelper copy event amount level in
  (pool, r).

(** std::map< Level, double > ProFormaPayoffCurve( const Event& event, Amount amount):
    the lambda captures [this] and [result] by reference. *)
Definition ProFormaPayoffCurve (pool : t) (event : E) (amount : T)
  : t * Outcome (list (L * T)) :=
  match ForEachLevel pool
          (fun level (s : t * list (L * T)) =>
             let '(this, result) := s in
             match ProFormaReturn this event amount level with
             | (this', Returns b) =>
                 ((this', map_insert level_compare level
                            (PoolEvent.payoff (ev_base b)) result),
                  Returns tt)
             | (this', AssertionFailed) => ((this', result), AssertionFailed)
             | (this', Undefined) => ((this', result), Undefined)
             end)
          (pool, []) with
  | ((pool', result), Returns _) => (pool', Returns result)
  | ((pool', _), AssertionFailed) => (pool', AssertionFailed)
  | ((pool', _), Undefined) => (pool', Undefined)
  end.

End WithEvent.
Arguments t T E : clear implicits.
End Pool.

(** ** struct MutexPool : Pool< MutexPool, MutexEvent<DefaultTX> > *)
Module MutexPool.
Section WithNumber.
Context {T : Type} `{Number T}.

Definition Risk : Type := MutexEvent.t T.
Definition t : Type := Pool.t T (MutexEvent.t T).
#[local] Typeclasses Transparent Risk t.

(** The winner the loop body makes of a winning risk: [Risk winning_risk{risk}]
    and the four assignments. *)
Definition winning (total_pool_value total_win_value : T) (risk : Risk)
  : Risk :=
  let amount := DefaultTX.amount (MutexEvent.tx risk) in
  let payoff := (total_pool_value /! total_win_value)%num in
  MutexEvent.mk
    (PoolEvent.mk (amount /! total_pool_value)%num
                  (amount /! total_win_value)%num
                  payoff)
    (MutexEvent.event risk)
    (DefaultTX.mk (DefaultTX.id (MutexEvent.tx risk)) amount
       (DefaultTX.client_account (MutexEvent.tx risk))
       (DefaultTX.pool_account (MutexEvent.tx risk))
       (amount *! payoff)%num).

(** The body of the loop over [risks]: the state is [winning_risks] and
    [total_payout]. *)
Definition pick (total_pool_value total_win_value : T) (level : string)
    (st : list (Z * Risk) * T) (kr : Z * Risk) : list (Z * Risk) * T :=
  let '(winning_risks, total_payout) := st in
  let '(tx, risk) := kr in
  if MutexEvent.IsWinner risk level then
    let winning_risk := winning total_pool_value total_win_value risk in
    (map_insert Z.compare tx winning_risk winning_risks,
     (total_payout +! DefaultTX.payout (MutexEvent.tx winning_risk))%num)
  else st.

(** The loop of [MakeWinningRisks]: the winners and [total_payout]. *)
Definition settle (pool : t) (level : string) : list (Z * Risk) * T :=
  let total_pool_value := (Pool.TotalPool pool *! (one -! Pool.fees pool))%num in
  let total_win_value := Pool.TotalWinningAmount pool level in
  fold_left (pick total_pool_value total_win_value level)
    (Pool.risks pool) ([], zero).

(** assert( Close( total_payout + Fees() , TotalPool() ) ) *)
Definition balanced (pool : t) (level : string) : bool :=
  Close (snd (settle pool level) +! Pool.Fees pool)%num (Pool.TotalPool pool).

(** std::map< TxId, Risk > MakeWinningRisks( Level level ) const, with the
    assertion compiled in; [settle] is what the loop builds, and what a
    build without assertions returns. *)
Definition MakeWinningRisks (pool : t) (level : string)
  : Outcome (list (Z * Risk)) :=
  if balanced pool level then Returns (fst (settle pool level))
  else AssertionFailed.

Definition ProFormaReturnHelper := Pool.ProFormaReturnHelper MakeWinningRisks.
Definition ProFormaReturn := Pool.ProFormaReturn MakeWinningRisks.
Definition ProFormaPayoffCurve := Pool.ProFormaPayoffCurve MakeWinningRisks.

End WithNumber.
Arguments t T : clear implicits.
Arguments Risk T : clear implicits.
End MutexPool.

(** ** struct LongShortPool : Pool< LongShortPool, LongShortEvent<DefaultTX> > *)
Module LongShortPool.
Section WithNumber.
Context {T : Type} `{Number T}.

Definition Risk : Type := LongShortEvent.t T.
Definition t : Type := Pool.t T (LongShortEvent.t T).
#[local] Typeclasses Transparent Risk t.

(** The winner the first loop makes of a winning risk. *)
Definition winning (total_pool_value total_win_value : T) (level : Z)
    (risk : Risk) : Risk :=
  let amount := DefaultTX.amount (LongShortEvent.tx risk) in
  let prima_facie_payoff := (total_pool_value /! total_win_value)%num in
  LongShortEvent.mk
    (PoolEvent.mk (amount /! total_pool_value)%num
                  (amount /! total_win_value)%num
                  (PoolEvent.payoff (LongShortEvent.base risk)))
    (LongShortEvent.side risk)
    (LongShortEvent.price risk)
    (LongShortEvent.tx risk)
    prima_facie_payoff
    (amount *! prima_facie_payoff)%num
    (LongShortEvent.WinningInverseDistance risk level)
    (LongShortEvent.inverse_distance_to_pin_normalised risk)
    (LongShortEvent.adjusted_amount risk).

(** The body of the first loop: the state is [winning_risks],
    [total_inverse_distance_to_pin] and [total_prima_facie_payout]. *)
Definition pick (total_pool_value total_win_value : T) (level : Z)
    (st : list (Z * Risk) * T * T) (kr : Z * Risk) : list (Z * Risk) * T * T :=
  let '(winning_risks, total_inverse_distance_to_pin,
        total_prima_facie_payout) := st in
  let '(tx, risk) := kr in
  if LongShortEvent.IsWinner risk level then
    let winning_risk := winning total_pool_value total_win_value level risk in
    (map_insert Z.compare tx winning_risk winning_risks,
     (total_inverse_distance_to_pin
      +! LongShortEvent.inverse_distance_to_the_pin winning_risk)%num,
     (total_prima_facie_payout
      +! LongShortEvent.prima_facie_payout winning_risk)%num)
  else st.

(** The body of the second loop, on one winner. *)
Definition reweigh (total_inverse_distance_to_pin total_win_value : T)
    (winning_risk : Risk) : Risk :=
  let normalised :=
    (LongShortEvent.inverse_distance_to_the_pin winning_risk
     /! total_inverse_distance_to_pin)%num in
  let adjusted_amount := (normalised *! total_win_value)%num in
  let payout :=
    (adjusted_amount *! LongShortEvent.prima_facie_payoff winning_risk)%num in
  let tx := LongShortEvent.tx winning_risk in
  LongShortEvent.mk
    (PoolEvent.mk
       (PoolEvent.pool_share (LongShortEvent.base winning_risk))
       (PoolEvent.winnings_share (LongShortEvent.base winning_risk))
       (payout /! DefaultTX.amount tx)%num)
    (LongShortEvent.side winning_risk)
    (LongShortEvent.price winning_risk)
    (DefaultTX.mk (DefaultTX.id tx) (DefaultTX.amount tx)
       (DefaultTX.client_account tx) (DefaultTX.pool_account tx) payout)
    (LongShortEvent.prima_facie_payoff winning_risk)
    (LongShortEvent.prima_facie_payout winning_risk)
    (LongShortEvent.inverse_distance_to_the_pin winning_risk)
    normalised
    adjusted_amount.

(** The second loop: it updates the winners in place, in key order, and
    adds up [total_payout]. *)
Fixpoint reweigh_all (total_inverse_distance_to_pin total_win_value : T)
    (winning_risks : list (Z * Risk)) (total_payout : T)
  : list (Z * Risk) * T :=
  match winning_risks with
  | [] => ([], total_payout)
  | (tx, winning_risk) :: rest =>
      let w := reweigh total_inverse_distance_to_pin total_win_value
                 winning_risk in
      let '(rest', total) :=
        reweigh_all total_inverse_distance_to_pin total_win_value rest
          (total_payout +! DefaultTX.payout (LongShortEvent.tx w))%num in
      ((tx, w) :: rest', total)
  end.

(** What the two loops leave behind. *)
Record settlement : Type := mk_settlement {
  winning_risks : list (Z * Risk);
  total_inverse_distance_to_pin : T;
  total_prima_facie_payout : T;
  total_payout : T
}.

Definition settle (pool : t) (level : Z) : settlement :=
  let total_pool_value := (Pool.TotalPool pool *! (one -! Pool.fees pool))%num in
  let total_win_value := Pool.TotalWinningAmount pool level in
  let '(winners, total_inverse, total_prima_facie) :=
    fold_left (pick total_pool_value total_win_value level)
      (Pool.risks pool) ([], zero, zero) in
  let '(winners', total) :=
    reweigh_all total_inverse total_win_value winners zero in
  mk_settlement winners' total_inverse total_prima_facie total.

(** assert( Close( total_prima_facie_payout + Fees() , TotalPool() ) ) *)
Definition balanced (pool : t) (level : Z) : bool :=
  Close (total_prima_facie_payout (settle pool level) +! Pool.Fees pool)%num
        (Pool.TotalPool pool).

(** assert( Close( total_prima_facie_payout, total_payout ) ) *)
Definition redistributed (pool : t) (level : Z) : bool :=
  Close (total_prima_facie_payout (settle pool level))
        (total_payout (settle pool level)).

(** std::map< TxId, Risk > MakeWinningRisks( Level level ) const, with the
    two assertions compiled in. *)
Definition MakeWinningRisks (pool : t) (level : Z)
  : Outcome (list (Z * Risk)) :=
  if balanced pool level then
    if redistributed pool level then Returns (winning_risks (settle pool level))
    else AssertionFailed
  else AssertionFailed.

Definition ProFormaReturnHelper := Pool.ProFormaReturnHelper MakeWinningRisks.
Definition ProFormaReturn := Pool.ProFormaReturn MakeWinningRisks.
Definition ProFormaPayoffCurve := Pool.ProFormaPayoffCurve MakeWinningRisks.

End WithNumber.
Arguments t T : clear implicits.
Arguments Risk T : clear implicits.
End LongShortPool.

(** ** Definitions used by the statements *)

(** The invariant of a [std::map<TxId, Risk>]: strictly increasing keys. *)
Definition keys_sorted {V : Type} (m : list (Z * V)) : Prop :=
  StronglySorted Z.lt (map fst m).

(** The entries of a map that pass [keep], each rebuilt by [conv]. *)
Definition select {V W : Type} (keep : V -> bool) (conv : V -> W)
    (m : list (Z * V)) : list (Z * W) :=
  map (fun kr => (fst kr, conv (snd kr))) (filter (fun kr => keep (snd kr)) m).

(** A field of the entries of a map, added up in key order from [0.]. *)
Definition total {T V : Type} `{Number T} (f : V -> T) (m : list (Z * V)) : T :=
  fold_left (fun acc kr => (acc +! f (snd kr))%num) m zero.

(** Sum of rationals. *)
Definition qsum {A : Type} (f : A -> Qc) (l : list A) : Qc :=
  fold_right (fun a s => (f a + s)%Qc) 0%Qc l.

(** A sequence of [MakeRisk] calls: the ids returned and the final pool. *)
Fixpoint register_all {T E L : Type} `{Number T} `{EventOps T E L}
    (pool : Pool.t T E) (regs : list (E * T * string)) : list Z * Pool.t T E :=
  match regs with
  | [] => ([], pool)
  | (event, amount, who) :: rest =>
      let '(id, pool') := Pool.MakeRisk pool event amount who in
      let '(ids, pool'') := register_all pool' rest in
      (id :: ids, pool'')
  end.

(** The pool a sequence of registrations builds from the empty one. *)
Definition pool_of {T E L : Type} `{Number T} `{EventOps T E L}
    (regs : list (E * T * string)) : Pool.t T E :=
  snd (register_all Pool.empty regs).

(** The distance of a long/short risk to the closing price. *)
Definition distance {T : Type} (level : Z) (risk : LongShortEvent.t T) : Z :=
  Z.abs (level - LongShortEvent.price risk).

(** No distance to the closing price leaves the range of [int]. *)
Definition distances_fit {T : Type} (pool : LongShortPool.t T) (level : Z)
  : Prop :=
  Forall (fun kr => distance level (snd kr) <= INT_MAX) (Pool.risks pool).

(** The pools of [main]. *)
Definition main_mutex_pool {T : Type} `{Number T} : MutexPool.t T :=
  pool_of [ (MutexEvent.make "default", of_int 500, "barney"%string);
            (MutexEvent.make "default", of_int 2500, "barney"%string);
            (MutexEvent.make "no_default", of_int 10000, "arnold"%string);
            (MutexEvent.make "no_default", of_int 5000, "arnold"%string) ].

Definition main_ls_pool {T : Type} `{Number T} : LongShortPool.t T :=
  pool_of [ (LongShortEvent.make Long 50, of_int 500, "barney"%string);
            (LongShortEvent.make Long 55, of_int 250, "barney"%string);
            (LongShortEvent.make Long 60, of_int 1000, "barney"%string);
            (LongShortEvent.make Short 60, of_int 700, "arnold"%string);
            (LongShortEvent.make Short 55, of_int 900, "arnold"%string);
            (LongShortEvent.make Short 50, of_int 1000, "arnold"%string);
            (LongShortEvent.make Short 40, of_int 1500, "arnold"%string) ].


(** The ids in use are [0 .. n-1] and the counter is [n]. *)
Definition dense {T E : Type} (n : nat) (pool : Pool.t T E) : Prop :=
  Pool.tx pool = Z.of_nat n /\
  map fst (Pool.risks pool) = map Z.of_nat (seq 0 n).

(** *** Concrete pools, in binary64 *)

(** Three stakes of the order of 10^15 units. *)
Definition big_mutex_pool : MutexPool.t float :=
  pool_of [ (MutexEvent.make "default", 1e15%float, "barney"%string);
            (MutexEvent.make "default", 2e15%float, "barney"%string);
            (MutexEvent.make "no_default", 4e15%float, "arnold"%string) ].

Definition big_ls_pool : LongShortPool.t float :=
  pool_of [ (LongShortEvent.make Long 50, 1e15%float, "barney"%string);
            (LongShortEvent.make Long 55, 2e15%float, "barney"%string);
            (LongShortEvent.make Short 40, 4e15%float, "arnold"%string) ].

(** A winning stake of amount 0 next to a losing stake. *)
Definition zero_stake_mutex_pool : MutexPool.t float :=
  pool_of [ (MutexEvent.make "default", 0%float, "barney"%string);
            (MutexEvent.make "no_default", 100%float, "arnold"%string) ].

Definition zero_stake_ls_pool : LongShortPool.t float :=
  pool_of [ (LongShortEvent.make Long 50, 0%float, "barney"%string);
            (LongShortEvent.make Short 40, 100%float, "arnold"%string) ].

(** One stake of 2^-7 = 0.0078125 units. *)
Definition tiny_mutex_pool : MutexPool.t float :=
  pool_of [ (MutexEvent.make "default", 0x1p-7%float, "barney"%string) ].

(** A large stake next to the closing price and a small one further away. *)
Definition lopsided_ls_pool : LongShortPool.t float :=
  pool_of [ (LongShortEvent.make Long 55, 1000%float, "barney"%string);
            (LongShortEvent.make Long 50, 1%float, "barney"%string) ].

(** Two winners with the same product of amount and distance at a closing
    price of 56: 25 units at distance 1 and 5 units at distance 5. *)
Definition level_ls_pool : LongShortPool.t float :=
  pool_of [ (LongShortEvent.make Long 55, 25%float, "barney"%string);
            (LongShortEvent.make Long 51, 5%float, "barney"%string) ].

(** The [n]-th winner of a settlement. *)
Definition nth_mutex_winner {T : Type} `{Number T} (n : nat)
    (pool : MutexPool.t T) (level : string) : Z * MutexPool.Risk T :=
  nth n (fst (MutexPool.settle pool level)) (0, MutexEvent.default).

Definition nth_ls_winner {T : Type} `{Number T} (n : nat)
    (pool : LongShortPool.t T) (level : Z) : Z * LongShortPool.Risk T :=
  nth n (LongShortPool.winning_risks (LongShortPool.settle pool level))
    (0, LongShortEvent.default).

(** A [double] that is NaN or infinite, read off its IEEE-754 datum. *)
Definition nonfinite (x : float) : Prop :=
  match Prim2SF x with
  | S754_nan | S754_infinity _ => True
  | _ => False
  end.

(** A [double] that is neither NaN nor infinite. *)
Definition finite (x : float) : bool :=
  negb (PrimFloat.is_nan x) && negb (PrimFloat.is_infinity x).

(** ** Further definitions used by the statements *)

(** Strictly increasing in the order [cmp]: the invariant of a [std::set]
    and of the keys of a [std::map]. *)
Definition sorted_by {K : Type} (cmp : K -> K -> comparison) (l : list K)
  : Prop :=
  StronglySorted (fun x y => cmp x y = Lt) l.

(** The risk a call of [MakeRisk] stores. *)
Definition registered {T E L : Type} `{EventOps T E L} (pool : Pool.t T E)
    (event : E) (amount : T) (who : string) : E :=
  ev_set_tx event
    (DefaultTX.mk (Pool.tx pool) amount who Pool.PoolAccount
       (DefaultTX.payout (ev_tx event))).

(** The amounts a sequence of registrations asks for, added up in order. *)
Definition registered_total {T E : Type} `{Number T}
    (regs : list (E * T * string)) : T :=
  fold_left (fun acc r => (acc +! snd (fst r))%num) regs zero.

(** The risks of category [c]. *)
Definition in_category {T E L : Type} `{EventOps T E L} (c : string)
    (kr : Z * E) : bool :=
  String.eqb (Category (snd kr)) c.

(** The points of a payoff curve: the payoff of the valuation at each
    level, in the order given, up to the first level at which the
    valuation does not return. *)
Fixpoint curve_points {L T E : Type} (value : L -> Outcome E)
    (payoff : E -> T) (levels : list L) : Outcome (list (L * T)) :=
  match levels with
  | [] => Returns []
  | level :: rest =>
      match value level with
      | Returns b =>
          match curve_points value payoff rest with
          | Returns points => Returns ((level, payoff b) :: points)
          | AssertionFailed => AssertionFailed
          | Undefined => Undefined
          end
      | AssertionFailed => AssertionFailed
      | Undefined => Undefined
      end
  end.

(** A winning stake of amount 0 next to a winning stake of 100 units. *)
Definition free_rider_ls_pool : LongShortPool.t float :=
  pool_of [ (LongShortEvent.make Long 50, 0%float, "barney"%string);
            (LongShortEvent.make Long 55, 100%float, "arnold"%string) ].

(** The risks a sequence of registrations stores when the counter starts
    at [n]: one per registration, under consecutive ids. *)
Fixpoint ledger {T E L : Type} `{EventOps T E L} (n : nat)
    (regs : list (E * T * string)) : list (Z * E) :=
  match regs with
  | [] => []
  | (event, amount, who) :: rest =>
      (Z.of_nat n,
       ev_set_tx event
         (DefaultTX.mk (Z.of_nat n) amount who Pool.PoolAccount
            (DefaultTX.payout (ev_tx event))))
      :: ledger (S n) rest
  end.

(** * Properties *)

(** ** Lists, and maps in key order *)

Lemma map_at_insert (V : Type) (k : Z) (v : V) (m : list (Z * V)) :
  map_at Z.compare k (map_insert Z.compare k v m) = Some v.
Proof.
  induction m as [| [k' v'] m IH]; simpl.
  - now rewrite Z.compare_refl.
  - destruct (k ?= k') eqn:E; simpl.
    + now rewrite Z.compare_refl.
    + now rewrite Z.compare_refl.
    + now rewrite E.
Qed.

Lemma map_insert_last (V : Type) (k : Z) (v : V) (m : list (Z * V)) :
  Forall (fun kv => fst kv < k) m ->
  map_insert Z.compare k v m = m ++ [(k, v)].
Proof.
  induction 1 as [| [k' v'] m Hlt _ IH]; simpl; [reflexivity |].
  simpl in Hlt. apply Z.lt_gt in Hlt. unfold Z.gt in Hlt.
  now rewrite Hlt, IH.
Qed.

Lemma Forall_map_insert (V : Type) (P : Z * V -> Prop) (k : Z) (v : V)
    (m : list (Z * V)) :
  P (k, v) -> Forall P m -> Forall P (map_insert Z.compare k v m).
Proof.
  intros Hk. induction 1 as [| [k' v'] m Hx Hm IH]; simpl.
  - now constructor.
  - destruct (k ?= k'); repeat constructor; auto.
Qed.

Lemma Forall_forallb {A : Type} (P : A -> Prop) (p : A -> bool) (l : list A) :
  (forall x, p x = true -> P x) -> forallb p l = true -> Forall P l.
Proof.
  intros HpP Hall. apply Forall_forall. intros x Hx. apply HpP.
  now apply (proj1 (forallb_forall p l) Hall).
Qed.

Lemma Exists_existsb {A : Type} (P : A -> Prop) (p : A -> bool) (l : list A) :
  (forall x, p x = true -> P x) -> existsb p l = true -> Exists P l.
Proof.
  intros HpP Hex. apply existsb_exists in Hex. destruct Hex as [x [Hx Hp]].
  apply Exists_exists. exists x. split; [assumption | now apply HpP].
Qed.

Lemma wrap_int_id (z : Z) : in_int z -> wrap_int z = z.
Proof.
  unfold in_int, INT_MIN, INT_MAX, wrap_int. intros Hz.
  rewrite Z.mod_small; lia.
Qed.

Lemma keys_sorted_app (V : Type) (m : list (Z * V)) (k : Z) (v : V) :
  keys_sorted m -> Forall (fun kv => fst kv < k) m -> keys_sorted (m ++ [(k, v)]).
Proof.
  unfold keys_sorted. induction m as [| [k' v'] m IH]; simpl; intros Hs Hlt.
  - repeat constructor.
  - inversion Hs as [| ? ? Hs' Hall]; subst.
    inversion Hlt as [| ? ? Hk Hlt']; subst. simpl in Hk.
    constructor; [now apply IH |].
    rewrite map_app, Forall_app. split; [assumption |].
    now repeat constructor.
Qed.

(** ** Registration *)

Lemma MutexEvent_tx_set {T : Type} `{Number T} (e : MutexEvent.t T)
    (x : DefaultTX.t T) :
  ev_tx (ev_set_tx e x) = x.
Proof. reflexivity. Qed.

Lemma LongShortEvent_tx_set {T : Type} `{Number T} (e : LongShortEvent.t T)
    (x : DefaultTX.t T) :
  ev_tx (ev_set_tx e x) = x.
Proof. reflexivity. Qed.

Section Registration.
Context {T E L : Type} `{Number T} `{EventOps T E L}.

(** [tx] is a field of the event: reading it after writing it gives what
    was written. *)
Hypothesis tx_set : forall (e : E) (x : DefaultTX.t T), ev_tx (ev_set_tx e x) = x.

Lemma dense_keys_below (n : nat) (pool : Pool.t T E) :
  dense n pool -> Forall (fun kv => fst kv < Z.of_nat n) (Pool.risks pool).
Proof.
  intros [_ Hk]. apply Forall_forall. intros kv Hin.
  apply (in_map fst) in Hin. rewrite Hk in Hin.
  apply in_map_iff in Hin. destruct Hin as [i [<- Hi]].
  apply in_seq in Hi. lia.
Qed.

Lemma MakeRisk_dense (n : nat) (pool : Pool.t T E) (event : E) (amount : T)
    (who : string) :
  dense n pool -> Z.of_nat n < INT_MAX ->
  fst (Pool.MakeRisk pool event amount who) = Z.of_nat n /\
  dense (S n) (snd (Pool.MakeRisk pool event amount who)) /\
  Pool.risks (snd (Pool.MakeRisk pool event amount who)) =
    Pool.risks pool ++
    [(Z.of_nat n,
      ev_set_tx event
        (DefaultTX.mk (Z.of_nat n) amount who Pool.PoolAccount
           (DefaultTX.payout (ev_tx event))))].
Proof.
  intros Hd Hn. pose proof (dense_keys_below Hd) as Hlt.
  destruct Hd as [Htx Hk]. unfold Pool.MakeRisk; simpl.
  rewrite tx_set; simpl. rewrite Htx.
  rewrite (map_insert_last _ Hlt).
  split; [reflexivity |]. split; [| reflexivity].
  split; cbn [Pool.tx Pool.risks].
  - rewrite wrap_int_id; [lia |]. unfold in_int, INT_MIN, INT_MAX in *. lia.
  - rewrite map_app, Hk, seq_S, map_app. reflexivity.
Qed.

Lemma register_all_dense (regs : list (E * T * string)) :
  forall (n : nat) (pool : Pool.t T E),
  dense n pool -> Z.of_nat (n + List.length regs) <= INT_MAX ->
  fst (register_all pool regs) = map Z.of_nat (seq n (List.length regs)) /\
  dense (n + List.length regs) (snd (register_all pool regs)).
Proof.
  induction regs as [| [[event amount] who] regs IH]; intros n pool Hd Hn;
    cbn [register_all List.length] in *.
  - rewrite Nat.add_0_r. now split.
  - destruct (@MakeRisk_dense n pool event amount who Hd) as (Hid & Hd' & _);
      [lia |].
    destruct (Pool.MakeRisk pool event amount who) as [id pool'] eqn:EM.
    simpl in Hid, Hd'.
    destruct (IH (S n) pool' Hd') as [Hids Hd'']; [lia |].
    destruct (register_all pool' regs) as [ids pool''] eqn:ER.
    cbn [fst snd] in *. rewrite Hid, Hids.
    replace (n + S (List.length regs))%nat with (S n + List.length regs)%nat by lia.
    now split.
Qed.

Lemma dense_empty : dense 0 (Pool.empty : Pool.t T E).
Proof. now split. Qed.

Lemma dense_keys_sorted (n : nat) (pool : Pool.t T E) :
  dense n pool -> keys_sorted (Pool.risks pool).
Proof.
  intros [_ Hk]. unfold keys_sorted. rewrite Hk. clear Hk.
  generalize 0%nat as a. induction n as [| n IH]; intros a; simpl.
  - constructor.
  - constructor; [apply IH |].
    apply Forall_forall. intros z Hz. apply in_map_iff in Hz.
    destruct Hz as [i [<- Hi]]. apply in_seq in Hi. lia.
Qed.

End Registration.

(** The pools that registrations build have a well-formed map. *)
Lemma pool_of_keys_sorted {T E L : Type} `{Number T} `{EventOps T E L}
    (tx_set : forall (e : E) (x : DefaultTX.t T), ev_tx (ev_set_tx e x) = x)
    (regs : list (E * T * string)) :
  Z.of_nat (List.length regs) <= INT_MAX ->
  keys_sorted (Pool.risks (pool_of regs)).
Proof.
  intros Hn. unfold pool_of.
  destruct (register_all_dense tx_set regs (n := 0%nat) (pool := Pool.empty))
    as [_ Hd]; [apply dense_empty | exact Hn |].
  exact (dense_keys_sorted Hd).
Qed.

(** C9.  Ids are handed out in increasing order from 0, without gaps or
    reuse.  After any sequence [regs] of registrations on a fresh pool the
    ids returned are [0, 1, ..., n-1], all different, they are the keys of
    the stored risks, and the counter equals the number of stored risks;
    one more [MakeRisk] returns the counter as id, stores the new risk
    under it and advances the counter by one, so the counter again equals
    the number of stored risks.  The sequence is shorter than [INT_MAX],
    the largest value of the [int] counter. *)
Theorem MakeRisk_ids_sequential {T E L : Type} `{Number T} `{EventOps T E L}
    (tx_set : forall (e : E) (x : DefaultTX.t T), ev_tx (ev_set_tx e x) = x)
    (regs : list (E * T * string)) (event : E) (amount : T) (who : string) :
  Z.of_nat (List.length regs) < INT_MAX ->
  let ids := fst (register_all Pool.empty regs) in
  let pool := snd (register_all Pool.empty regs) in
  let id := fst (Pool.MakeRisk pool event amount who) in
  let pool' := snd (Pool.MakeRisk pool event amount who) in
  ids = map Z.of_nat (seq 0 (List.length regs)) /\
  NoDup ids /\
  map fst (Pool.risks pool) = ids /\
  Pool.tx pool = Z.of_nat (List.length (Pool.risks pool)) /\
  id = Pool.tx pool /\
  map_at Z.compare id (Pool.risks pool') =
    Some (ev_set_tx event
            (DefaultTX.mk id amount who Pool.PoolAccount
               (DefaultTX.payout (ev_tx event)))) /\
  Pool.tx pool' = Pool.tx pool + 1 /\
  Pool.tx pool' = Z.of_nat (List.length (Pool.risks pool')).
Proof.
  intros Hn ids pool id pool'.
  destruct (register_all_dense tx_set regs (n := 0%nat) (pool := Pool.empty))
    as [Hids Hd]; [apply dense_empty | simpl; lia |].
  simpl in Hd. fold pool in Hd. fold ids in Hids.
  destruct (MakeRisk_dense tx_set event amount who Hd Hn)
    as (Hid & Hd' & Hr).
  fold id in Hid. fold pool' in Hd', Hr.
  assert (Hlen : forall n (p : Pool.t T E),
             dense n p -> List.length (Pool.risks p) = n).
  { intros n p [_ Hk]. apply (f_equal (@List.length Z)) in Hk.
    now rewrite !length_map, length_seq in Hk. }
  pose proof Hd as [Htx Hk]. pose proof Hd' as [Htx' _].
  repeat split.
  - exact Hids.
  - rewrite Hids. apply Injective_map_NoDup; [| apply seq_NoDup].
    intros a b. apply Nat2Z.inj.
  - now rewrite Hk, Hids.
  - now rewrite (Hlen _ _ Hd).
  - now rewrite Hid, Htx.
  - unfold pool', id, Pool.MakeRisk; cbn [fst snd Pool.risks].
    rewrite tx_set; cbn [DefaultTX.id]. apply map_at_insert.
  - rewrite Htx', Htx. lia.
  - now rewrite (Hlen _ _ Hd').
Qed.

Lemma MakeRisk_ids_sequential_witness :
  let regs := [ (MutexEvent.make "default", 500%float, "barney"%string);
                (MutexEvent.make "default", 2500%float, "barney"%string);
                (MutexEvent.make "no_default", 10000%float, "arnold"%string) ] in
  let pool : MutexPool.t float := snd (register_all Pool.empty regs) in
  Z.of_nat (List.length regs) < INT_MAX /\
  fst (Pool.MakeRisk pool (MutexEvent.make "no_default") 5000%float "arnold") = 3 /\
  Pool.tx (snd (Pool.MakeRisk pool (MutexEvent.make "no_default") 5000%float
                  "arnold")) = 4.
Proof.
  intros regs pool.
  assert (Hn : Z.of_nat (List.length regs) < INT_MAX) by (vm_compute; reflexivity).
  split; [exact Hn |].
  destruct (@MakeRisk_ids_sequential float (MutexEvent.t float) string _ _
              MutexEvent_tx_set regs (MutexEvent.make "no_default")
              5000%float "arnold"%string Hn)
    as (_ & _ & _ & Htx & Hid & _ & Hnext & _).
  split.
  - etransitivity; [exact Hid | reflexivity].
  - etransitivity; [exact Hnext | reflexivity].
Defined.

(** C8 (as amended).  [MakeRisk] does not look at the amount: whatever it
    is, negative values included, the call returns the counter as id,
    stores the risk with that amount under it and advances the counter.
    There is no failure. *)
Theorem MakeRisk_accepts_any_amount {T E L : Type} `{Number T}
    `{EventOps T E L}
    (tx_set : forall (e : E) (x : DefaultTX.t T), ev_tx (ev_set_tx e x) = x)
    (pool : Pool.t T E) (event : E) (amount : T) (who : string) :
  let id := fst (Pool.MakeRisk pool event amount who) in
  let pool' := snd (Pool.MakeRisk pool event amount who) in
  id = Pool.tx pool /\
  Pool.tx pool' = wrap_int (Pool.tx pool + 1) /\
  Pool.fees pool' = Pool.fees pool /\
  exists risk : E,
    map_at Z.compare id (Pool.risks pool') = Some risk /\
    DefaultTX.id (ev_tx risk) = id /\
    DefaultTX.amount (ev_tx risk) = amount /\
    DefaultTX.client_account (ev_tx risk) = who.
Proof.
  unfold Pool.MakeRisk; cbn [fst snd Pool.tx Pool.fees Pool.risks].
  rewrite tx_set; cbn [DefaultTX.id].
  repeat split.
  eexists. split; [apply map_at_insert |].
  rewrite tx_set. repeat split.
Qed.

Lemma MakeRisk_accepts_any_amount_witness :
  let pool : MutexPool.t float := Pool.empty in
  let r := Pool.MakeRisk pool (MutexEvent.make "default") (-1)%float "barney" in
  fst r = 0 /\ Pool.tx (snd r) = 1.
Proof.
  intros pool r.
  destruct (@MakeRisk_accepts_any_amount float (MutexEvent.t float) string _ _
              MutexEvent_tx_set pool (MutexEvent.make "default")
              (-1)%float "barney"%string)
    as (Hid & Htx & _).
  split.
  - exact Hid.
  - etransitivity; [exact Htx | reflexivity].
Defined.

(** C8, the claim as stated fails: a registration with amount -1 returns
    id 0, and afterwards the counter is 1 and the risk is stored. *)
Lemma MakeRisk_negative_amount_registered :
  let pool : MutexPool.t float := Pool.empty in
  let r := Pool.MakeRisk pool (MutexEvent.make "default") (-1)%float "barney" in
  PrimFloat.ltb (-1)%float 0%float = true /\
  fst r = 0 /\
  Pool.tx (snd r) = 1 /\
  Pool.tx (snd r) <> Pool.tx pool /\
  map (fun kr => (fst kr, DefaultTX.amount (MutexEvent.tx (snd kr))))
      (Pool.risks (snd r)) = [(0, (-1)%float)].
Proof.
  vm_compute. repeat split. discriminate.
Qed.

(** ** Pro-forma valuation *)

Section ProForma.
Context {T E L : Type} `{Number T} `{EventOps T E L}.
Variable MakeWinningRisks : Pool.t T E -> L -> Outcome (list (Z * E)).

Lemma ProFormaReturn_pool (pool : Pool.t T E) (event : E) (amount : T)
    (level : L) :
  fst (Pool.ProFormaReturn MakeWinningRisks pool event amount level) = pool.
Proof.
  unfold Pool.ProFormaReturn.
  now destruct (Pool.ProFormaReturnHelper MakeWinningRisks pool event amount level).
Qed.

(** The helper, on the contrary, registers the hypothetical risk in the
    pool it is called on. *)
Lemma ProFormaReturnHelper_registers (pool : Pool.t T E) (event : E)
    (amount : T) (level : L) :
  fst (Pool.ProFormaReturnHelper MakeWinningRisks pool event amount level) =
  snd (Pool.MakeRisk pool event amount "Hypothetical").
Proof. reflexivity. Qed.

Lemma curve_loop_pool (event : E) (amount : T) (levels : list L) :
  forall (pool : Pool.t T E) (result : list (L * T)),
  fst (fst (for_each
              (fun level (s : Pool.t T E * list (L * T)) =>
                 let '(this, result) := s in
                 match Pool.ProFormaReturn MakeWinningRisks this event amount
                         level with
                 | (this', Returns b) =>
                     ((this', map_insert level_compare level
                                (PoolEvent.payoff (ev_base b)) result),
                      Returns tt)
                 | (this', AssertionFailed) => ((this', result), AssertionFailed)
                 | (this', Undefined) => ((this', result), Undefined)
                 end)
              levels (pool, result))) = pool.
Proof.
  induction levels as [| level levels IH]; intros pool result;
    cbn [for_each]; [reflexivity |].
  pose proof (ProFormaReturn_pool pool event amount level) as Hp.
  destruct (Pool.ProFormaReturn MakeWinningRisks pool event amount level)
    as [this' [b | |]]; cbn [fst] in Hp; subst this'; auto.
Qed.

Lemma ProFormaPayoffCurve_pool (pool : Pool.t T E) (event : E) (amount : T) :
  fst (Pool.ProFormaPayoffCurve MakeWinningRisks pool event amount) = pool.
Proof.
  unfold Pool.ProFormaPayoffCurve, Pool.ForEachLevel.
  destruct (Pool.MakeLevelSet pool) as [levels | |]; try reflexivity.
  pose proof (curve_loop_pool event amount levels pool []) as Hp.
  match goal with
  | |- context [for_each ?f levels (pool, [])] =>
      change (fst (fst (for_each f levels (pool, []))) = pool) in Hp;
      destruct (for_each f levels (pool, [])) as [[pool' result] [u | |]]
  end; exact Hp.
Qed.

End ProForma.

(** C6.  [ProFormaReturn] and [ProFormaPayoffCurve] leave the pool they are
    called on as it was, whatever the derived class's [MakeWinningRisks]
    does and however the call ends (a value, a failed assertion, undefined
    behaviour of the level set): the pool, and with it [TotalPool],
    [TotalWinningAmount] at every level, the id counter and the stored
    risks. *)
Theorem ProForma_leaves_pool_unchanged {T E L : Type} `{Number T}
    `{EventOps T E L}
    (MakeWinningRisks : Pool.t T E -> L -> Outcome (list (Z * E)))
    (pool : Pool.t T E) (event : E) (amount : T) (level : L) :
  let unchanged (after : Pool.t T E) :=
    after = pool /\
    Pool.TotalPool after = Pool.TotalPool pool /\
    (forall l : L, Pool.TotalWinningAmount after l =
                   Pool.TotalWinningAmount pool l) /\
    Pool.tx after = Pool.tx pool /\
    Pool.risks after = Pool.risks pool in
  unchanged (fst (Pool.ProFormaReturn MakeWinningRisks pool event amount level))
  /\
  unchanged (fst (Pool.ProFormaPayoffCurve MakeWinningRisks pool event amount)).
Proof.
  intros unchanged. unfold unchanged.
  rewrite ProFormaReturn_pool, ProFormaPayoffCurve_pool.
  repeat split.
Qed.

(** ** The settlement loops *)

Section InsertLoop.
Context {V W : Type} (keep : V -> bool) (conv : V -> W).

(** A loop that inserts the converted entries it keeps, in key order,
    builds the selection. *)
Lemma insert_loop_select (m : list (Z * V)) :
  forall ws : list (Z * W),
  keys_sorted m ->
  (forall kv kr, In kv ws -> In kr m -> fst kv < fst kr) ->
  fold_left
    (fun ws kr =>
       if keep (snd kr) then map_insert Z.compare (fst kr) (conv (snd kr)) ws
       else ws) m ws
  = ws ++ select keep conv m.
Proof.
  unfold keys_sorted, select.
  induction m as [| [k r] m IH]; intros ws Hs Hlt; simpl.
  - now rewrite app_nil_r.
  - inversion Hs as [| ? ? Hs' Hall]; subst.
    destruct (keep r) eqn:Ek; simpl.
    + rewrite map_insert_last.
      * rewrite IH; [now rewrite <- app_assoc | assumption |].
        intros kv kr Hkv Hkr. apply in_app_or in Hkv.
        destruct Hkv as [Hkv | [<- | []]].
        -- apply Hlt; [assumption | now right].
        -- simpl. rewrite Forall_forall in Hall. apply Hall.
           now apply (in_map fst).
      * apply Forall_forall. intros kv Hkv.
        apply (Hlt kv (k, r)); [assumption | now left].
    + apply IH; [assumption |].
      intros kv kr Hkv Hkr. apply Hlt; [assumption | now right].
Qed.

Lemma keep_loop_total {T : Type} `{Number T} (f : W -> T) (m : list (Z * V)) :
  forall a : T,
  fold_left
    (fun acc kr => if keep (snd kr) then (acc +! f (conv (snd kr)))%num else acc)
    m a
  = fold_left (fun acc kr => (acc +! f (snd kr))%num) (select keep conv m) a.
Proof.
  unfold select. induction m as [| [k r] m IH]; intros a; simpl;
    [reflexivity |].
  destruct (keep r); simpl; apply IH.
Qed.

Lemma select_nil (m : list (Z * V)) :
  Forall (fun kr => keep (snd kr) = false) m -> select keep conv m = [].
Proof.
  unfold select. induction 1 as [| [k r] m Hk _ IH]; simpl; [reflexivity |].
  simpl in Hk. now rewrite Hk.
Qed.

Lemma in_select (m : list (Z * V)) (k : Z) (w : W) :
  In (k, w) (select keep conv m) <->
  exists r, In (k, r) m /\ keep r = true /\ w = conv r.
Proof.
  unfold select. rewrite in_map_iff. split.
  - intros [[k' r] [Heq Hin]]. apply filter_In in Hin. simpl in *.
    inversion Heq; subst. exists r. tauto.
  - intros [r (Hin & Hk & ->)]. exists (k, r). split; [reflexivity |].
    apply filter_In. now split.
Qed.

End InsertLoop.

Lemma total_map_snd {T V W : Type} `{Number T} (g : V -> W) (f : W -> T)
    (m : list (Z * V)) :
  total f (map (fun kr => (fst kr, g (snd kr))) m) = total (fun v => f (g v)) m.
Proof.
  unfold total. generalize (zero : T).
  induction m as [| [k v] m IH]; intros a; simpl; [reflexivity |]. apply IH.
Qed.

Section MutexLoop.
Context {T : Type} `{Number T}.
Variables (total_pool_value total_win_value : T) (level : string).

Lemma MutexPool_pick_split (m : list (Z * MutexPool.Risk T)) :
  forall (ws : list (Z * MutexPool.Risk T)) (tp : T),
  fold_left (MutexPool.pick total_pool_value total_win_value level) m (ws, tp)
  = (fold_left
       (fun ws kr =>
          if MutexEvent.IsWinner (snd kr) level
          then map_insert Z.compare (fst kr)
                 (MutexPool.winning total_pool_value total_win_value (snd kr)) ws
          else ws) m ws,
     fold_left
       (fun acc kr =>
          if MutexEvent.IsWinner (snd kr) level
          then (acc +! DefaultTX.payout
                         (MutexEvent.tx
                            (MutexPool.winning total_pool_value total_win_value
                               (snd kr))))%num
          else acc) m tp).
Proof.
  induction m as [| [k r] m IH]; intros ws tp; simpl; [reflexivity |].
  destruct (MutexEvent.IsWinner r level); apply IH.
Qed.

Lemma MutexPool_pick_forall (P : Z * MutexPool.Risk T -> Prop)
    (m : list (Z * MutexPool.Risk T)) :
  (forall k r, In (k, r) m -> MutexEvent.IsWinner r level = true ->
               P (k, MutexPool.winning total_pool_value total_win_value r)) ->
  forall (ws : list (Z * MutexPool.Risk T)) (tp : T),
  Forall P ws ->
  Forall P
    (fst (fold_left (MutexPool.pick total_pool_value total_win_value level)
            m (ws, tp))).
Proof.
  induction m as [| [k r] m IH]; intros Hm ws tp Hws; simpl; [assumption |].
  destruct (MutexEvent.IsWinner r level) eqn:Ew.
  - apply IH.
    + intros k' r' Hin. apply Hm. now right.
    + apply Forall_map_insert; [| assumption]. apply Hm; [now left | assumption].
  - apply IH; [| assumption]. intros k' r' Hin. apply Hm. now right.
Qed.

End MutexLoop.

(** On a well-formed map the loop of [MutexPool::MakeWinningRisks] returns
    the winning risks, each turned into a winner, and [total_payout] is the
    sum of their payouts in key order. *)
Lemma MutexPool_settle_sorted {T : Type} `{Number T} (pool : MutexPool.t T)
    (level : string) :
  keys_sorted (Pool.risks pool) ->
  let winners :=
    select (fun r => MutexEvent.IsWinner r level)
      (MutexPool.winning
         (Pool.TotalPool pool *! (one -! Pool.fees pool))%num
         (Pool.TotalWinningAmount pool level))
      (Pool.risks pool) in
  MutexPool.settle pool level =
  (winners, total (fun r => DefaultTX.payout (MutexEvent.tx r)) winners).
Proof.
  intros Hs winners. unfold MutexPool.settle.
  rewrite MutexPool_pick_split. f_equal.
  - rewrite (insert_loop_select (fun r => MutexEvent.IsWinner r level));
      [reflexivity | assumption | intros ? ? []].
  - exact (keep_loop_total (fun r => MutexEvent.IsWinner r level) _
             (fun r => DefaultTX.payout (MutexEvent.tx r)) _ _).
Qed.

(** The mapping [MakeWinningRisks] returns is the one its loops built. *)
Lemma MutexPool_returns_settle {T : Type} `{Number T} (pool : MutexPool.t T)
    (level : string) (winners : list (Z * MutexPool.Risk T)) :
  MutexPool.MakeWinningRisks pool level = Returns winners ->
  winners = fst (MutexPool.settle pool level).
Proof.
  unfold MutexPool.MakeWinningRisks.
  destruct (MutexPool.balanced pool level); [| discriminate].
  intros Hr. now inversion Hr.
Qed.

Lemma LongShortPool_returns_settle {T : Type} `{Number T}
    (pool : LongShortPool.t T) (level : Z)
    (winners : list (Z * LongShortPool.Risk T)) :
  LongShortPool.MakeWinningRisks pool level = Returns winners ->
  winners = LongShortPool.winning_risks (LongShortPool.settle pool level).
Proof.
  unfold LongShortPool.MakeWinningRisks.
  destruct (LongShortPool.balanced pool level); [| discriminate].
  destruct (LongShortPool.redistributed pool level); [| discriminate].
  intros Hr. now inversion Hr.
Qed.

(** C5.  Every winner of the mapping [MutexPool::MakeWinningRisks]
    returns carries the same payoff,
    [TotalPool() * (1 - fees) / TotalWinningAmount(level)], and its payout
    is its amount times that payoff. *)
Theorem MutexPool_flat_payoff {T : Type} `{Number T} (pool : MutexPool.t T)
    (level : string) (winners : list (Z * MutexPool.Risk T)) (k : Z)
    (r : MutexPool.Risk T) :
  MutexPool.MakeWinningRisks pool level = Returns winners ->
  In (k, r) winners ->
  let poolValue := (Pool.TotalPool pool *! (one -! Pool.fees pool))%num in
  let winValue := Pool.TotalWinningAmount pool level in
  PoolEvent.payoff (MutexEvent.base r) = (poolValue /! winValue)%num /\
  DefaultTX.payout (MutexEvent.tx r) =
    (DefaultTX.amount (MutexEvent.tx r) *! PoolEvent.payoff (MutexEvent.base r))%num.
Proof.
  intros Hr Hin poolValue winValue.
  apply MutexPool_returns_settle in Hr. subst winners.
  pose (P := fun kr : Z * MutexPool.Risk T =>
    PoolEvent.payoff (MutexEvent.base (snd kr)) = (poolValue /! winValue)%num /\
    DefaultTX.payout (MutexEvent.tx (snd kr)) =
      (DefaultTX.amount (MutexEvent.tx (snd kr))
       *! PoolEvent.payoff (MutexEvent.base (snd kr)))%num).
  assert (Hall : Forall P (fst (MutexPool.settle pool level))).
  { unfold MutexPool.settle. apply MutexPool_pick_forall; [| constructor].
    intros k' r' _ _. split; reflexivity. }
  rewrite Forall_forall in Hall. exact (Hall (k, r) Hin).
Qed.

Lemma MutexPool_flat_payoff_witness :
  let pool := main_mutex_pool (T := float) in
  exists winners : list (Z * MutexPool.Risk float),
    MutexPool.MakeWinningRisks pool "default" = Returns winners /\
    let w := nth 1 winners (0, MutexEvent.default) in
    In w winners /\
    PoolEvent.payoff (MutexEvent.base (snd w)) =
      ((Pool.TotalPool pool *! (one -! Pool.fees pool))
       /! Pool.TotalWinningAmount pool "default")%num /\
    DefaultTX.payout (MutexEvent.tx (snd w)) =
      (DefaultTX.amount (MutexEvent.tx (snd w))
       *! PoolEvent.payoff (MutexEvent.base (snd w)))%num.
Proof.
  intros pool.
  assert (Hr : MutexPool.MakeWinningRisks pool "default"
               = Returns (fst (MutexPool.settle pool "default")))
    by (vm_compute; reflexivity).
  exists (fst (MutexPool.settle pool "default")). split; [exact Hr |].
  intros w.
  assert (Hin : In w (fst (MutexPool.settle pool "default")))
    by (vm_compute; right; left; reflexivity).
  split; [exact Hin |].
  apply (@MutexPool_flat_payoff float Binary64 pool "default"%string
           (fst (MutexPool.settle pool "default")) (fst w) (snd w) Hr).
  now rewrite <- surjective_pairing.
Defined.

Section LongShortLoop.
Context {T : Type} `{Number T}.
Variables (total_pool_value total_win_value : T) (level : Z).

Lemma LongShortPool_pick_split (m : list (Z * LongShortPool.Risk T)) :
  forall (ws : list (Z * LongShortPool.Risk T)) (ti tp : T),
  fold_left (LongShortPool.pick total_pool_value total_win_value level) m
    (ws, ti, tp)
  = (fold_left
       (fun ws kr =>
          if LongShortEvent.IsWinner (snd kr) level
          then map_insert Z.compare (fst kr)
                 (LongShortPool.winning total_pool_value total_win_value level
                    (snd kr)) ws
          else ws) m ws,
     fold_left
       (fun acc kr =>
          if LongShortEvent.IsWinner (snd kr) level
          then (acc +! LongShortEvent.inverse_distance_to_the_pin
                         (LongShortPool.winning total_pool_value total_win_value
                            level (snd kr)))%num
          else acc) m ti,
     fold_left
       (fun acc kr =>
          if LongShortEvent.IsWinner (snd kr) level
          then (acc +! LongShortEvent.prima_facie_payout
                         (LongShortPool.winning total_pool_value total_win_value
                            level (snd kr)))%num
          else acc) m tp).
Proof.
  induction m as [| [k r] m IH]; intros ws ti tp; simpl; [reflexivity |].
  destruct (LongShortEvent.IsWinner r level); apply IH.
Qed.

Lemma LongShortPool_reweigh_all_map (total_inverse : T)
    (ws : list (Z * LongShortPool.Risk T)) :
  forall tp : T,
  LongShortPool.reweigh_all total_inverse total_win_value ws tp
  = (map (fun kr => (fst kr,
                     LongShortPool.reweigh total_inverse total_win_value (snd kr)))
       ws,
     fold_left
       (fun acc kr =>
          (acc +! DefaultTX.payout
                    (LongShortEvent.tx
                       (LongShortPool.reweigh total_inverse total_win_value
                          (snd kr))))%num) ws tp).
Proof.
  induction ws as [| [k w] ws IH]; intros tp; simpl; [reflexivity |].
  now rewrite IH.
Qed.

End LongShortLoop.

(** On a well-formed map the two loops of [LongShortPool::MakeWinningRisks]
    leave the reweighed winners and the three totals, each a sum over the
    winners in key order. *)
Lemma LongShortPool_settle_sorted {T : Type} `{Number T}
    (pool : LongShortPool.t T) (level : Z) :
  keys_sorted (Pool.risks pool) ->
  let win_value := Pool.TotalWinningAmount pool level in
  let winners :=
    select (fun r => LongShortEvent.IsWinner r level)
      (LongShortPool.winning
         (Pool.TotalPool pool *! (one -! Pool.fees pool))%num win_value level)
      (Pool.risks pool) in
  let total_inverse := total LongShortEvent.inverse_distance_to_the_pin winners in
  LongShortPool.settle pool level =
  LongShortPool.mk_settlement
    (map (fun kr => (fst kr,
                     LongShortPool.reweigh total_inverse win_value (snd kr)))
       winners)
    total_inverse
    (total LongShortEvent.prima_facie_payout winners)
    (total (fun w => DefaultTX.payout
                       (LongShortEvent.tx
                          (LongShortPool.reweigh total_inverse win_value w)))
       winners).
Proof.
  intros Hs win_value winners total_inverse. unfold LongShortPool.settle.
  rewrite LongShortPool_pick_split.
  rewrite (insert_loop_select (fun r => LongShortEvent.IsWinner r level));
    [| assumption | intros ? ? []].
  rewrite (keep_loop_total (fun r => LongShortEvent.IsWinner r level) _
             LongShortEvent.inverse_distance_to_the_pin).
  rewrite (keep_loop_total (fun r => LongShortEvent.IsWinner r level) _
             LongShortEvent.prima_facie_payout).
  cbn [app]. fold win_value. fold winners.
  change (fold_left
            (fun acc kr =>
               (acc +! LongShortEvent.inverse_distance_to_the_pin (snd kr))%num)
            winners zero) with total_inverse.
  rewrite LongShortPool_reweigh_all_map. reflexivity.
Qed.

(** Whatever the arithmetic, a mapping that [MakeWinningRisks] returns has
    passed the assertions. *)
Lemma MutexPool_returns_balanced {T : Type} `{Number T} (pool : MutexPool.t T)
    (level : string) (winners : list (Z * MutexPool.Risk T)) :
  keys_sorted (Pool.risks pool) ->
  MutexPool.MakeWinningRisks pool level = Returns winners ->
  Close (total (fun r => DefaultTX.payout (MutexEvent.tx r)) winners
         +! Pool.Fees pool)%num (Pool.TotalPool pool) = true.
Proof.
  intros Hs. unfold MutexPool.MakeWinningRisks, MutexPool.balanced.
  rewrite (MutexPool_settle_sorted pool level Hs). cbn [fst snd].
  destruct (Close _ _) eqn:Ec; [| discriminate].
  intros Hr. inversion Hr; subst. exact Ec.
Qed.

Lemma LongShortPool_returns_balanced {T : Type} `{Number T}
    (pool : LongShortPool.t T) (level : Z)
    (winners : list (Z * LongShortPool.Risk T)) :
  keys_sorted (Pool.risks pool) ->
  LongShortPool.MakeWinningRisks pool level = Returns winners ->
  Close (total LongShortEvent.prima_facie_payout winners +! Pool.Fees pool)%num
        (Pool.TotalPool pool) = true /\
  Close (total LongShortEvent.prima_facie_payout winners)
        (total (fun r => DefaultTX.payout (LongShortEvent.tx r)) winners) = true.
Proof.
  intros Hs.
  unfold LongShortPool.MakeWinningRisks, LongShortPool.balanced,
    LongShortPool.redistributed.
  rewrite (LongShortPool_settle_sorted pool level Hs).
  cbn [LongShortPool.total_prima_facie_payout LongShortPool.total_payout
       LongShortPool.winning_risks].
  destruct (Close _ _) eqn:Eb; [| discriminate].
  destruct (Close _ _) eqn:Er in |- *; [| discriminate].
  intros Hr. inversion Hr; subst. clear Hr.
  rewrite !total_map_snd.
  cbn [LongShortPool.reweigh LongShortEvent.prima_facie_payout].
  now split.
Qed.

(** ** No winner at the closing level *)

Lemma fold_left_stay {A S : Type} (f : S -> A -> S) (l : list A) (s : S) :
  Forall (fun a => f s a = s) l -> fold_left f l s = s.
Proof.
  induction 1 as [| a l Ha _ IH]; simpl; [reflexivity |]. now rewrite Ha.
Qed.

Lemma MutexPool_settle_no_winner {T : Type} `{Number T} (pool : MutexPool.t T)
    (level : string) :
  Forall (fun kr => MutexEvent.IsWinner (snd kr) level = false) (Pool.risks pool) ->
  MutexPool.settle pool level = ([], zero).
Proof.
  intros Hno. unfold MutexPool.settle. apply fold_left_stay.
  eapply Forall_impl; [| exact Hno]. intros [k r] Hk. simpl in *.
  now rewrite Hk.
Qed.

Lemma LongShortPool_settle_no_winner {T : Type} `{Number T}
    (pool : LongShortPool.t T) (level : Z) :
  Forall (fun kr => LongShortEvent.IsWinner (snd kr) level = false)
    (Pool.risks pool) ->
  LongShortPool.settle pool level = LongShortPool.mk_settlement [] zero zero zero.
Proof.
  intros Hno. unfold LongShortPool.settle. rewrite fold_left_stay.
  - reflexivity.
  - eapply Forall_impl; [| exact Hno]. intros [k r] Hk. simpl in *.
    now rewrite Hk.
Qed.

(** Where no risk wins, the loops build the empty mapping and all totals
    stay [0.], whatever the arithmetic. *)
Lemma no_winner_settlement {T : Type} `{Number T} :
  (forall (pool : MutexPool.t T) (level : string),
     Forall (fun kr => MutexEvent.IsWinner (snd kr) level = false)
       (Pool.risks pool) ->
     MutexPool.MakeWinningRisks pool level =
       if Close (zero +! Pool.Fees pool)%num (Pool.TotalPool pool)
       then Returns [] else AssertionFailed)
  /\
  (forall (pool : LongShortPool.t T) (level : Z),
     Forall (fun kr => LongShortEvent.IsWinner (snd kr) level = false)
       (Pool.risks pool) ->
     LongShortPool.MakeWinningRisks pool level =
       if Close (zero +! Pool.Fees pool)%num (Pool.TotalPool pool)
       then if Close (zero : T) zero then Returns [] else AssertionFailed
       else AssertionFailed).
Proof.
  split; intros pool level Hno.
  - unfold MutexPool.MakeWinningRisks, MutexPool.balanced.
    now rewrite MutexPool_settle_no_winner by exact Hno.
  - unfold LongShortPool.MakeWinningRisks, LongShortPool.balanced,
      LongShortPool.redistributed.
    now rewrite LongShortPool_settle_no_winner by exact Hno.
Qed.

(** *** Division by a zero winning amount, in binary64 *)

Ltac binary64_arith :=
  cbn [zero one add sub mul div fabs ltb cent Binary64] in *.

Lemma nonfinite_add_l (x y : float) :
  nonfinite x -> nonfinite (PrimFloat.add x y).
Proof.
  unfold nonfinite. rewrite add_spec.
  destruct (Prim2SF x) as [sx | sx | | sx mx ex];
    destruct (Prim2SF y) as [sy | sy | | sy my ey]; simpl; try tauto;
    destruct sx, sy; tauto.
Qed.

Lemma nonfinite_add_r (x y : float) :
  nonfinite y -> nonfinite (PrimFloat.add x y).
Proof.
  unfold nonfinite. rewrite add_spec.
  destruct (Prim2SF x) as [sx | sx | | sx mx ex];
    destruct (Prim2SF y) as [sy | sy | | sy my ey]; simpl; try tauto;
    destruct sx, sy; tauto.
Qed.

Lemma nonfinite_sub_l (x y : float) :
  nonfinite x -> nonfinite (PrimFloat.sub x y).
Proof.
  unfold nonfinite. rewrite sub_spec.
  destruct (Prim2SF x) as [sx | sx | | sx mx ex];
    destruct (Prim2SF y) as [sy | sy | | sy my ey]; simpl; try tauto;
    destruct sx, sy; tauto.
Qed.

Lemma nonfinite_mul_r (x y : float) :
  nonfinite y -> nonfinite (PrimFloat.mul x y).
Proof.
  unfold nonfinite. rewrite mul_spec.
  destruct (Prim2SF x) as [sx | sx | | sx mx ex];
    destruct (Prim2SF y) as [sy | sy | | sy my ey]; simpl; tauto.
Qed.

(** [x == 0.] holds of the two zeros only. *)
Lemma eqb_zero (x : float) :
  PrimFloat.eqb x 0%float = true -> exists s, Prim2SF x = S754_zero s.
Proof.
  rewrite eqb_spec. change (Prim2SF 0%float) with (S754_zero false).
  destruct (Prim2SF x) as [sx | sx | | sx mx ex]; simpl;
    try discriminate; try (destruct sx; discriminate).
  intros _. now exists sx.
Qed.

Lemma nonfinite_div_zero (x y : float) :
  PrimFloat.eqb y 0%float = true -> nonfinite (PrimFloat.div x y).
Proof.
  intros Hy. apply eqb_zero in Hy. destruct Hy as [sy Ey].
  unfold nonfinite. rewrite div_spec, Ey.
  destruct (Prim2SF x) as [sx | sx | | sx mx ex]; simpl; tauto.
Qed.

(** Nothing that is NaN or infinite is within 0.01 of anything. *)
Lemma Close_nonfinite (x y : float) : nonfinite x -> Close x y = false.
Proof.
  intros Hx. apply (@nonfinite_sub_l x y) in Hx. revert Hx.
  unfold Close, nonfinite. binary64_arith.
  rewrite ltb_spec, abs_spec.
  destruct (Prim2SF (PrimFloat.sub x y)) as [s | s | | s m e]; simpl;
    try tauto; intros _; reflexivity.
Qed.

(** Once a winner's term is NaN or infinite, so is the total. *)
Lemma nonfinite_winner_total {V : Type} (keep : V -> bool) (f : V -> float)
    (m : list (Z * V)) :
  (forall r, keep r = true -> nonfinite (f r)) ->
  forall acc : float,
  nonfinite acc \/ existsb (fun kr => keep (snd kr)) m = true ->
  nonfinite
    (fold_left
       (fun acc kr => if keep (snd kr) then PrimFloat.add acc (f (snd kr))
                      else acc) m acc).
Proof.
  intros Hf. induction m as [| [k r] m IH]; intros acc Hacc; simpl in *.
  - destruct Hacc as [Hacc | Hex]; [exact Hacc | discriminate].
  - apply IH. destruct (keep r) eqn:Ek.
    + left. destruct Hacc as [Hacc | _].
      * now apply nonfinite_add_l.
      * apply nonfinite_add_r. now apply Hf.
    + exact Hacc.
Qed.

Lemma existsb_false_Forall {A : Type} (p : A -> bool) (l : list A) :
  existsb p l = false -> Forall (fun x => p x = false) l.
Proof.
  induction l as [| x l IH]; simpl; intros Hex; constructor.
  - now destruct (p x).
  - apply IH. now destruct (p x).
Qed.

(** C3 (as amended).  In the source's arithmetic, at a closing level where
    the total winning amount is zero neither settlement reports a
    [NoWinningStake] failure, and neither returns NaN or infinite payoffs
    or payouts.  If a risk wins there (its amount is 0., or amounts cancel),
    the division by zero makes the totals NaN or infinite and the call
    stops on its conservation assertion; if none wins, the call returns
    the empty mapping when [Fees()] is within 0.01 of [TotalPool()] and
    stops on the assertion otherwise. *)
Theorem zero_winning_amount_settlement :
  (forall (pool : MutexPool.t float) (level : string),
     PrimFloat.eqb (Pool.TotalWinningAmount pool level) 0%float = true ->
     MutexPool.MakeWinningRisks pool level =
       if existsb (fun kr => MutexEvent.IsWinner (snd kr) level)
            (Pool.risks pool)
       then AssertionFailed
       else if Close (zero +! Pool.Fees pool)%num (Pool.TotalPool pool)
            then Returns [] else AssertionFailed)
  /\
  (forall (pool : LongShortPool.t float) (level : Z),
     PrimFloat.eqb (Pool.TotalWinningAmount pool level) 0%float = true ->
     LongShortPool.MakeWinningRisks pool level =
       if existsb (fun kr => LongShortEvent.IsWinner (snd kr) level)
            (Pool.risks pool)
       then AssertionFailed
       else if Close (zero +! Pool.Fees pool)%num (Pool.TotalPool pool)
            then Returns [] else AssertionFailed).
Proof.
  split; intros pool level HW.
  - destruct (existsb _ _) eqn:Ex.
    + unfold MutexPool.MakeWinningRisks, MutexPool.balanced, MutexPool.settle.
      rewrite MutexPool_pick_split. cbn [snd].
      rewrite Close_nonfinite; [reflexivity |].
      apply nonfinite_add_l.
      apply (nonfinite_winner_total
               (fun r => MutexEvent.IsWinner r level)
               (fun r => DefaultTX.payout
                           (MutexEvent.tx
                              (MutexPool.winning
                                 (Pool.TotalPool pool
                                  *! (one -! Pool.fees pool))%num
                                 (Pool.TotalWinningAmount pool level) r))));
        [| now right].
      intros r _. apply nonfinite_mul_r, nonfinite_div_zero, HW.
    + apply existsb_false_Forall in Ex.
      exact (proj1 no_winner_settlement pool level Ex).
  - destruct (existsb _ _) eqn:Ex.
    + unfold LongShortPool.MakeWinningRisks, LongShortPool.balanced,
        LongShortPool.settle.
      rewrite LongShortPool_pick_split.
      destruct (LongShortPool.reweigh_all _ _ _ _) as [winners' total'].
      cbn [LongShortPool.total_prima_facie_payout].
      rewrite Close_nonfinite; [reflexivity |].
      apply nonfinite_add_l.
      apply (nonfinite_winner_total
               (fun r => LongShortEvent.IsWinner r level)
               (fun r => LongShortEvent.prima_facie_payout
                           (LongShortPool.winning
                              (Pool.TotalPool pool
                               *! (one -! Pool.fees pool))%num
                              (Pool.TotalWinningAmount pool level) level r)));
        [| now right].
      intros r _. apply nonfinite_mul_r, nonfinite_div_zero, HW.
    + apply existsb_false_Forall in Ex.
      exact (proj2 no_winner_settlement pool level Ex).
Qed.

Lemma zero_winning_amount_settlement_witness :
  (PrimFloat.eqb (Pool.TotalWinningAmount zero_stake_mutex_pool "default")
     0%float = true /\
   MutexPool.MakeWinningRisks zero_stake_mutex_pool "default" = AssertionFailed)
  /\
  (PrimFloat.eqb (Pool.TotalWinningAmount zero_stake_ls_pool 56) 0%float = true /\
   LongShortPool.MakeWinningRisks zero_stake_ls_pool 56 = AssertionFailed).
Proof.
  destruct zero_winning_amount_settlement as [Hm Hl].
  assert (H1 : PrimFloat.eqb
                 (Pool.TotalWinningAmount zero_stake_mutex_pool "default")
                 0%float = true) by (vm_compute; reflexivity).
  assert (H2 : PrimFloat.eqb (Pool.TotalWinningAmount zero_stake_ls_pool 56)
                 0%float = true) by (vm_compute; reflexivity).
  split; (split; [assumption |]).
  - etransitivity;
      [exact (Hm zero_stake_mutex_pool "default" H1) | reflexivity].
  - etransitivity; [exact (Hl zero_stake_ls_pool 56 H2) | reflexivity].
Defined.

(** C3, the claim as stated fails.  A pool whose only stake, of 2^-7
    units, is on "default" has no winning amount at "no_default"; the
    settlement does not fail, it returns the empty mapping.  And where a
    stake of amount 0 wins, the winning amount is zero and the winner the
    settlement builds has an infinite payoff and a NaN payout; the call
    stops on its conservation assertion. *)
Lemma no_winning_stake_not_reported :
  (Pool.TotalWinningAmount tiny_mutex_pool "no_default" = 0%float /\
   MutexPool.MakeWinningRisks tiny_mutex_pool "no_default" = Returns [])
  /\
  (Pool.TotalWinningAmount zero_stake_mutex_pool "default" = 0%float /\
   MutexPool.MakeWinningRisks zero_stake_mutex_pool "default" = AssertionFailed /\
   let w := snd (nth_mutex_winner 0 zero_stake_mutex_pool "default") in
   PrimFloat.is_infinity (PoolEvent.payoff (MutexEvent.base w)) = true /\
   PrimFloat.is_nan (DefaultTX.payout (MutexEvent.tx w)) = true /\
   finite (PoolEvent.payoff (MutexEvent.base w)) = false /\
   finite (DefaultTX.payout (MutexEvent.tx w)) = false).
Proof. vm_compute. repeat split. Qed.

(** ** Exact arithmetic *)

Ltac exact_arith :=
  cbn [zero one add sub mul div of_int Exact] in *.

Lemma Close_exact_refl (a b : Qc) : a = b -> Close a b = true.
Proof.
  intros ->. unfold Close. exact_arith.
  replace (b - b)%Qc with 0%Qc by ring. reflexivity.
Qed.

Lemma Qcmult_nonneg (x y : Qc) : (0 <= x -> 0 <= y -> 0 <= x * y)%Qc.
Proof.
  intros Hx Hy. replace 0%Qc with (0 * y)%Qc by ring.
  now apply Qcmult_le_compat_r.
Qed.

Lemma Qc_pos_neq0 (x : Qc) : (0 < x)%Qc -> x <> 0%Qc.
Proof. intros Hx ->. now apply (Qclt_not_eq _ _ Hx). Qed.

Lemma Qcinv_pos (x : Qc) : (0 < x -> 0 < / x)%Qc.
Proof.
  intros Hx. change (0 < Qred (/ x))%Q. rewrite Qred_correct.
  now apply Qinv_lt_0_compat.
Qed.

Lemma Qcinv_nonneg (x : Qc) : (0 <= x -> 0 <= / x)%Qc.
Proof.
  intros Hx. change (0 <= Qred (/ x))%Q. rewrite Qred_correct.
  now apply Qinv_le_0_compat.
Qed.

Lemma Qcinv_le_contravar (x y : Qc) : (0 < x -> x <= y -> / y <= / x)%Qc.
Proof.
  intros Hx Hxy.
  assert (Hy : (0 < y)%Qc) by (eapply Qclt_le_trans; eassumption).
  assert (Hx0 : x <> 0%Qc) by (intros ->; now apply (Qclt_not_eq _ _ Hx)).
  assert (Hy0 : y <> 0%Qc) by (intros ->; now apply (Qclt_not_eq _ _ Hy)).
  replace (/ y)%Qc with (x * (/ x * / y))%Qc by (field; now split).
  replace (/ x)%Qc with (y * (/ x * / y))%Qc at 2 by (field; now split).
  apply Qcmult_le_compat_r; [assumption |].
  apply Qcmult_nonneg; apply Qcinv_nonneg; now apply Qclt_le_weak.
Qed.

Lemma Qc_of_int_pos (z : Z) : 0 < z -> (0 < Q2Qc (inject_Z z))%Qc.
Proof.
  intros Hz. change (0 < Qred (inject_Z z))%Q. rewrite Qred_correct.
  unfold Qlt. simpl. lia.
Qed.

Lemma Qc_of_int_le (a b : Z) :
  a <= b -> (Q2Qc (inject_Z a) <= Q2Qc (inject_Z b))%Qc.
Proof.
  intros Hab. change (Qred (inject_Z a) <= Qred (inject_Z b))%Q.
  rewrite !Qred_correct. unfold Qle. simpl. lia.
Qed.

Section Sums.
Context {A : Type}.

Lemma fold_left_qsum (f : A -> Qc) (l : list A) :
  forall a : Qc,
  fold_left (fun acc x => (acc + f x)%Qc) l a = (a + qsum f l)%Qc.
Proof.
  induction l as [| x l IH]; intros a; simpl.
  - ring.
  - rewrite IH. ring.
Qed.

Lemma qsum_ext (f g : A -> Qc) (l : list A) :
  (forall x, In x l -> f x = g x) -> qsum f l = qsum g l.
Proof.
  induction l as [| x l IH]; intros Hfg; simpl; [reflexivity |].
  rewrite (Hfg x), IH; [reflexivity | | now left].
  intros y Hy. apply Hfg. now right.
Qed.

Lemma qsum_scale (f : A -> Qc) (c : Qc) (l : list A) :
  qsum (fun x => (f x * c)%Qc) l = (qsum f l * c)%Qc.
Proof.
  induction l as [| x l IH]; simpl; [ring |]. rewrite IH. ring.
Qed.

Lemma qsum_filter (f : A -> Qc) (p : A -> bool) (l : list A) :
  qsum f (filter p l) = qsum (fun x => if p x then f x else 0%Qc) l.
Proof.
  induction l as [| x l IH]; simpl; [reflexivity |].
  destruct (p x); simpl; rewrite IH; ring.
Qed.

Lemma qsum_map {B : Type} (g : A -> B) (f : B -> Qc) (l : list A) :
  qsum f (map g l) = qsum (fun x => f (g x)) l.
Proof.
  induction l as [| x l IH]; simpl; [reflexivity |]. now rewrite IH.
Qed.

Lemma qsum_nonneg (f : A -> Qc) (l : list A) :
  (forall x, In x l -> (0 <= f x)%Qc) -> (0 <= qsum f l)%Qc.
Proof.
  induction l as [| x l IH]; intros Hf; simpl.
  - apply Qcle_refl.
  - replace 0%Qc with (0 + 0)%Qc by ring.
    apply Qcplus_le_compat; [apply Hf; now left |].
    apply IH. intros y Hy. apply Hf. now right.
Qed.

Lemma qsum_pos (f : A -> Qc) (l : list A) :
  l <> [] -> (forall x, In x l -> (0 < f x)%Qc) -> (0 < qsum f l)%Qc.
Proof.
  intros Hne Hf. destruct l as [| x l]; [contradiction |]. simpl.
  apply Qclt_le_trans with (f x + 0)%Qc.
  - rewrite Qcplus_0_r. apply Hf. now left.
  - apply Qcplus_le_compat; [apply Qcle_refl |].
    apply qsum_nonneg. intros y Hy. apply Qclt_le_weak, Hf. now right.
Qed.

End Sums.

Lemma total_qsum {V : Type} (f : V -> Qc) (m : list (Z * V)) :
  total f m = qsum (fun kr => f (snd kr)) m.
Proof.
  unfold total. exact_arith.
  rewrite (fold_left_qsum (fun kr => f (snd kr))). ring.
Qed.

Lemma qsum_select {V W : Type} (keep : V -> bool) (conv : V -> W)
    (f : W -> Qc) (m : list (Z * V)) :
  qsum (fun kw => f (snd kw)) (select keep conv m) =
  qsum (fun kr => if keep (snd kr) then f (conv (snd kr)) else 0%Qc) m.
Proof.
  unfold select. rewrite qsum_map. cbn [snd].
  now rewrite (qsum_filter (fun kr => f (conv (snd kr)))).
Qed.

(** *** The totals of a pool, in exact arithmetic *)

Section ExactPool.
Context {E L : Type} `{EventOps Qc E L}.

(** Both events pay their amount to a winner and nothing otherwise. *)
Hypothesis winning_amount : forall (r : E) (l : L),
  WinningAmount r l = if IsWinner r l then DefaultTX.amount (ev_tx r) else 0%Qc.

Variables (pool : Pool.t Qc E) (level : L).

Lemma TotalPool_qsum :
  Pool.TotalPool pool =
  qsum (fun kr => DefaultTX.amount (ev_tx (snd kr))) (Pool.risks pool).
Proof. exact (total_qsum (fun r => DefaultTX.amount (ev_tx r)) (Pool.risks pool)). Qed.

Lemma TotalWinningAmount_qsum :
  Pool.TotalWinningAmount pool level =
  qsum (fun kr => if IsWinner (snd kr) level
                  then DefaultTX.amount (ev_tx (snd kr)) else 0%Qc)
    (Pool.risks pool).
Proof.
  etransitivity;
    [exact (total_qsum (fun r => WinningAmount r level) (Pool.risks pool)) |].
  apply qsum_ext. intros kr _. apply winning_amount.
Qed.

(** The amounts of the winners, each times [c], add up to the winning total
    times [c]. *)
Lemma scaled_winner_sum (c : Qc) :
  qsum (fun kr => if IsWinner (snd kr) level
                  then (DefaultTX.amount (ev_tx (snd kr)) * c)%Qc else 0%Qc)
    (Pool.risks pool)
  = (Pool.TotalWinningAmount pool level * c)%Qc.
Proof.
  rewrite TotalWinningAmount_qsum, <- qsum_scale.
  apply qsum_ext. intros kr _. destruct (IsWinner (snd kr) level); ring.
Qed.

Lemma TotalPool_nonneg :
  Forall (fun kr => (0 <= DefaultTX.amount (ev_tx (snd kr)))%Qc) (Pool.risks pool) ->
  (0 <= Pool.TotalPool pool)%Qc.
Proof.
  intros Ha. rewrite TotalPool_qsum. apply qsum_nonneg.
  now apply Forall_forall.
Qed.

Lemma TotalWinningAmount_nonneg :
  Forall (fun kr => (0 <= DefaultTX.amount (ev_tx (snd kr)))%Qc) (Pool.risks pool) ->
  (0 <= Pool.TotalWinningAmount pool level)%Qc.
Proof.
  intros Ha. rewrite TotalWinningAmount_qsum. apply qsum_nonneg.
  intros kr Hin. destruct (IsWinner (snd kr) level); [| apply Qcle_refl].
  rewrite Forall_forall in Ha. now apply Ha.
Qed.

Lemma TotalWinningAmount_pos :
  Forall (fun kr => (0 < DefaultTX.amount (ev_tx (snd kr)))%Qc) (Pool.risks pool) ->
  Exists (fun kr => IsWinner (snd kr) level = true) (Pool.risks pool) ->
  (0 < Pool.TotalWinningAmount pool level)%Qc.
Proof.
  intros Ha Hw. rewrite TotalWinningAmount_qsum.
  rewrite <- (qsum_filter (fun kr => DefaultTX.amount (ev_tx (snd kr)))
                (fun kr => IsWinner (snd kr) level)).
  apply qsum_pos.
  - apply Exists_exists in Hw. destruct Hw as [kr [Hin Hk]].
    intros Hnil.
    assert (Hf : In kr (filter (fun kr => IsWinner (snd kr) level)
                          (Pool.risks pool)))
      by (apply filter_In; now split).
    rewrite Hnil in Hf. exact Hf.
  - intros kr Hin. apply filter_In in Hin. destruct Hin as [Hin _].
    rewrite Forall_forall in Ha. now apply Ha.
Qed.

Lemma TotalWinningAmount_winner :
  Pool.TotalWinningAmount pool level <> 0%Qc ->
  Exists (fun kr => IsWinner (snd kr) level = true) (Pool.risks pool).
Proof.
  intros HW. rewrite TotalWinningAmount_qsum in HW.
  destruct (Exists_dec (fun kr : Z * E => IsWinner (snd kr) level = true)
              (Pool.risks pool)) as [Hy | Hn].
  - intros kr. destruct (IsWinner (snd kr) level); [now left | now right].
  - exact Hy.
  - exfalso. apply HW.
    rewrite (qsum_ext _ (fun _ => 0%Qc)).
    + clear. induction (Pool.risks pool) as [| x l IH]; simpl;
        [reflexivity |]. rewrite IH. ring.
    + intros kr Hin. destruct (IsWinner (snd kr) level) eqn:Ek;
        [| reflexivity].
      exfalso. apply Hn. apply Exists_exists. now exists kr.
Qed.

(** What is paid out and the fees make up the pool. *)
Lemma pool_value_and_fees :
  (Pool.TotalPool pool *! (one -! Pool.fees pool) +! Pool.Fees pool)%num
  = Pool.TotalPool pool.
Proof. unfold Pool.Fees. exact_arith. ring. Qed.

End ExactPool.

Lemma MutexEvent_winning_amount {T : Type} `{Number T} (r : MutexEvent.t T)
    (l : string) :
  WinningAmount r l = if IsWinner r l then DefaultTX.amount (ev_tx r) else zero.
Proof.
  cbn [WinningAmount IsWinner ev_tx MutexEvent.ops].
  unfold MutexEvent.WinningAmount, MutexEvent.IsWinner.
  now rewrite String.eqb_sym.
Qed.

Lemma LongShortEvent_winning_amount {T : Type} `{Number T}
    (r : LongShortEvent.t T) (l : Z) :
  WinningAmount r l = if IsWinner r l then DefaultTX.amount (ev_tx r) else zero.
Proof.
  cbn [WinningAmount IsWinner ev_tx LongShortEvent.ops].
  unfold LongShortEvent.WinningAmount, LongShortEvent.IsWinner.
  destruct (Side_eqb (LongShortEvent.side r) Long && (l >? LongShortEvent.price r));
    [reflexivity |].
  now destruct (Side_eqb (LongShortEvent.side r) Short
                && (l <? LongShortEvent.price r)).
Qed.

(** *** The category settlement, in exact arithmetic *)

Section ExactMutex.
Variables (pool : MutexPool.t Qc) (level : string).
Hypothesis sorted : keys_sorted (Pool.risks pool).
Hypothesis win_value : Pool.TotalWinningAmount pool level <> 0%Qc.

Let pool_value : Qc := (Pool.TotalPool pool *! (one -! Pool.fees pool))%num.

Let winners : list (Z * MutexPool.Risk Qc) :=
  select (fun r => MutexEvent.IsWinner r level)
    (MutexPool.winning pool_value (Pool.TotalWinningAmount pool level))
    (Pool.risks pool).

Lemma MutexPool_exact_total_payout :
  total (fun r => DefaultTX.payout (MutexEvent.tx r)) winners = pool_value.
Proof.
  rewrite total_qsum. unfold winners.
  rewrite (qsum_select _ _ (fun r => DefaultTX.payout (MutexEvent.tx r))).
  etransitivity;
    [| etransitivity;
       [exact (scaled_winner_sum (@MutexEvent_winning_amount Qc Exact) pool level
                 (pool_value / Pool.TotalWinningAmount pool level)%Qc) |]].
  - apply qsum_ext. intros kr _. reflexivity.
  - field. exact win_value.
Qed.

Lemma MutexPool_exact_winnings_share :
  total (fun r => PoolEvent.winnings_share (MutexEvent.base r)) winners = 1%Qc.
Proof.
  rewrite total_qsum. unfold winners.
  rewrite (qsum_select _ _
             (fun r => PoolEvent.winnings_share (MutexEvent.base r))).
  etransitivity;
    [| etransitivity;
       [exact (scaled_winner_sum (@MutexEvent_winning_amount Qc Exact) pool level
                 (/ Pool.TotalWinningAmount pool level)%Qc) |]].
  - apply qsum_ext. intros kr _. reflexivity.
  - field. exact win_value.
Qed.

Lemma MutexPool_exact_returns :
  MutexPool.MakeWinningRisks pool level = Returns winners.
Proof.
  unfold MutexPool.MakeWinningRisks, MutexPool.balanced.
  rewrite (MutexPool_settle_sorted pool level sorted). cbn [fst snd].
  fold pool_value. fold winners.
  rewrite MutexPool_exact_total_payout, Close_exact_refl; [reflexivity |].
  apply pool_value_and_fees.
Qed.

End ExactMutex.

(** *** The directional settlement, in exact arithmetic *)

(** A winner's inverse distance is the inverse of its distance, as long as
    the distance fits an [int]. *)
Lemma WinningInverseDistance_exact (r : LongShortEvent.t Qc) (level : Z) :
  LongShortEvent.IsWinner r level = true ->
  distance level r <= INT_MAX ->
  0 < distance level r /\
  LongShortEvent.WinningInverseDistance r level =
    (/ Q2Qc (inject_Z (distance level r)))%Qc.
Proof.
  unfold LongShortEvent.IsWinner, LongShortEvent.WinningInverseDistance,
    distance, INT_MAX.
  intros Hw Hd.
  destruct (Side_eqb (LongShortEvent.side r) Long
            && (level >? LongShortEvent.price r)) eqn:El.
  - apply andb_prop in El. destruct El as [_ Hgt].
    apply Z.gtb_lt in Hgt.
    rewrite Z.abs_eq in * by lia. split; [lia |].
    rewrite wrap_int_id by (unfold in_int, INT_MIN, INT_MAX; lia).
    exact_arith. field.
    apply Qc_pos_neq0, Qc_of_int_pos. lia.
  - destruct (Side_eqb (LongShortEvent.side r) Short
              && (level <? LongShortEvent.price r)) eqn:Es; [| discriminate].
    apply andb_prop in Es. destruct Es as [_ Hlt].
    apply Z.ltb_lt in Hlt.
    rewrite Z.abs_neq in * by lia. split; [lia |].
    replace (- (level - LongShortEvent.price r))
      with (LongShortEvent.price r - level) by lia.
    rewrite wrap_int_id by (unfold in_int, INT_MIN, INT_MAX; lia).
    exact_arith. field.
    apply Qc_pos_neq0, Qc_of_int_pos. lia.
Qed.

Section ExactLongShort.
Variables (pool : LongShortPool.t Qc) (level : Z).
Hypothesis sorted : keys_sorted (Pool.risks pool).
Hypothesis fit : distances_fit pool level.
Hypothesis a_winner :
  Exists (fun kr => LongShortEvent.IsWinner (snd kr) level = true)
    (Pool.risks pool).

Let pool_value : Qc := (Pool.TotalPool pool *! (one -! Pool.fees pool))%num.
Let win_value : Qc := Pool.TotalWinningAmount pool level.

Let winners : list (Z * LongShortPool.Risk Qc) :=
  select (fun r => LongShortEvent.IsWinner r level)
    (LongShortPool.winning pool_value win_value level) (Pool.risks pool).

Let total_inverse : Qc :=
  total LongShortEvent.inverse_distance_to_the_pin winners.

Let settled : list (Z * LongShortPool.Risk Qc) :=
  map (fun kr => (fst kr, LongShortPool.reweigh total_inverse win_value (snd kr)))
    winners.

Lemma LongShortPool_exact_settle :
  LongShortPool.settle pool level =
  LongShortPool.mk_settlement settled total_inverse
    (total LongShortEvent.prima_facie_payout winners)
    (total (fun w => DefaultTX.payout
                       (LongShortEvent.tx
                          (LongShortPool.reweigh total_inverse win_value w)))
       winners).
Proof. exact (LongShortPool_settle_sorted pool level sorted). Qed.

Lemma LongShortPool_total_inverse_qsum :
  total_inverse =
  qsum (fun kr => if LongShortEvent.IsWinner (snd kr) level
                  then LongShortEvent.WinningInverseDistance (snd kr) level
                  else 0%Qc) (Pool.risks pool).
Proof.
  unfold total_inverse, winners. rewrite total_qsum.
  exact (qsum_select _ _ LongShortEvent.inverse_distance_to_the_pin _).
Qed.

Lemma LongShortPool_total_inverse_pos : (0 < total_inverse)%Qc.
Proof.
  rewrite LongShortPool_total_inverse_qsum.
  rewrite <- (qsum_filter
                (fun kr => LongShortEvent.WinningInverseDistance (snd kr) level)
                (fun kr => LongShortEvent.IsWinner (snd kr) level)).
  apply qsum_pos.
  - apply Exists_exists in a_winner. destruct a_winner as [kr [Hin Hk]].
    intros Hnil.
    assert (Hf : In kr (filter (fun kr => LongShortEvent.IsWinner (snd kr) level)
                          (Pool.risks pool)))
      by (apply filter_In; now split).
    rewrite Hnil in Hf. exact Hf.
  - intros kr Hin. apply filter_In in Hin. destruct Hin as [Hin Hk].
    unfold distances_fit in fit. rewrite Forall_forall in fit.
    destruct (@WinningInverseDistance_exact (snd kr) level Hk (fit _ Hin))
      as [Hd ->].
    apply Qcinv_pos, Qc_of_int_pos, Hd.
Qed.

Lemma LongShortPool_exact_normalised :
  total LongShortEvent.inverse_distance_to_pin_normalised settled = 1%Qc.
Proof.
  pose proof (Qc_pos_neq0 LongShortPool_total_inverse_pos) as Hpos.
  unfold settled. rewrite total_map_snd, total_qsum.
  rewrite (qsum_ext _
             (fun kr => (LongShortEvent.inverse_distance_to_the_pin (snd kr)
                         * / total_inverse)%Qc))
    by (intros; reflexivity).
  rewrite qsum_scale,
    <- (total_qsum LongShortEvent.inverse_distance_to_the_pin).
  fold total_inverse. field. exact Hpos.
Qed.

Lemma LongShortPool_exact_prima_facie :
  win_value <> 0%Qc ->
  total LongShortEvent.prima_facie_payout winners = pool_value.
Proof.
  intros HW. rewrite total_qsum. unfold winners.
  rewrite (qsum_select _ _ LongShortEvent.prima_facie_payout).
  etransitivity;
    [| etransitivity;
       [exact (scaled_winner_sum (@LongShortEvent_winning_amount Qc Exact)
                 pool level (pool_value / win_value)%Qc) |]].
  - apply qsum_ext. intros kr _. reflexivity.
  - fold win_value. field. exact HW.
Qed.

Lemma LongShortPool_exact_winnings_share :
  win_value <> 0%Qc ->
  total (fun r => PoolEvent.winnings_share (LongShortEvent.base r)) settled = 1%Qc.
Proof.
  intros HW. unfold settled. rewrite total_map_snd, total_qsum.
  cbn [LongShortPool.reweigh LongShortEvent.base PoolEvent.winnings_share].
  unfold winners.
  rewrite (qsum_select _ _
             (fun r => PoolEvent.winnings_share (LongShortEvent.base r))).
  etransitivity;
    [| etransitivity;
       [exact (scaled_winner_sum (@LongShortEvent_winning_amount Qc Exact)
                 pool level (/ win_value)%Qc) |]].
  - apply qsum_ext. intros kr _. reflexivity.
  - fold win_value. field. exact HW.
Qed.

(** The payout of a reweighed winner. *)
Lemma LongShortPool_reweigh_payout (r : LongShortEvent.t Qc) :
  DefaultTX.payout
    (LongShortEvent.tx
       (LongShortPool.reweigh total_inverse win_value
          (LongShortPool.winning pool_value win_value level r)))
  = (LongShortEvent.WinningInverseDistance r level
     * (/ total_inverse * win_value * (pool_value / win_value)))%Qc.
Proof.
  cbn [LongShortPool.reweigh LongShortPool.winning LongShortEvent.tx
       DefaultTX.payout LongShortEvent.inverse_distance_to_the_pin
       LongShortEvent.prima_facie_payoff].
  exact_arith. unfold Qcdiv. ring.
Qed.

Lemma LongShortPool_exact_total_payout :
  win_value <> 0%Qc ->
  total (fun r => DefaultTX.payout (LongShortEvent.tx r)) settled = pool_value.
Proof.
  intros HW.
  pose proof (Qc_pos_neq0 LongShortPool_total_inverse_pos) as Hpos.
  unfold settled. rewrite total_map_snd, total_qsum. unfold winners.
  rewrite (qsum_select _ _
             (fun w => DefaultTX.payout
                         (LongShortEvent.tx
                            (LongShortPool.reweigh total_inverse win_value w)))).
  rewrite (qsum_ext _
             (fun kr =>
                ((if LongShortEvent.IsWinner (snd kr) level
                  then LongShortEvent.WinningInverseDistance (snd kr) level
                  else 0)
                 * (/ total_inverse * win_value * (pool_value / win_value)))%Qc)).
  - rewrite qsum_scale, <- LongShortPool_total_inverse_qsum.
    field. split; [exact HW | exact Hpos].
  - intros kr _. destruct (LongShortEvent.IsWinner (snd kr) level);
      [apply LongShortPool_reweigh_payout | ring].
Qed.

Lemma LongShortPool_exact_returns :
  win_value <> 0%Qc ->
  LongShortPool.MakeWinningRisks pool level = Returns settled.
Proof.
  intros HW.
  unfold LongShortPool.MakeWinningRisks, LongShortPool.balanced,
    LongShortPool.redistributed.
  rewrite LongShortPool_exact_settle.
  cbn [LongShortPool.total_prima_facie_payout LongShortPool.total_payout
       LongShortPool.winning_risks].
  rewrite (LongShortPool_exact_prima_facie HW).
  rewrite Close_exact_refl by apply pool_value_and_fees.
  rewrite Close_exact_refl; [reflexivity |].
  symmetry. rewrite <- (LongShortPool_exact_total_payout HW).
  unfold settled. now rewrite total_map_snd.
Qed.

End ExactLongShort.

(** *** The pools of [main], in exact arithmetic *)

Lemma Qc_neq_this (x y : Qc) : this x <> this y -> x <> y.
Proof. intros Hxy ->. now apply Hxy. Qed.

Lemma Qcltb_lt (x y : Qc) : Qcltb x y = true -> (x < y)%Qc.
Proof.
  unfold Qcltb. intros Hlt. apply Qclt_alt.
  now destruct (x ?= y)%Qc.
Qed.

Lemma main_mutex_pool_sorted {T : Type} `{Number T} :
  keys_sorted (Pool.risks (main_mutex_pool (T := T))).
Proof. unfold keys_sorted. vm_compute. repeat constructor. Qed.

Lemma main_ls_pool_sorted {T : Type} `{Number T} :
  keys_sorted (Pool.risks (main_ls_pool (T := T))).
Proof. unfold keys_sorted. vm_compute. repeat constructor. Qed.

Lemma main_mutex_pool_default_wins :
  Pool.TotalWinningAmount (main_mutex_pool (T := Qc)) "default"%string <> 0%Qc.
Proof. apply Qc_neq_this. vm_compute. discriminate. Qed.

Lemma main_ls_pool_56_wins :
  Pool.TotalWinningAmount (main_ls_pool (T := Qc)) 56 <> 0%Qc.
Proof. apply Qc_neq_this. vm_compute. discriminate. Qed.

Lemma main_ls_pool_56_fits {T : Type} `{Number T} :
  distances_fit (main_ls_pool (T := T)) 56.
Proof.
  apply (Forall_forallb _ (fun kr => distance 56 (snd kr) <=? INT_MAX)).
  - intros kr. apply Z.leb_le.
  - vm_compute. reflexivity.
Qed.

Lemma main_ls_pool_56_winner {T : Type} `{Number T} :
  Exists (fun kr => LongShortEvent.IsWinner (snd kr) 56 = true)
    (Pool.risks (main_ls_pool (T := T))).
Proof.
  apply (Exists_existsb _ (fun kr => LongShortEvent.IsWinner (snd kr) 56)).
  - trivial.
  - vm_compute. reflexivity.
Qed.

(** ** Conservation *)

(** The scenarios of [main] settle, and the category one pays 2910 and
    14550 at the payoff 5.82 (as a double). *)
Example main_mutex_settles :
  match MutexPool.MakeWinningRisks (main_mutex_pool (T := float)) "default" with
  | Returns [(0, w0); (1, w1)] =>
      DefaultTX.payout (MutexEvent.tx w0) = 2910%float /\
      DefaultTX.payout (MutexEvent.tx w1) = 14550%float /\
      PoolEvent.payoff (MutexEvent.base w0)
        = PrimFloat.div 17460%float 3000%float
  | _ => False
  end.
Proof. vm_compute. repeat split. Qed.

Example main_ls_settles :
  match LongShortPool.MakeWinningRisks (main_ls_pool (T := float)) 56 with
  | Returns [(0, w0); (1, w1); (3, w3)] =>
      PrimFloat.ltb (PoolEvent.payoff (LongShortEvent.base w0))
                    (PoolEvent.payoff (LongShortEvent.base w1)) = true /\
      PrimFloat.ltb (PoolEvent.payoff (LongShortEvent.base w3))
                    (PoolEvent.payoff (LongShortEvent.base w1)) = true
  | _ => False
  end.
Proof. vm_compute. repeat split. Qed.

(** X26.  Whatever the arithmetic, a mapping the category settlement
    returns has passed its assertion: the payouts of its winners plus
    [Fees()] are within 0.01 of [TotalPool()].  In exact arithmetic, for
    every pool and every closing category whose total winning amount is
    not zero, the settlement does return, and the payouts plus [Fees()]
    are exactly [TotalPool()]. *)
Theorem MutexPool_conservation :
  (forall (T : Type) (N : Number T) (pool : MutexPool.t T) (level : string)
          (winners : list (Z * MutexPool.Risk T)),
     keys_sorted (Pool.risks pool) ->
     MutexPool.MakeWinningRisks pool level = Returns winners ->
     Close (total (fun r => DefaultTX.payout (MutexEvent.tx r)) winners
            +! Pool.Fees pool)%num (Pool.TotalPool pool) = true)
  /\
  (forall (pool : MutexPool.t Qc) (level : string),
     keys_sorted (Pool.risks pool) ->
     Pool.TotalWinningAmount pool level <> 0%Qc ->
     exists winners : list (Z * MutexPool.Risk Qc),
       MutexPool.MakeWinningRisks pool level = Returns winners /\
       (total (fun r => DefaultTX.payout (MutexEvent.tx r)) winners
        +! Pool.Fees pool)%num = Pool.TotalPool pool).
Proof.
  split.
  - intros T N pool level winners. apply MutexPool_returns_balanced.
  - intros pool level Hs HW. eexists.
    split; [now apply MutexPool_exact_returns |].
    rewrite MutexPool_exact_total_payout by assumption.
    apply pool_value_and_fees.
Qed.

Lemma MutexPool_conservation_witness :
  (exists winners : list (Z * MutexPool.Risk float),
     MutexPool.MakeWinningRisks (main_mutex_pool (T := float)) "default"
       = Returns winners /\
     Close (total (fun r => DefaultTX.payout (MutexEvent.tx r)) winners
            +! Pool.Fees main_mutex_pool)%num (Pool.TotalPool main_mutex_pool)
       = true)
  /\
  (exists winners : list (Z * MutexPool.Risk Qc),
     MutexPool.MakeWinningRisks (main_mutex_pool (T := Qc)) "default"
       = Returns winners /\
     (total (fun r => DefaultTX.payout (MutexEvent.tx r)) winners
      +! Pool.Fees main_mutex_pool)%num = Pool.TotalPool main_mutex_pool).
Proof.
  destruct MutexPool_conservation as [Hany Hexact]. split.
  - eexists. split; [vm_compute; reflexivity |].
    apply Hany with (level := "default");
      [exact main_mutex_pool_sorted | vm_compute; reflexivity].
  - exact (Hexact main_mutex_pool "default" main_mutex_pool_sorted
             main_mutex_pool_default_wins).
Defined.

(** C1.  The category settlement does not conserve the pool in the
    source's arithmetic, against its own assertion.  With the stakes 10^15
    and 2*10^15 on "default" and 4*10^15 on "no_default", closing at
    "default", the winning amount is 3*10^15 (not zero), the payouts the
    loop makes add up to 6789999999999999, the fees are 210000000000000
    and the pool is 7000000000000000: payouts plus fees miss the pool by
    1, more than 0.01, and the call stops on
    [assert( Close( total_payout + Fees() , TotalPool() ) )]. *)
Lemma MutexPool_conservation_fails_binary64 :
  Pool.TotalWinningAmount big_mutex_pool "default" = 3e15%float /\
  total (fun r => DefaultTX.payout (MutexEvent.tx r))
    (fst (MutexPool.settle big_mutex_pool "default")) = 6789999999999999%float /\
  snd (MutexPool.settle big_mutex_pool "default") = 6789999999999999%float /\
  Pool.Fees big_mutex_pool = 210000000000000%float /\
  Pool.TotalPool big_mutex_pool = 7e15%float /\
  Close (total (fun r => DefaultTX.payout (MutexEvent.tx r))
           (fst (MutexPool.settle big_mutex_pool "default"))
         +! Pool.Fees big_mutex_pool)%num
        (Pool.TotalPool big_mutex_pool) = false /\
  MutexPool.MakeWinningRisks big_mutex_pool "default" = AssertionFailed.
Proof. vm_compute. repeat split. Qed.

(** X27.  Whatever the arithmetic, a mapping the directional settlement
    returns has passed both assertions: the prima facie payouts of its
    winners plus [Fees()] are within 0.01 of [TotalPool()], and the prima
    facie payouts add up to within 0.01 of what the payouts add up to.  In
    exact arithmetic, for every pool and every closing price at which the
    total winning amount is not zero and every distance to the closing
    price fits an [int], the settlement does return, and both hold
    exactly. *)
Theorem LongShortPool_conservation :
  (forall (T : Type) (N : Number T) (pool : LongShortPool.t T) (level : Z)
          (winners : list (Z * LongShortPool.Risk T)),
     keys_sorted (Pool.risks pool) ->
     LongShortPool.MakeWinningRisks pool level = Returns winners ->
     Close (total LongShortEvent.prima_facie_payout winners +! Pool.Fees pool)%num
           (Pool.TotalPool pool) = true /\
     Close (total LongShortEvent.prima_facie_payout winners)
           (total (fun r => DefaultTX.payout (LongShortEvent.tx r)) winners)
       = true)
  /\
  (forall (pool : LongShortPool.t Qc) (level : Z),
     keys_sorted (Pool.risks pool) ->
     distances_fit pool level ->
     Pool.TotalWinningAmount pool level <> 0%Qc ->
     exists winners : list (Z * LongShortPool.Risk Qc),
       LongShortPool.MakeWinningRisks pool level = Returns winners /\
       (total LongShortEvent.prima_facie_payout winners +! Pool.Fees pool)%num
         = Pool.TotalPool pool /\
       total LongShortEvent.prima_facie_payout winners
         = total (fun r => DefaultTX.payout (LongShortEvent.tx r)) winners).
Proof.
  split.
  - intros T N pool level winners. apply LongShortPool_returns_balanced.
  - intros pool level Hs Hfit HW.
    pose proof (TotalWinningAmount_winner
                  (@LongShortEvent_winning_amount Qc Exact) pool level HW)
      as Hwin.
    eexists. split; [now apply LongShortPool_exact_returns |].
    rewrite LongShortPool_exact_total_payout by assumption.
    rewrite total_map_snd.
    cbn [LongShortPool.reweigh LongShortEvent.prima_facie_payout].
    rewrite LongShortPool_exact_prima_facie by assumption.
    split; [apply pool_value_and_fees | reflexivity].
Qed.

Lemma LongShortPool_conservation_witness :
  (exists winners : list (Z * LongShortPool.Risk float),
     LongShortPool.MakeWinningRisks (main_ls_pool (T := float)) 56
       = Returns winners /\
     Close (total LongShortEvent.prima_facie_payout winners)
           (total (fun r => DefaultTX.payout (LongShortEvent.tx r)) winners)
       = true)
  /\
  (exists winners : list (Z * LongShortPool.Risk Qc),
     LongShortPool.MakeWinningRisks (main_ls_pool (T := Qc)) 56
       = Returns winners /\
     total LongShortEvent.prima_facie_payout winners
       = total (fun r => DefaultTX.payout (LongShortEvent.tx r)) winners).
Proof.
  destruct LongShortPool_conservation as [Hany Hexact]. split.
  - eexists. split; [vm_compute; reflexivity |].
    refine (proj2 (Hany float Binary64 main_ls_pool 56 _
                     main_ls_pool_sorted _)).
    vm_compute. reflexivity.
  - destruct (Hexact main_ls_pool 56 main_ls_pool_sorted main_ls_pool_56_fits
                main_ls_pool_56_wins) as [winners (Hr & _ & Hsum)].
    exists winners. now split.
Defined.

(** C2.  The directional settlement does not conserve the pool in the
    source's arithmetic, against its own assertions.  With Long@50 10^15,
    Long@55 2*10^15 and Short@40 4*10^15 closing at 56, the prima facie
    payouts add up to 6789999999999999 and the payouts to
    6790000000000000, with fees of 210000000000000 in a pool of
    7000000000000000: both [assert( Close( ... ) )] fail.  With Long@50 of
    amount 0 and Short@40 of amount 100 closing at 56 there is one winner,
    the winning amount is 0, the division by it makes the totals NaN, and
    both assertions fail again. *)
Lemma LongShortPool_conservation_fails_binary64 :
  (Pool.TotalWinningAmount big_ls_pool 56 = 3e15%float /\
   LongShortPool.total_prima_facie_payout (LongShortPool.settle big_ls_pool 56)
     = 6789999999999999%float /\
   LongShortPool.total_payout (LongShortPool.settle big_ls_pool 56)
     = 6790000000000000%float /\
   LongShortPool.balanced big_ls_pool 56 = false /\
   LongShortPool.redistributed big_ls_pool 56 = false /\
   LongShortPool.MakeWinningRisks big_ls_pool 56 = AssertionFailed)
  /\
  (List.length (LongShortPool.winning_risks
                  (LongShortPool.settle zero_stake_ls_pool 56)) = 1%nat /\
   Pool.TotalWinningAmount zero_stake_ls_pool 56 = 0%float /\
   PrimFloat.is_nan
     (LongShortPool.total_prima_facie_payout
        (LongShortPool.settle zero_stake_ls_pool 56)) = true /\
   LongShortPool.balanced zero_stake_ls_pool 56 = false /\
   LongShortPool.redistributed zero_stake_ls_pool 56 = false /\
   LongShortPool.MakeWinningRisks zero_stake_ls_pool 56 = AssertionFailed).
Proof. vm_compute. repeat split. Qed.

(** ** Shares *)

(** C10.  In exact arithmetic, for every settlement with at least one
    winner and all amounts positive, [MakeWinningRisks] returns and the
    [winnings_share] of the winners it returns add up to 1; in the
    directional settlement, where every distance to the closing price fits
    an [int], so do their [inverse_distance_to_pin_normalised]. *)
Theorem shares_sum_to_one :
  (forall (pool : MutexPool.t Qc) (level : string),
     keys_sorted (Pool.risks pool) ->
     Forall (fun kr => (0 < DefaultTX.amount (MutexEvent.tx (snd kr)))%Qc)
       (Pool.risks pool) ->
     Exists (fun kr => MutexEvent.IsWinner (snd kr) level = true)
       (Pool.risks pool) ->
     exists winners : list (Z * MutexPool.Risk Qc),
       MutexPool.MakeWinningRisks pool level = Returns winners /\
       total (fun r => PoolEvent.winnings_share (MutexEvent.base r)) winners
         = 1%Qc)
  /\
  (forall (pool : LongShortPool.t Qc) (level : Z),
     keys_sorted (Pool.risks pool) ->
     distances_fit pool level ->
     Forall (fun kr => (0 < DefaultTX.amount (LongShortEvent.tx (snd kr)))%Qc)
       (Pool.risks pool) ->
     Exists (fun kr => LongShortEvent.IsWinner (snd kr) level = true)
       (Pool.risks pool) ->
     exists winners : list (Z * LongShortPool.Risk Qc),
       LongShortPool.MakeWinningRisks pool level = Returns winners /\
       total (fun r => PoolEvent.winnings_share (LongShortEvent.base r)) winners
         = 1%Qc /\
       total LongShortEvent.inverse_distance_to_pin_normalised winners = 1%Qc).
Proof.
  split.
  - intros pool level Hs Hpos Hwin.
    assert (HW : Pool.TotalWinningAmount pool level <> 0%Qc).
    { apply Qc_pos_neq0.
      now apply (TotalWinningAmount_pos (@MutexEvent_winning_amount Qc Exact)). }
    eexists. split; [now apply MutexPool_exact_returns |].
    now apply MutexPool_exact_winnings_share.
  - intros pool level Hs Hfit Hpos Hwin.
    assert (HW : Pool.TotalWinningAmount pool level <> 0%Qc).
    { apply Qc_pos_neq0.
      now apply (TotalWinningAmount_pos
                   (@LongShortEvent_winning_amount Qc Exact)). }
    eexists. split; [now apply LongShortPool_exact_returns |]. split.
    + now apply LongShortPool_exact_winnings_share.
    + now apply LongShortPool_exact_normalised.
Qed.

Lemma main_mutex_pool_positive :
  Forall (fun kr => (0 < DefaultTX.amount (MutexEvent.tx (snd kr)))%Qc)
    (Pool.risks (main_mutex_pool (T := Qc))).
Proof.
  apply (Forall_forallb _
           (fun kr => Qcltb 0 (DefaultTX.amount (MutexEvent.tx (snd kr))))).
  - intros kr. apply Qcltb_lt.
  - vm_compute. reflexivity.
Qed.

Lemma main_ls_pool_positive :
  Forall (fun kr => (0 < DefaultTX.amount (LongShortEvent.tx (snd kr)))%Qc)
    (Pool.risks (main_ls_pool (T := Qc))).
Proof.
  apply (Forall_forallb _
           (fun kr => Qcltb 0 (DefaultTX.amount (LongShortEvent.tx (snd kr))))).
  - intros kr. apply Qcltb_lt.
  - vm_compute. reflexivity.
Qed.

Lemma main_mutex_pool_default_winner {T : Type} `{Number T} :
  Exists (fun kr => MutexEvent.IsWinner (snd kr) "default" = true)
    (Pool.risks (main_mutex_pool (T := T))).
Proof.
  apply (Exists_existsb _ (fun kr => MutexEvent.IsWinner (snd kr) "default")).
  - trivial.
  - vm_compute. reflexivity.
Qed.

Lemma shares_sum_to_one_witness :
  (exists winners : list (Z * MutexPool.Risk Qc),
     MutexPool.MakeWinningRisks main_mutex_pool "default" = Returns winners /\
     total (fun r => PoolEvent.winnings_share (MutexEvent.base r)) winners
       = 1%Qc)
  /\
  (exists winners : list (Z * LongShortPool.Risk Qc),
     LongShortPool.MakeWinningRisks main_ls_pool 56 = Returns winners /\
     total (fun r => PoolEvent.winnings_share (LongShortEvent.base r)) winners
       = 1%Qc /\
     total LongShortEvent.inverse_distance_to_pin_normalised winners = 1%Qc).
Proof.
  destruct shares_sum_to_one as [Hm Hl]. split.
  - exact (Hm main_mutex_pool "default"%string main_mutex_pool_sorted
             main_mutex_pool_positive main_mutex_pool_default_winner).
  - exact (Hl main_ls_pool 56 main_ls_pool_sorted main_ls_pool_56_fits
             main_ls_pool_positive main_ls_pool_56_winner).
Defined.

(** ** Distance to the closing price *)

Section ExactDistance.
Variables (pool : LongShortPool.t Qc) (level : Z).
Hypothesis sorted : keys_sorted (Pool.risks pool).
Hypothesis fit : distances_fit pool level.
Hypothesis amounts :
  Forall (fun kr => (0 <= DefaultTX.amount (LongShortEvent.tx (snd kr)))%Qc)
    (Pool.risks pool).
Hypothesis fee_rate : (Pool.fees pool <= 1)%Qc.

Let pool_value : Qc := (Pool.TotalPool pool *! (one -! Pool.fees pool))%num.
Let win_value : Qc := Pool.TotalWinningAmount pool level.
Let total_inverse : Qc :=
  total LongShortEvent.inverse_distance_to_the_pin
    (select (fun r => LongShortEvent.IsWinner r level)
       (LongShortPool.winning pool_value win_value level) (Pool.risks pool)).

(** A winner of the settlement is a winning risk of the pool, made a
    winner and reweighed. *)
Lemma LongShortPool_settled_winner (k : Z) (w : LongShortPool.Risk Qc) :
  In (k, w) (LongShortPool.winning_risks (LongShortPool.settle pool level)) ->
  exists r : LongShortEvent.t Qc,
    In (k, r) (Pool.risks pool) /\
    LongShortEvent.IsWinner r level = true /\
    w = LongShortPool.reweigh total_inverse win_value
          (LongShortPool.winning pool_value win_value level r).
Proof.
  rewrite (LongShortPool_settle_sorted pool level sorted).
  cbn [LongShortPool.winning_risks]. intros Hin.
  apply in_map_iff in Hin. destruct Hin as [[k' w'] [Heq Hin]].
  cbn [fst snd] in Heq. inversion Heq; subst.
  apply in_select in Hin. destruct Hin as [r (Hin & Hk & ->)].
  now exists r.
Qed.

Lemma LongShortPool_scale_nonneg :
  (0 < total_inverse)%Qc ->
  (0 <= / total_inverse * win_value * (pool_value / win_value))%Qc.
Proof.
  intros Hti.
  assert (HW : (0 <= win_value)%Qc)
    by (apply (TotalWinningAmount_nonneg (@LongShortEvent_winning_amount Qc Exact));
        exact amounts).
  assert (HP : (0 <= pool_value)%Qc).
  { unfold pool_value. exact_arith. apply Qcmult_nonneg.
    - apply TotalPool_nonneg. exact amounts.
    - apply Qcle_minus_iff in fee_rate. exact fee_rate. }
  apply Qcmult_nonneg; [apply Qcmult_nonneg |].
  - apply Qcinv_nonneg. now apply Qclt_le_weak.
  - exact HW.
  - unfold Qcdiv. apply Qcmult_nonneg; [exact HP | now apply Qcinv_nonneg].
Qed.

(** What a settled winner is paid: the inverse of its distance times a
    factor that is the same for all winners and not negative; its payoff
    is that payout over its own amount. *)
Lemma LongShortPool_settled_payout (k : Z) (w : LongShortPool.Risk Qc) :
  In (k, w) (LongShortPool.winning_risks (LongShortPool.settle pool level)) ->
  let scale := (/ total_inverse * win_value * (pool_value / win_value))%Qc in
  0 < distance level w /\
  (0 <= scale)%Qc /\
  DefaultTX.payout (LongShortEvent.tx w) =
    (/ Q2Qc (inject_Z (distance level w)) * scale)%Qc /\
  PoolEvent.payoff (LongShortEvent.base w) =
    (DefaultTX.payout (LongShortEvent.tx w)
     * / DefaultTX.amount (LongShortEvent.tx w))%Qc.
Proof.
  intros Hin scale.
  destruct (LongShortPool_settled_winner k w Hin) as [r (Hr & Hk & ->)].
  assert (Hwin : Exists (fun kr => LongShortEvent.IsWinner (snd kr) level = true)
                   (Pool.risks pool))
    by (apply Exists_exists; now exists (k, r)).
  pose proof (@LongShortPool_total_inverse_pos pool level fit Hwin) as Hti.
  pose proof fit as Hfit. unfold distances_fit in Hfit.
  rewrite Forall_forall in Hfit.
  destruct (@WinningInverseDistance_exact r level Hk (Hfit _ Hr)) as [Hd Hi].
  pose proof (LongShortPool_reweigh_payout pool level r) as Hp.
  rewrite Hi in Hp.
  split; [exact Hd |]. split; [exact (LongShortPool_scale_nonneg Hti) |].
  split; [exact Hp | reflexivity].
Qed.

End ExactDistance.

(** C4 (as amended).  In exact arithmetic, with amounts that are not
    negative, a fee rate of at most 1 and distances that fit an [int]: of
    two winners of the mapping a directional settlement returns, the one
    strictly closer to the closing price has the greater or equal payoff
    whenever its amount is positive and its amount times its distance is
    not larger than the other winner's amount times distance. *)
Theorem LongShortPool_closer_winner_paid_more (pool : LongShortPool.t Qc)
    (level : Z) (winners : list (Z * LongShortPool.Risk Qc)) (k1 k2 : Z)
    (w1 w2 : LongShortPool.Risk Qc) :
  keys_sorted (Pool.risks pool) ->
  distances_fit pool level ->
  Forall (fun kr => (0 <= DefaultTX.amount (LongShortEvent.tx (snd kr)))%Qc)
    (Pool.risks pool) ->
  (Pool.fees pool <= 1)%Qc ->
  LongShortPool.MakeWinningRisks pool level = Returns winners ->
  In (k1, w1) winners ->
  In (k2, w2) winners ->
  distance level w1 < distance level w2 ->
  (0 < DefaultTX.amount (LongShortEvent.tx w1))%Qc ->
  (DefaultTX.amount (LongShortEvent.tx w1)
   * Q2Qc (inject_Z (distance level w1))
   <= DefaultTX.amount (LongShortEvent.tx w2)
      * Q2Qc (inject_Z (distance level w2)))%Qc ->
  (PoolEvent.payoff (LongShortEvent.base w2)
   <= PoolEvent.payoff (LongShortEvent.base w1))%Qc.
Proof.
  intros Hs Hfit Hamt Hfee Hr H1 H2 _ Ha1 Hprod.
  apply LongShortPool_returns_settle in Hr. subst winners.
  destruct (@LongShortPool_settled_payout pool level Hs Hfit Hamt Hfee k1 w1 H1)
    as (Hd1 & Hc & Hp1 & Hf1).
  destruct (@LongShortPool_settled_payout pool level Hs Hfit Hamt Hfee k2 w2 H2)
    as (Hd2 & _ & Hp2 & Hf2).
  rewrite Hf1, Hf2, Hp1, Hp2. clear Hf1 Hf2 Hp1 Hp2.
  set (c := (/ _ * _ * (_ / _))%Qc) in *.
  set (a1 := DefaultTX.amount (LongShortEvent.tx w1)) in *.
  set (a2 := DefaultTX.amount (LongShortEvent.tx w2)) in *.
  pose proof (Qc_of_int_pos Hd1) as HD1. pose proof (Qc_of_int_pos Hd2) as HD2.
  set (D1 := Q2Qc (inject_Z (distance level w1))) in *.
  set (D2 := Q2Qc (inject_Z (distance level w2))) in *.
  assert (H1pos : (0 < a1 * D1)%Qc).
  { replace 0%Qc with (0 * D1)%Qc by ring.
    now apply Qcmult_lt_compat_r. }
  assert (Ha2 : (0 < a2)%Qc).
  { destruct (Qclt_le_dec 0 a2) as [Hpos | Hneg]; [exact Hpos |].
    exfalso. apply (Qclt_not_le _ _ H1pos).
    eapply Qcle_trans; [exact Hprod |].
    replace 0%Qc with (0 * D2)%Qc by ring.
    apply Qcmult_le_compat_r; [exact Hneg | now apply Qclt_le_weak]. }
  assert (Hinv : (/ (a2 * D2) <= / (a1 * D1))%Qc)
    by now apply Qcinv_le_contravar.
  replace (/ D2 * c * / a2)%Qc with (/ (a2 * D2) * c)%Qc
    by (field; split; now apply Qc_pos_neq0).
  replace (/ D1 * c * / a1)%Qc with (/ (a1 * D1) * c)%Qc
    by (field; split; now apply Qc_pos_neq0).
  now apply Qcmult_le_compat_r.
Qed.

Lemma LongShortPool_closer_winner_paid_more_witness :
  let pool := main_ls_pool (T := Qc) in
  let w1 := nth_ls_winner 2 pool 56 in
  let w2 := nth_ls_winner 0 pool 56 in
  distance 56 (snd w1) < distance 56 (snd w2) /\
  (DefaultTX.amount (LongShortEvent.tx (snd w2))
   < DefaultTX.amount (LongShortEvent.tx (snd w1)))%Qc /\
  (PoolEvent.payoff (LongShortEvent.base (snd w2))
   <= PoolEvent.payoff (LongShortEvent.base (snd w1)))%Qc.
Proof.
  intros pool w1 w2.
  assert (Hd : distance 56 (snd w1) < distance 56 (snd w2))
    by (vm_compute; reflexivity).
  assert (Ha : (DefaultTX.amount (LongShortEvent.tx (snd w2))
                < DefaultTX.amount (LongShortEvent.tx (snd w1)))%Qc)
    by (vm_compute; reflexivity).
  assert (Hr : LongShortPool.MakeWinningRisks pool 56
               = Returns (LongShortPool.winning_risks
                            (LongShortPool.settle pool 56))).
  { unfold LongShortPool.MakeWinningRisks.
    replace (LongShortPool.balanced pool 56) with true
      by (vm_compute; reflexivity).
    replace (LongShortPool.redistributed pool 56) with true
      by (vm_compute; reflexivity).
    reflexivity. }
  assert (Hin : forall n, (n < 3)%nat ->
            In (fst (nth_ls_winner n pool 56), snd (nth_ls_winner n pool 56))
               (LongShortPool.winning_risks (LongShortPool.settle pool 56))).
  { intros n Hn. rewrite <- surjective_pairing. apply nth_In.
    replace (List.length _) with 3%nat by (vm_compute; reflexivity).
    exact Hn. }
  assert (Hamt : Forall
            (fun kr => (0 <= DefaultTX.amount (LongShortEvent.tx (snd kr)))%Qc)
            (Pool.risks pool)).
  { eapply Forall_impl; [| exact main_ls_pool_positive].
    intros kr. apply Qclt_le_weak. }
  assert (Hfee : (Pool.fees pool <= 1)%Qc) by (vm_compute; discriminate).
  split; [exact Hd |]. split; [exact Ha |].
  apply (@LongShortPool_closer_winner_paid_more pool 56 _
           (fst w1) (fst w2) (snd w1) (snd w2)
           main_ls_pool_sorted main_ls_pool_56_fits Hamt Hfee Hr
           (Hin 2%nat ltac:(repeat constructor))
           (Hin 0%nat ltac:(repeat constructor)) Hd).
  - vm_compute. reflexivity.
  - vm_compute. discriminate.
Defined.

(** C4, the claim as stated fails, and fails in two ways.  With Long@55 of
    1000 and Long@50 of 1 closing at 56, both win; the first is at distance
    1 and has payoff 0.83226, the second is at distance 6 and has payoff
    138.71: the payoff divides by the winner's own amount.  With Long@55 of
    25 and Long@51 of 5 closing at 56, amount times distance is 25 for
    both and the exact payoffs are equal, yet in the source's arithmetic
    the closer winner gets 0.97 and the other the next double above it:
    the order does not survive rounding. *)
Lemma closer_winner_lower_payoff :
  match LongShortPool.MakeWinningRisks lopsided_ls_pool 56 with
  | Returns [(0, w1); (1, w2)] =>
      distance 56 w1 = 1 /\ distance 56 w2 = 6 /\
      PrimFloat.ltb (PoolEvent.payoff (LongShortEvent.base w1))
                    (PoolEvent.payoff (LongShortEvent.base w2)) = true /\
      PrimFloat.ltb (PoolEvent.payoff (LongShortEvent.base w1)) 1%float = true /\
      PrimFloat.ltb 138%float (PoolEvent.payoff (LongShortEvent.base w2)) = true
  | _ => False
  end /\
  match LongShortPool.MakeWinningRisks level_ls_pool 56 with
  | Returns [(0, w1); (1, w2)] =>
      distance 56 w1 = 1 /\ distance 56 w2 = 5 /\
      DefaultTX.amount (LongShortEvent.tx w1) = 25%float /\
      DefaultTX.amount (LongShortEvent.tx w2) = 5%float /\
      PoolEvent.payoff (LongShortEvent.base w1) = 0x1.f0a3d70a3d70ap-1%float /\
      PoolEvent.payoff (LongShortEvent.base w2) = 0x1.f0a3d70a3d70bp-1%float /\
      PrimFloat.ltb (PoolEvent.payoff (LongShortEvent.base w1))
                    (PoolEvent.payoff (LongShortEvent.base w2)) = true
  | _ => False
  end.
Proof. vm_compute. repeat split. Qed.

(** ** The level set *)

Section SetInsert.
Context {K : Type} (cmp : K -> K -> comparison).
Hypothesis cmp_eq : forall x y : K, cmp x y = Eq -> x = y.

Lemma in_set_insert (k l : K) (s : list K) :
  In l (set_insert cmp k s) <-> l = k \/ In l s.
Proof.
  induction s as [| k' s IH]; simpl.
  - intuition.
  - destruct (cmp k k') eqn:E; simpl.
    + apply cmp_eq in E. subst k'. intuition.
    + intuition.
    + rewrite IH. intuition.
Qed.

End SetInsert.

Section LevelSet.
Context {T E L : Type} `{Number T} `{EventOps T E L}.
Hypothesis level_eq : forall x y : L, level_compare x y = Eq -> x = y.

(** The levels collected are the levels of the risks. *)
Lemma in_collect_levels (pool : Pool.t T E) (l : L) :
  In l (Pool.collect_levels pool) <->
  exists kr, In kr (Pool.risks pool) /\ GetLevel (snd kr) = l.
Proof.
  unfold Pool.collect_levels.
  assert (Hgen : forall (m : list (Z * E)) (s : list L),
            In l (fold_left
                    (fun levels kr =>
                       set_insert level_compare (GetLevel (snd kr)) levels) m s)
            <-> In l s \/ exists kr, In kr m /\ GetLevel (snd kr) = l).
  { induction m as [| kr m IH]; intros s; simpl.
    - split; [now left | intros [Hs | [kr [[] _]]]; exact Hs].
    - rewrite IH, (in_set_insert _ level_eq). split.
      + intros [[-> | Hs] | [kr' [Hin Hl]]].
        * right. exists kr. split; [now left | reflexivity].
        * now left.
        * right. exists kr'. split; [now right | assumption].
      + intros [Hs | [kr' [[<- | Hin] Hl]]].
        * left. now right.
        * left. left. now symmetry.
        * right. now exists kr'. }
  rewrite Hgen. split.
  - intros [[] | Hex]. exact Hex.
  - intros Hex. now right.
Qed.

End LevelSet.

(** A set of integers stays sorted; its first element is the least and
    its last the greatest. *)
Lemma set_insert_sorted (k : Z) (s : list Z) :
  StronglySorted Z.lt s -> StronglySorted Z.lt (set_insert Z.compare k s).
Proof.
  induction 1 as [| k' s Hs IH Hall]; simpl.
  - repeat constructor.
  - destruct (k ?= k') eqn:E.
    + now constructor.
    + rewrite Z.compare_lt_iff in E. constructor; [now constructor |].
      constructor; [assumption |].
      revert Hall. apply Forall_impl. intros z Hz. lia.
    + rewrite Z.compare_gt_iff in E. constructor; [assumption |].
      apply Forall_forall. intros z Hz.
      apply (in_set_insert Z.compare Z.compare_eq) in Hz.
      destruct Hz as [-> | Hz]; [assumption |].
      rewrite Forall_forall in Hall. now apply Hall.
Qed.

Lemma sorted_head_least (a : Z) (s : list Z) :
  StronglySorted Z.lt (a :: s) -> forall z, In z (a :: s) -> a <= z.
Proof.
  intros Hs z [<- | Hz]; [lia |].
  inversion Hs as [| ? ? _ Hall]; subst.
  rewrite Forall_forall in Hall. specialize (Hall z Hz). lia.
Qed.

Lemma sorted_last_greatest (s : list Z) :
  StronglySorted Z.lt s ->
  forall d z, In z s -> z <= last s d /\ In (last s d) s.
Proof.
  induction 1 as [| a s Hs IH Hall]; intros d z Hz; [destruct Hz |].
  destruct s as [| b s].
  - destruct Hz as [<- | []]. simpl. split; [lia | now left].
  - change (last (a :: b :: s) d) with (last (b :: s) d).
    destruct (IH d b (or_introl eq_refl)) as [Hb Hin].
    split; [| now right].
    destruct Hz as [<- | Hz].
    + rewrite Forall_forall in Hall. specialize (Hall _ Hin). lia.
    + now apply IH.
Qed.

Lemma collect_levels_sorted {T : Type} `{Number T} (pool : LongShortPool.t T) :
  StronglySorted Z.lt (Pool.collect_levels pool).
Proof.
  unfold Pool.collect_levels.
  assert (Hgen : forall (m : list (Z * LongShortEvent.t T)) (s : list Z),
            StronglySorted Z.lt s ->
            StronglySorted Z.lt
              (fold_left
                 (fun levels kr =>
                    set_insert level_compare (GetLevel (snd kr)) levels) m s)).
  { induction m as [| kr m IH]; intros s Hs; simpl; [assumption |].
    apply IH. now apply set_insert_sorted. }
  apply Hgen. constructor.
Qed.

(** The level set of a category pool is the set of the categories staked
    on; it is empty when there is no stake. *)
Lemma MutexPool_MakeLevelSet {T : Type} `{Number T} (pool : MutexPool.t T) :
  exists levels : list string,
    Pool.MakeLevelSet pool = Returns levels /\
    (forall l, In l levels <->
               exists kr, In kr (Pool.risks pool) /\
                          MutexEvent.event (snd kr) = l) /\
    (Pool.risks pool = [] -> levels = []).
Proof.
  exists (Pool.collect_levels pool). split; [reflexivity |]. split.
  - intros l.
    exact (@in_collect_levels T (MutexEvent.t T) string MutexEvent.ops
             String.compare_eq_iff pool l).
  - intros Hnil. unfold Pool.collect_levels. now rewrite Hnil.
Qed.

(** The level set of a directional pool that has a stake is the set of the
    prices staked on, with one tick under the least and one tick over the
    greatest of them. *)
Lemma LongShortPool_MakeLevelSet {T : Type} `{Number T}
    (pool : LongShortPool.t T) :
  Pool.risks pool <> [] ->
  exists (levels : list Z) (min max : Z),
    Pool.MakeLevelSet pool = Returns levels /\
    (exists kr, In kr (Pool.risks pool) /\ LongShortEvent.price (snd kr) = min) /\
    (exists kr, In kr (Pool.risks pool) /\ LongShortEvent.price (snd kr) = max) /\
    (forall kr, In kr (Pool.risks pool) ->
                min <= LongShortEvent.price (snd kr) <= max) /\
    (forall l, In l levels <->
               (exists kr, In kr (Pool.risks pool) /\
                           LongShortEvent.price (snd kr) = l)
               \/ l = wrap_int (min - 1) \/ l = wrap_int (max + 1)).
Proof.
  intros Hne.
  pose proof (collect_levels_sorted pool) as Hs.
  assert (Hin : forall l, In l (Pool.collect_levels pool) <->
                   exists kr, In kr (Pool.risks pool) /\
                              LongShortEvent.price (snd kr) = l)
    by exact (@in_collect_levels T (LongShortEvent.t T) Z LongShortEvent.ops
                Z.compare_eq pool).
  unfold Pool.MakeLevelSet. cbn [level_ticks LongShortEvent.ops].
  destruct (Pool.collect_levels pool) as [| min s] eqn:Ec.
  - exfalso. destruct (Pool.risks pool) as [| kr m]; [now apply Hne |].
    apply (proj2 (Hin (GetLevel (snd kr)))). exists kr. split; [now left | reflexivity].
  - exists (set_insert Z.compare (wrap_int (last (min :: s) min + 1))
              (set_insert Z.compare (wrap_int (min - 1)) (min :: s))),
      min, (last (min :: s) min).
    split; [reflexivity |].
    destruct (sorted_last_greatest Hs min min (or_introl eq_refl)) as [_ Hlast].
    split; [apply Hin; now left |].
    split; [now apply Hin |].
    split.
    + intros kr Hkr.
      assert (Hp : In (LongShortEvent.price (snd kr)) (min :: s))
        by (apply Hin; now exists kr).
      split.
      * now apply (sorted_head_least Hs).
      * now apply (sorted_last_greatest Hs).
    + intros l.
      rewrite !(in_set_insert Z.compare Z.compare_eq), Hin. tauto.
Qed.

(** C7, the case the source misses.  With the arithmetic level of the
    directional pool, [MakeLevelSet] reads the first and the last element
    of the set it collected without looking whether there is one: on a
    pool without stakes the call has no defined result (and goes on to
    insert two levels), where the empty set is expected. *)
Theorem LongShortPool_MakeLevelSet_empty {T : Type} `{Number T} :
  Pool.risks (Pool.empty : LongShortPool.t T) = [] /\
  Pool.MakeLevelSet (Pool.empty : LongShortPool.t T) = Undefined /\
  Pool.MakeLevelSet (Pool.empty : LongShortPool.t T) <> Returns [] /\
  Pool.MakeLevelSet (Pool.empty : MutexPool.t T) = Returns [].
Proof. repeat split. discriminate. Qed.

(** * Further properties of the code *)

(** ** Ordered keys *)

Section OrderedKeys.
Context {K : Type} (cmp : K -> K -> comparison).
Hypothesis cmp_eq : forall x y : K, cmp x y = Eq <-> x = y.
Hypothesis cmp_antisym : forall x y : K, cmp x y = CompOpp (cmp y x).
Hypothesis cmp_trans :
  forall x y z : K, cmp x y = Lt -> cmp y z = Lt -> cmp x z = Lt.

Lemma cmp_gt_lt (x y : K) : cmp x y = Gt -> cmp y x = Lt.
Proof. intros Hxy. rewrite cmp_antisym, Hxy. reflexivity. Qed.

Lemma cmp_lt_gt (x y : K) : cmp x y = Lt -> cmp y x = Gt.
Proof. intros Hxy. rewrite cmp_antisym, Hxy. reflexivity. Qed.

Lemma set_insert_in (k l : K) (s : list K) :
  In l (set_insert cmp k s) <-> l = k \/ In l s.
Proof.
  apply in_set_insert. intros x y Hxy. now apply cmp_eq.
Qed.

Lemma set_insert_sorted_by (k : K) (s : list K) :
  sorted_by cmp s -> sorted_by cmp (set_insert cmp k s).
Proof.
  unfold sorted_by. induction 1 as [| k' s Hs IH Hall]; simpl.
  - repeat constructor.
  - destruct (cmp k k') eqn:E.
    + now constructor.
    + constructor; [now constructor |].
      constructor; [assumption |].
      revert Hall. apply Forall_impl. intros z Hz. now apply (cmp_trans E).
    + constructor; [assumption |].
      apply Forall_forall. intros z Hz. apply set_insert_in in Hz.
      destruct Hz as [-> | Hz]; [now apply cmp_gt_lt |].
      rewrite Forall_forall in Hall. now apply Hall.
Qed.

Lemma sorted_by_NoDup (s : list K) : sorted_by cmp s -> NoDup s.
Proof.
  unfold sorted_by. induction 1 as [| k s Hs IH Hall]; constructor;
    [| assumption].
  intros Hin. rewrite Forall_forall in Hall. specialize (Hall k Hin).
  assert (E : cmp k k = Eq) by now apply cmp_eq.
  congruence.
Qed.

Section Maps.
Context {V : Type}.

Lemma map_at_insert_same (k : K) (v : V) (m : list (K * V)) :
  map_at cmp k (map_insert cmp k v m) = Some v.
Proof.
  assert (E : cmp k k = Eq) by now apply cmp_eq.
  induction m as [| [k' v'] m IH]; simpl.
  - now rewrite E.
  - destruct (cmp k k') eqn:Ek; simpl.
    + now rewrite E.
    + now rewrite E.
    + now rewrite Ek.
Qed.

Lemma map_at_insert_other (k k' : K) (v : V) (m : list (K * V)) :
  k' <> k -> map_at cmp k' (map_insert cmp k v m) = map_at cmp k' m.
Proof.
  intros Hne.
  assert (Ene : cmp k' k <> Eq) by (intros E; now apply cmp_eq in E).
  induction m as [| [k0 v0] m IH]; simpl.
  - now destruct (cmp k' k).
  - destruct (cmp k k0) eqn:Ek; simpl.
    + apply cmp_eq in Ek. subst k0.
      now destruct (cmp k' k).
    + now destruct (cmp k' k).
    + now rewrite IH.
Qed.

Lemma map_insert_keys (k x : K) (v : V) (m : list (K * V)) :
  In x (map fst (map_insert cmp k v m)) <-> x = k \/ In x (map fst m).
Proof.
  induction m as [| [k' v'] m IH]; simpl.
  - intuition.
  - destruct (cmp k k') eqn:E; simpl.
    + apply cmp_eq in E. subst k'. intuition.
    + intuition.
    + rewrite IH. intuition.
Qed.

Lemma map_insert_sorted_by (k : K) (v : V) (m : list (K * V)) :
  sorted_by cmp (map fst m) -> sorted_by cmp (map fst (map_insert cmp k v m)).
Proof.
  unfold sorted_by. induction m as [| [k' v'] m IH]; simpl; intros Hs.
  - repeat constructor.
  - inversion Hs as [| ? ? Hs' Hall]; subst.
    destruct (cmp k k') eqn:E; simpl.
    + apply cmp_eq in E. subst k'. now constructor.
    + constructor; [assumption |].
      constructor; [assumption |].
      revert Hall. apply Forall_impl. intros z Hz. now apply (cmp_trans E).
    + constructor; [now apply IH |].
      apply Forall_forall. intros z Hz. apply map_insert_keys in Hz.
      destruct Hz as [-> | Hz]; [now apply cmp_gt_lt |].
      rewrite Forall_forall in Hall. now apply Hall.
Qed.

Lemma map_insert_last_by (k : K) (v : V) (m : list (K * V)) :
  Forall (fun kv => cmp (fst kv) k = Lt) m ->
  map_insert cmp k v m = m ++ [(k, v)].
Proof.
  induction 1 as [| [k' v'] m Hlt _ IH]; simpl; [reflexivity |].
  simpl in Hlt. apply cmp_lt_gt in Hlt. now rewrite Hlt, IH.
Qed.

(** In a map with increasing keys, a key above the one looked for ends
    the search. *)
Lemma map_at_above (k : K) (m : list (K * V)) :
  Forall (fun kv => cmp k (fst kv) = Lt) m -> map_at cmp k m = None.
Proof.
  induction 1 as [| [k' v'] m Hlt _ IH]; simpl; [reflexivity |].
  simpl in Hlt. now rewrite Hlt.
Qed.

Lemma map_at_In (k : K) (v : V) (m : list (K * V)) :
  sorted_by cmp (map fst m) -> In (k, v) m -> map_at cmp k m = Some v.
Proof.
  unfold sorted_by. induction m as [| [k' v'] m IH]; simpl; intros Hs Hin;
    [contradiction |].
  inversion Hs as [| ? ? Hs' Hall]; subst.
  destruct Hin as [Heq | Hin].
  - inversion Heq; subst.
    assert (E : cmp k k = Eq) by now apply cmp_eq.
    now rewrite E.
  - rewrite Forall_forall in Hall.
    assert (Hlt : cmp k' k = Lt) by (apply Hall; now apply (in_map fst) in Hin).
    rewrite (cmp_lt_gt Hlt). now apply IH.
Qed.

End Maps.
End OrderedKeys.

(** The orders of the two key types. *)
Lemma Z_compare_eq (x y : Z) : (x ?= y) = Eq <-> x = y.
Proof. apply Z.compare_eq_iff. Qed.

Lemma Z_compare_antisym (x y : Z) : (x ?= y) = CompOpp (y ?= x).
Proof. now rewrite (Z.compare_antisym x y), CompOpp_involutive. Qed.

Lemma Z_compare_trans (x y z : Z) :
  (x ?= y) = Lt -> (y ?= z) = Lt -> (x ?= z) = Lt.
Proof. rewrite !Z.compare_lt_iff. lia. Qed.

Lemma string_compare_eq (x y : string) : String.compare x y = Eq <-> x = y.
Proof. apply OrderedTypeEx.String_as_OT.cmp_eq. Qed.

Lemma string_compare_trans (x y z : string) :
  String.compare x y = Lt -> String.compare y z = Lt ->
  String.compare x z = Lt.
Proof.
  intros Hxy Hyz. apply OrderedTypeEx.String_as_OT.cmp_lt.
  apply OrderedTypeEx.String_as_OT.cmp_lt in Hxy, Hyz.
  eapply OrderedTypeEx.String_as_OT.lt_trans; eassumption.
Qed.

Lemma keys_sorted_sorted_by {V : Type} (m : list (Z * V)) :
  keys_sorted m <-> sorted_by Z.compare (map fst m).
Proof. reflexivity. Qed.

(** ** Registration: what [MakeRisk] changes and what it leaves alone *)

(** X1.  [MakeRisk] touches one entry of the map: under the counter it
    stores the event it was given with the four transaction fields set,
    every other key reads as before, the keys are the old ones and the
    counter, and a map with increasing keys stays one. *)
Theorem MakeRisk_frame {T E L : Type} `{Number T} `{EventOps T E L}
    (pool : Pool.t T E) (event : E) (amount : T) (who : string) :
  let pool' := snd (Pool.MakeRisk pool event amount who) in
  map_at Z.compare (Pool.tx pool) (Pool.risks pool') =
    Some (registered pool event amount who) /\
  (forall k : Z, k <> Pool.tx pool ->
     map_at Z.compare k (Pool.risks pool') =
     map_at Z.compare k (Pool.risks pool)) /\
  (forall k : Z, In k (map fst (Pool.risks pool')) <->
                 k = Pool.tx pool \/ In k (map fst (Pool.risks pool))) /\
  (keys_sorted (Pool.risks pool) -> keys_sorted (Pool.risks pool')).
Proof.
  unfold Pool.MakeRisk, registered; cbn [snd Pool.risks].
  split; [apply map_at_insert |].
  split; [| split].
  - intros k Hk. apply map_at_insert_other; [exact Z_compare_eq | exact Hk].
  - intros k. apply map_insert_keys. exact Z_compare_eq.
  - intros Hs. apply keys_sorted_sorted_by.
    apply map_insert_sorted_by;
      [exact Z_compare_eq | exact Z_compare_antisym | exact Z_compare_trans |].
    now apply keys_sorted_sorted_by.
Qed.

Section RegisteredTotals.
Context {T E L : Type} `{Number T} `{EventOps T E L}.
Hypothesis tx_set : forall (e : E) (x : DefaultTX.t T), ev_tx (ev_set_tx e x) = x.

Lemma MakeRisk_appends (n : nat) (pool : Pool.t T E) (event : E) (amount : T)
    (who : string) :
  dense n pool -> Z.of_nat n < INT_MAX ->
  Pool.risks (snd (Pool.MakeRisk pool event amount who)) =
  Pool.risks pool ++ [(Pool.tx pool, registered pool event amount who)].
Proof.
  intros Hd Hn.
  destruct (MakeRisk_dense tx_set event amount who Hd Hn)
    as (_ & _ & Hr).
  rewrite Hr. unfold registered. destruct Hd as [-> _]. reflexivity.
Qed.

Lemma MakeRisk_TotalPool (n : nat) (pool : Pool.t T E) (event : E)
    (amount : T) (who : string) :
  dense n pool -> Z.of_nat n < INT_MAX ->
  Pool.TotalPool (snd (Pool.MakeRisk pool event amount who)) =
  (Pool.TotalPool pool +! amount)%num.
Proof.
  intros Hd Hn. unfold Pool.TotalPool.
  rewrite (MakeRisk_appends event amount who Hd Hn), fold_left_app.
  cbn [fold_left snd]. unfold registered. now rewrite tx_set.
Qed.

Lemma register_all_TotalPool (regs : list (E * T * string)) :
  forall (n : nat) (pool : Pool.t T E),
  dense n pool -> Z.of_nat (n + List.length regs) <= INT_MAX ->
  Pool.TotalPool (snd (register_all pool regs)) =
  fold_left (fun acc r => (acc +! snd (fst r))%num) regs (Pool.TotalPool pool).
Proof.
  induction regs as [| [[event amount] who] regs IH]; intros n pool Hd Hn;
    cbn [register_all List.length fold_left fst snd] in *; [reflexivity |].
  assert (Hn' : Z.of_nat n < INT_MAX) by lia.
  destruct (MakeRisk_dense tx_set event amount who Hd Hn')
    as (_ & Hd' & _).
  pose proof (MakeRisk_TotalPool event amount who Hd Hn') as Htp.
  destruct (Pool.MakeRisk pool event amount who) as [id pool'] eqn:EM.
  cbn [snd] in Hd', Htp.
  specialize (IH (S n) pool' Hd'). rewrite <- Htp, <- IH by lia.
  now destruct (register_all pool' regs).
Qed.

End RegisteredTotals.

(** X2.  On a pool whose ids are [0 .. n-1] with the counter at [n], below
    the end of the [int] range, one call of [MakeRisk] adds the amount to
    [TotalPool()] and the new risk's winning amount to
    [TotalWinningAmount(level)], in the arithmetic of the pool: the new
    risk is the last the loops visit. *)
Theorem MakeRisk_adds_to_totals {T E L : Type} `{Number T} `{EventOps T E L}
    (tx_set : forall (e : E) (x : DefaultTX.t T), ev_tx (ev_set_tx e x) = x)
    (n : nat) (pool : Pool.t T E) (event : E) (amount : T) (who : string)
    (level : L) :
  dense n pool -> Z.of_nat n < INT_MAX ->
  let pool' := snd (Pool.MakeRisk pool event amount who) in
  Pool.TotalPool pool' = (Pool.TotalPool pool +! amount)%num /\
  Pool.TotalWinningAmount pool' level =
    (Pool.TotalWinningAmount pool level
     +! WinningAmount (registered pool event amount who) level)%num /\
  Pool.Fees pool' = ((Pool.TotalPool pool +! amount) *! Pool.fees pool)%num.
Proof.
  intros Hd Hn pool'. subst pool'.
  pose proof (MakeRisk_TotalPool tx_set event amount who Hd Hn) as Htp.
  split; [exact Htp |]. split.
  - unfold Pool.TotalWinningAmount.
    rewrite (MakeRisk_appends tx_set event amount who Hd Hn), fold_left_app.
    reflexivity.
  - unfold Pool.Fees. rewrite Htp. reflexivity.
Qed.

Lemma MakeRisk_adds_to_totals_witness :
  let pool : MutexPool.t Qc := main_mutex_pool in
  let pool' := snd (Pool.MakeRisk pool (MutexEvent.make "default")
                      (Q2Qc 100) "carol") in
  Pool.TotalPool pool' = (Pool.TotalPool pool + Q2Qc 100)%Qc.
Proof.
  intros pool pool'.
  destruct (@MakeRisk_adds_to_totals Qc (MutexEvent.t Qc) string _ _
              MutexEvent_tx_set 4%nat pool (MutexEvent.make "default")
              (Q2Qc 100) "carol"%string "default"%string)
    as (Htp & _).
  - split; reflexivity.
  - reflexivity.
  - exact Htp.
Defined.

(** X3.  A pool built by successive registrations on an empty pool holds,
    as [TotalPool()], the amounts added up from [0.] in the order of
    registration. *)
Theorem TotalPool_of_registrations {T E L : Type} `{Number T}
    `{EventOps T E L}
    (tx_set : forall (e : E) (x : DefaultTX.t T), ev_tx (ev_set_tx e x) = x)
    (regs : list (E * T * string)) :
  Z.of_nat (List.length regs) <= INT_MAX ->
  Pool.TotalPool (pool_of regs) = registered_total regs.
Proof.
  intros Hn. unfold pool_of, registered_total.
  now rewrite (register_all_TotalPool tx_set regs (n := 0%nat)
                 (pool := Pool.empty) (dense_empty (T := T) (E := E))).
Qed.

Lemma TotalPool_of_registrations_witness :
  Pool.TotalPool
    (pool_of [ (LongShortEvent.make Long 50, 1e15%float, "barney"%string);
               (LongShortEvent.make Short 40, 4e15%float, "arnold"%string) ])
  = (0 + 1e15 + 4e15)%float.
Proof.
  etransitivity.
  - apply (@TotalPool_of_registrations float (LongShortEvent.t float) Z _ _
             LongShortEvent_tx_set).
    vm_compute. discriminate.
  - reflexivity.
Defined.

(** ** The category map *)

Lemma filter_none {A : Type} (p : A -> bool) (l : list A) :
  existsb p l = false -> filter p l = [].
Proof.
  induction l as [| x l IH]; simpl; [reflexivity |].
  destruct (p x); [discriminate | exact IH].
Qed.

Section Categories.
Context {T E L : Type} `{Number T} `{EventOps T E L}.

Lemma CategoryMap_loop (c : string) (m : list (Z * E)) :
  forall result : list (string * T),
  map_at String.compare c
    (fold_left
       (fun result kr =>
          let c := Category (snd kr) in
          let old := match map_at String.compare c result with
                     | Some x => x
                     | None => zero
                     end in
          map_insert String.compare c
            (old +! DefaultTX.amount (ev_tx (snd kr)))%num result)
       m result)
  = if existsb (in_category c) m
    then Some (fold_left
                 (fun acc kr => (acc +! DefaultTX.amount (ev_tx (snd kr)))%num)
                 (filter (in_category c) m)
                 match map_at String.compare c result with
                 | Some x => x
                 | None => zero
                 end)
    else map_at String.compare c result.
Proof.
  induction m as [| kr m IH]; intros result; [reflexivity |].
  cbn [fold_left existsb filter]. rewrite IH.
  destruct (in_category c kr) eqn:Ec; unfold in_category in Ec.
  - apply String.eqb_eq in Ec. rewrite Ec.
    rewrite map_at_insert_same by exact string_compare_eq.
    cbn [orb fold_left].
    destruct (existsb (in_category c) m) eqn:Ex; [reflexivity |].
    now rewrite filter_none by exact Ex.
  - apply String.eqb_neq in Ec.
    rewrite map_at_insert_other;
      [reflexivity | exact string_compare_eq | intros Heq; now apply Ec].
Qed.

Lemma CategoryMap_sorted (pool : Pool.t T E) :
  sorted_by String.compare (map fst (Pool.CategoryMap pool)).
Proof.
  unfold Pool.CategoryMap.
  assert (Hgen : forall (m : list (Z * E)) (result : list (string * T)),
            sorted_by String.compare (map fst result) ->
            sorted_by String.compare
              (map fst
                 (fold_left
                    (fun result kr =>
                       let c := Category (snd kr) in
                       let old := match map_at String.compare c result with
                                  | Some x => x
                                  | None => zero
                                  end in
                       map_insert String.compare c
                         (old +! DefaultTX.amount (ev_tx (snd kr)))%num result)
                    m result))).
  { induction m as [| kr m IH]; intros result Hs; [exact Hs |].
    cbn [fold_left]. apply IH.
    apply map_insert_sorted_by;
      [exact string_compare_eq | exact String.compare_antisym
       | exact string_compare_trans | exact Hs]. }
  apply Hgen. constructor.
Qed.

End Categories.

(** X4.  [CategoryMap()] has one entry per category staked on, in the
    order of the strings, and the entry of a category is the sum of the
    amounts of its risks, added up from [0.] in the order of the ids; a
    category nobody staked on has no entry. *)
Theorem CategoryMap_lookup {T E L : Type} `{Number T} `{EventOps T E L}
    (pool : Pool.t T E) (c : string) :
  sorted_by String.compare (map fst (Pool.CategoryMap pool)) /\
  map_at String.compare c (Pool.CategoryMap pool) =
    if existsb (in_category c) (Pool.risks pool)
    then Some (total (fun r => DefaultTX.amount (ev_tx r))
                 (filter (in_category c) (Pool.risks pool)))
    else None.
Proof.
  split; [apply CategoryMap_sorted |].
  unfold Pool.CategoryMap. now rewrite CategoryMap_loop.
Qed.

(** X5.  In exact arithmetic the entry of a category in the category map
    of a category pool is the total winning amount at that category; a
    category without an entry has no winner and a winning amount of 0. *)
Theorem MutexPool_CategoryMap_winning_amount (pool : MutexPool.t Qc)
    (c : string) :
  match map_at String.compare c (Pool.CategoryMap pool) with
  | Some staked => staked = Pool.TotalWinningAmount pool c
  | None =>
      Pool.TotalWinningAmount pool c = 0%Qc /\
      Forall (fun kr => IsWinner (snd kr) c = false) (Pool.risks pool)
  end.
Proof.
  pose proof (@TotalWinningAmount_qsum (MutexEvent.t Qc) string _
                (@MutexEvent_winning_amount Qc Exact) pool c) as Htw.
  unfold Pool.CategoryMap. rewrite CategoryMap_loop.
  destruct (existsb (in_category c) (Pool.risks pool)) eqn:Ex.
  - rewrite Htw.
    rewrite <- (qsum_filter
                  (fun kr : Z * MutexEvent.t Qc =>
                     DefaultTX.amount (ev_tx (snd kr)))
                  (fun kr => IsWinner (snd kr) c)).
    exact (total_qsum (fun r : MutexEvent.t Qc => DefaultTX.amount (ev_tx r))
             (filter (in_category c) (Pool.risks pool))).
  - assert (Hall : Forall (fun kr : Z * MutexEvent.t Qc =>
                             IsWinner (snd kr) c = false) (Pool.risks pool)).
    { apply Forall_forall. intros kr Hin.
      destruct (IsWinner (snd kr) c) eqn:Ew; [| reflexivity].
      assert (Ht : existsb (in_category c) (Pool.risks pool) = true)
        by (apply existsb_exists; now exists kr).
      congruence. }
    split; [| exact Hall].
    rewrite Htw. rewrite (qsum_ext _ (fun _ => 0%Qc)).
    + clear. induction (Pool.risks pool) as [| x l IH]; simpl;
        [reflexivity |]. rewrite IH. ring.
    + intros kr Hin. rewrite Forall_forall in Hall. now rewrite (Hall kr Hin).
Qed.

(** ** The winning amounts over all levels *)

Lemma for_each_pure {A S : Type} (g : A -> S -> S) (l : list A) :
  forall s : S,
  for_each (fun a s => (g a s, Returns tt)) l s =
  (fold_left (fun s a => g a s) l s, Returns tt).
Proof.
  induction l as [| a l IH]; intros s; simpl; [reflexivity | apply IH].
Qed.

Lemma qsum_plus {A : Type} (f g : A -> Qc) (l : list A) :
  qsum (fun x => (f x + g x)%Qc) l = (qsum f l + qsum g l)%Qc.
Proof.
  induction l as [| x l IH]; simpl; [ring |]. rewrite IH. ring.
Qed.

Lemma qsum_zero {A : Type} (f : A -> Qc) (l : list A) :
  (forall x, In x l -> f x = 0%Qc) -> qsum f l = 0%Qc.
Proof.
  induction l as [| x l IH]; intros Hf; simpl; [reflexivity |].
  rewrite IH by (intros y Hy; apply Hf; now right).
  rewrite (Hf x) by now left. ring.
Qed.

Lemma qsum_swap {A B : Type} (F : A -> B -> Qc) (la : list A) (lb : list B) :
  qsum (fun a => qsum (F a) lb) la = qsum (fun b => qsum (fun a => F a b) la) lb.
Proof.
  induction la as [| a la IH]; simpl.
  - symmetry. now apply qsum_zero.
  - now rewrite IH, qsum_plus.
Qed.

(** One element of a duplicate-free list passes [p]: the sum picks it. *)
Lemma qsum_single {A : Type} (p : A -> bool) (a : Qc) (x : A) (l : list A) :
  NoDup l -> In x l -> (forall y, In y l -> p y = true <-> y = x) ->
  qsum (fun y => if p y then a else 0%Qc) l = a.
Proof.
  induction 1 as [| y l Hy Hnd IH]; intros Hin Hp; [destruct Hin |].
  simpl. destruct (p y) eqn:Ey.
  - assert (y = x) by (apply Hp; [now left | exact Ey]). subst y.
    rewrite qsum_zero; [ring |].
    intros z Hz. destruct (p z) eqn:Ez; [| reflexivity].
    assert (z = x) by (apply Hp; [now right | exact Ez]). now subst z.
  - destruct Hin as [-> | Hin].
    + assert (Ht : p x = true) by (apply Hp; [now left | reflexivity]).
      congruence.
    + rewrite IH; [ring | exact Hin |].
      intros z Hz. apply Hp. now right.
Qed.

Section LevelOrder.
Context {T E L : Type} `{Number T} `{EventOps T E L}.
Hypothesis level_eq : forall x y : L, level_compare x y = Eq <-> x = y.
Hypothesis level_antisym :
  forall x y : L, level_compare x y = CompOpp (level_compare y x).
Hypothesis level_trans :
  forall x y z : L,
  level_compare x y = Lt -> level_compare y z = Lt -> level_compare x z = Lt.

Lemma collect_levels_sorted_by (pool : Pool.t T E) :
  sorted_by level_compare (Pool.collect_levels pool).
Proof.
  unfold Pool.collect_levels.
  assert (Hgen : forall (m : list (Z * E)) (s : list L),
            sorted_by level_compare s ->
            sorted_by level_compare
              (fold_left
                 (fun levels kr =>
                    set_insert level_compare (GetLevel (snd kr)) levels) m s)).
  { induction m as [| kr m IH]; intros s Hs; simpl; [assumption |].
    apply IH. now apply set_insert_sorted_by. }
  apply Hgen. constructor.
Qed.

End LevelOrder.

Lemma MutexPool_levels_sorted {T : Type} `{Number T} (pool : MutexPool.t T) :
  sorted_by String.compare (Pool.collect_levels pool).
Proof.
  exact (@collect_levels_sorted_by T (MutexEvent.t T) string MutexEvent.ops
           string_compare_eq String.compare_antisym string_compare_trans pool).
Qed.

Lemma MutexPool_levels_in {T : Type} `{Number T} (pool : MutexPool.t T)
    (l : string) :
  In l (Pool.collect_levels pool) <->
  exists kr, In kr (Pool.risks pool) /\ MutexEvent.event (snd kr) = l.
Proof.
  exact (@in_collect_levels T (MutexEvent.t T) string MutexEvent.ops
           String.compare_eq_iff pool l).
Qed.

(** X6.  In a category pool every stake wins at exactly one level of the
    level set, its own category: in exact arithmetic
    [PoolWinningAmount()], the winning amounts added up over the level
    set, is [TotalPool()]. *)
Theorem MutexPool_PoolWinningAmount (pool : MutexPool.t Qc) :
  Pool.PoolWinningAmount pool = Returns (Pool.TotalPool pool).
Proof.
  unfold Pool.PoolWinningAmount, Pool.ForEachLevel, Pool.MakeLevelSet.
  cbn [level_ticks MutexEvent.ops].
  rewrite (for_each_pure
             (fun (level : string) (result : Qc) =>
                (result +! Pool.TotalWinningAmount pool level)%num)).
  f_equal. exact_arith.
  rewrite (fold_left_qsum (fun l => Pool.TotalWinningAmount pool l)).
  rewrite (qsum_ext _
             (fun l => qsum (fun kr : Z * MutexEvent.t Qc =>
                               if IsWinner (snd kr) l
                               then DefaultTX.amount (ev_tx (snd kr))
                               else 0%Qc) (Pool.risks pool)))
    by (intros l _;
        exact (@TotalWinningAmount_qsum (MutexEvent.t Qc) string _
                 (@MutexEvent_winning_amount Qc Exact) pool l)).
  rewrite qsum_swap.
  rewrite (@TotalPool_qsum (MutexEvent.t Qc) string _ pool).
  rewrite Qcplus_0_l. apply qsum_ext. intros kr Hin.
  apply (qsum_single (fun l => IsWinner (snd kr) l) _
           (x := MutexEvent.event (snd kr))).
  - apply (sorted_by_NoDup string_compare_eq). apply MutexPool_levels_sorted.
  - apply MutexPool_levels_in. now exists kr.
  - intros l _. cbn [IsWinner MutexEvent.ops]. unfold MutexEvent.IsWinner.
    rewrite String.eqb_eq. split; congruence.
Qed.

(** ** The pro-forma return of a hypothetical stake *)

Section SelectLookup.
Context {V W : Type} (keep : V -> bool) (conv : V -> W).

Lemma select_keys_above (k : Z) (m : list (Z * V)) :
  Forall (fun kv => k < fst kv) m ->
  Forall (fun kw => k < fst kw) (select keep conv m).
Proof.
  unfold select. induction 1 as [| [k' r] m Hk _ IH]; simpl; [constructor |].
  destruct (keep r); simpl; [constructor |]; assumption.
Qed.

Lemma map_at_none_above {U : Type} (k : Z) (m : list (Z * U)) :
  Forall (fun kv => k < fst kv) m -> map_at Z.compare k m = None.
Proof.
  induction 1 as [| [k' r] m Hk _ IH]; simpl; [reflexivity |].
  simpl in Hk. apply Z.compare_lt_iff in Hk. now rewrite Hk.
Qed.

(** Looking a key up among the selected entries of a well-formed map. *)
Lemma map_at_select (k : Z) (m : list (Z * V)) :
  keys_sorted m ->
  map_at Z.compare k (select keep conv m) =
  match map_at Z.compare k m with
  | Some r => if keep r then Some (conv r) else None
  | None => None
  end.
Proof.
  unfold keys_sorted. induction m as [| [k' r] m IH]; simpl; intros Hs;
    [reflexivity |].
  inversion Hs as [| ? ? Hs' Hall]; subst.
  assert (Habove : Forall (fun kv : Z * V => k' < fst kv) m).
  { apply Forall_forall. intros kv Hin. rewrite Forall_forall in Hall.
    apply Hall. now apply in_map. }
  unfold select in *. cbn [filter snd].
  destruct (keep r) eqn:Ek; cbn [map map_at fst snd].
  - destruct (k ?= k') eqn:E; [now rewrite Ek | now apply IH ..].
  - destruct (k ?= k') eqn:E; [| now apply IH ..].
    apply Z.compare_eq in E. subst k'. rewrite Ek.
    apply map_at_none_above. now apply select_keys_above.
Qed.

Lemma select_map {X : Type} (g : W -> X) (m : list (Z * V)) :
  map (fun kw => (fst kw, g (snd kw))) (select keep conv m) =
  select keep (fun r => g (conv r)) m.
Proof. unfold select. now rewrite map_map. Qed.

End SelectLookup.

Section HypotheticalRisk.
Context {T E L : Type} `{Number T} `{EventOps T E L}.

Lemma MakeRisk_keys_sorted (pool : Pool.t T E) (event : E) (amount : T)
    (who : string) :
  keys_sorted (Pool.risks pool) ->
  keys_sorted (Pool.risks (snd (Pool.MakeRisk pool event amount who))).
Proof.
  intros Hs. unfold Pool.MakeRisk; cbn [snd Pool.risks].
  apply keys_sorted_sorted_by.
  apply map_insert_sorted_by;
    [exact Z_compare_eq | exact Z_compare_antisym | exact Z_compare_trans |].
  now apply keys_sorted_sorted_by.
Qed.

Lemma MakeRisk_stored (pool : Pool.t T E) (event : E) (amount : T)
    (who : string) :
  map_at Z.compare (Pool.tx pool)
    (Pool.risks (snd (Pool.MakeRisk pool event amount who))) =
  Some (registered pool event amount who).
Proof. apply map_at_insert. Qed.

End HypotheticalRisk.

(** X7.  On a category pool with a well-formed map, [ProFormaReturn]
    leaves the pool as it is and values the hypothetical stake in the pool
    with the stake added: the call stops on the conservation assertion of
    that pool if it fails; otherwise an event that wins at the level comes
    back as the settled winner, with the flat payoff of the enlarged pool,
    and an event that loses comes back as a default-constructed risk,
    whose payoff is [0.]. *)
Theorem MutexPool_ProFormaReturn {T : Type} `{Number T} (pool : MutexPool.t T)
    (event : MutexEvent.t T) (amount : T) (level : string) :
  keys_sorted (Pool.risks pool) ->
  let pool1 := snd (Pool.MakeRisk pool event amount "Hypothetical") in
  MutexPool.ProFormaReturn pool event amount level =
  (pool,
   if MutexPool.balanced pool1 level then
     Returns
       (if MutexEvent.IsWinner event level
        then MutexPool.winning
               (Pool.TotalPool pool1 *! (one -! Pool.fees pool))%num
               (Pool.TotalWinningAmount pool1 level)
               (registered pool event amount "Hypothetical")
        else MutexEvent.default)
   else AssertionFailed).
Proof.
  intros Hs pool1.
  pose proof (MakeRisk_keys_sorted pool event amount "Hypothetical" Hs) as Hs1.
  pose proof (MakeRisk_stored pool event amount "Hypothetical") as Hst.
  fold pool1 in Hs1, Hst.
  unfold MutexPool.ProFormaReturn, Pool.ProFormaReturn,
    Pool.ProFormaReturnHelper.
  change (Pool.MakeRisk pool event amount "Hypothetical")
    with (Pool.tx pool, pool1).
  cbv beta iota. unfold MutexPool.MakeWinningRisks.
  destruct (MutexPool.balanced pool1 level); [| reflexivity].
  rewrite (MutexPool_settle_sorted pool1 level Hs1). cbn [fst].
  rewrite (map_at_select _ _ (Pool.tx pool) Hs1), Hst.
  change (MutexEvent.IsWinner (registered pool event amount "Hypothetical")
            level) with (MutexEvent.IsWinner event level).
  now destruct (MutexEvent.IsWinner event level).
Qed.

Lemma MutexPool_ProFormaReturn_witness :
  exists b : MutexPool.Risk float,
    MutexPool.ProFormaReturn (main_mutex_pool (T := float))
      (MutexEvent.make "default") 100%float "default"
    = (main_mutex_pool, Returns b) /\
    DefaultTX.id (MutexEvent.tx b) = 4 /\
    PoolEvent.payoff (MutexEvent.base b) = PrimFloat.div 17557%float 3100%float.
Proof.
  eexists. split.
  - etransitivity.
    + apply MutexPool_ProFormaReturn. apply main_mutex_pool_sorted.
    + vm_compute. reflexivity.
  - vm_compute. split; reflexivity.
Defined.

(** X8.  The same for a directional pool with a well-formed map: both
    assertions are those of the pool with the stake added; a winning event
    comes back as the winner both loops made of the stored stake, a losing
    one as a default-constructed risk. *)
Theorem LongShortPool_ProFormaReturn {T : Type} `{Number T}
    (pool : LongShortPool.t T) (event : LongShortEvent.t T) (amount : T)
    (level : Z) :
  keys_sorted (Pool.risks pool) ->
  let pool1 := snd (Pool.MakeRisk pool event amount "Hypothetical") in
  let win_value := Pool.TotalWinningAmount pool1 level in
  LongShortPool.ProFormaReturn pool event amount level =
  (pool,
   if LongShortPool.balanced pool1 level
      && LongShortPool.redistributed pool1 level then
     Returns
       (if LongShortEvent.IsWinner event level
        then LongShortPool.reweigh
               (LongShortPool.total_inverse_distance_to_pin
                  (LongShortPool.settle pool1 level))
               win_value
               (LongShortPool.winning
                  (Pool.TotalPool pool1 *! (one -! Pool.fees pool))%num
                  win_value level
                  (registered pool event amount "Hypothetical"))
        else LongShortEvent.default)
   else AssertionFailed).
Proof.
  intros Hs pool1 win_value.
  pose proof (MakeRisk_keys_sorted pool event amount "Hypothetical" Hs) as Hs1.
  pose proof (MakeRisk_stored pool event amount "Hypothetical") as Hst.
  fold pool1 in Hs1, Hst.
  unfold LongShortPool.ProFormaReturn, Pool.ProFormaReturn,
    Pool.ProFormaReturnHelper.
  change (Pool.MakeRisk pool event amount "Hypothetical")
    with (Pool.tx pool, pool1).
  cbv beta iota. unfold LongShortPool.MakeWinningRisks.
  destruct (LongShortPool.balanced pool1 level); [| reflexivity].
  destruct (LongShortPool.redistributed pool1 level); [| reflexivity].
  cbn [andb].
  rewrite (LongShortPool_settle_sorted pool1 level Hs1).
  cbn [LongShortPool.winning_risks
         LongShortPool.total_inverse_distance_to_pin].
  rewrite select_map.
  rewrite (map_at_select _ _ (Pool.tx pool) Hs1), Hst.
  change (LongShortEvent.IsWinner
            (registered pool event amount "Hypothetical") level)
    with (LongShortEvent.IsWinner event level).
  now destruct (LongShortEvent.IsWinner event level).
Qed.

Lemma LongShortPool_ProFormaReturn_witness :
  exists b : LongShortPool.Risk float,
    LongShortPool.ProFormaReturn (main_ls_pool (T := float))
      (LongShortEvent.make Long 50) 100%float 56
    = (main_ls_pool, Returns b) /\
    DefaultTX.id (LongShortEvent.tx b) = 7 /\
    DefaultTX.amount (LongShortEvent.tx b) = 100%float.
Proof.
  eexists. split.
  - etransitivity.
    + apply LongShortPool_ProFormaReturn. apply main_ls_pool_sorted.
    + vm_compute. reflexivity.
  - vm_compute. split; reflexivity.
Defined.

(** ** The level set *)

Lemma set_insert_last (k : Z) (s : list Z) :
  Forall (fun x => x < k) s -> set_insert Z.compare k s = s ++ [k].
Proof.
  induction 1 as [| x s Hx _ IH]; simpl; [reflexivity |].
  apply Z.lt_gt, Z.compare_gt_iff in Hx.
  rewrite (proj2 (Z.compare_gt_iff k x) Hx). now rewrite IH.
Qed.

Lemma last_cons_default {A : Type} (a : A) (s : list A) (d d' : A) :
  last (a :: s) d = last (a :: s) d'.
Proof.
  revert a. induction s as [| b s IH]; intros a; [reflexivity |].
  change (last (b :: s) d = last (b :: s) d'). apply IH.
Qed.

Lemma LongShortPool_levels_in {T : Type} `{Number T}
    (pool : LongShortPool.t T) (l : Z) :
  In l (Pool.collect_levels pool) <->
  exists kr, In kr (Pool.risks pool) /\ LongShortEvent.price (snd kr) = l.
Proof.
  exact (@in_collect_levels T (LongShortEvent.t T) Z LongShortEvent.ops
           Z.compare_eq pool l).
Qed.

(** X9.  The level set of a category pool always exists; it lists the
    categories staked on, each once, in the order of the strings. *)
Theorem MutexPool_level_set {T : Type} `{Number T} (pool : MutexPool.t T) :
  exists levels : list string,
    Pool.MakeLevelSet pool = Returns levels /\
    sorted_by String.compare levels /\
    NoDup levels /\
    forall l, In l levels <->
              exists kr, In kr (Pool.risks pool) /\
                         MutexEvent.event (snd kr) = l.
Proof.
  exists (Pool.collect_levels pool).
  pose proof (MutexPool_levels_sorted pool) as Hs.
  split; [reflexivity |]. split; [exact Hs |]. split.
  - exact (sorted_by_NoDup string_compare_eq Hs).
  - apply MutexPool_levels_in.
Qed.

Lemma LongShortPool_MakeLevelSet_ticks {T : Type} `{Number T}
    (pool : LongShortPool.t T) :
  Pool.risks pool <> [] ->
  Forall (fun kr => INT_MIN < LongShortEvent.price (snd kr) < INT_MAX)
    (Pool.risks pool) ->
  let prices := Pool.collect_levels pool in
  Pool.MakeLevelSet pool =
    Returns ((hd 0 prices - 1) :: prices ++ [last prices 0 + 1]).
Proof.
  intros Hne Hrange prices.
  pose proof (collect_levels_sorted pool) as Hs. fold prices in Hs.
  pose proof (LongShortPool_levels_in pool) as Hin. fold prices in Hin.
  assert (Hfit : forall l, In l prices -> INT_MIN < l < INT_MAX).
  { intros l Hl. apply Hin in Hl. destruct Hl as [kr [Hkr <-]].
    rewrite Forall_forall in Hrange. now apply Hrange. }
  unfold Pool.MakeLevelSet. cbn [level_ticks LongShortEvent.ops].
  fold prices. destruct prices as [| min s] eqn:Ep.
  - exfalso. destruct (Pool.risks pool) as [| kr m] eqn:Er; [now apply Hne |].
    apply (proj2 (Hin (LongShortEvent.price (snd kr)))).
    exists kr. split; [now left | reflexivity].
  - cbn [hd level_compare].
    destruct (sorted_last_greatest Hs min min (or_introl eq_refl))
      as [Hmax Hlast].
    pose proof (Hfit min (or_introl eq_refl)) as Hmin.
    pose proof (Hfit _ Hlast) as Hmx.
    rewrite (last_cons_default min s 0 min).
    set (max := last (min :: s) min) in *.
    rewrite !wrap_int_id by (unfold in_int, INT_MIN, INT_MAX in *; lia).
    assert (Eunder : set_insert Z.compare (min - 1) (min :: s)
                     = (min - 1) :: min :: s).
    { cbn [set_insert].
      now rewrite (proj2 (Z.compare_lt_iff (min - 1) min)) by lia. }
    change (@level_compare T (LongShortEvent.t T) Z _) with Z.compare.
    rewrite Eunder, set_insert_last; [reflexivity |].
    constructor; [lia |]. apply Forall_forall. intros z Hz.
    destruct (sorted_last_greatest Hs min z Hz) as [Hz' _]. fold max in Hz'.
    lia.
Qed.

(** X10.  The level set of a directional pool that has a stake, with all
    prices strictly inside the range of [int]: the prices staked on, each
    once and in increasing order, with one tick under the lowest in front
    and one tick over the highest at the end. *)
Theorem LongShortPool_level_set {T : Type} `{Number T}
    (pool : LongShortPool.t T) :
  Pool.risks pool <> [] ->
  Forall (fun kr => INT_MIN < LongShortEvent.price (snd kr) < INT_MAX)
    (Pool.risks pool) ->
  let prices := Pool.collect_levels pool in
  sorted_by Z.compare prices /\
  (forall l, In l prices <->
             exists kr, In kr (Pool.risks pool) /\
                        LongShortEvent.price (snd kr) = l) /\
  Pool.MakeLevelSet pool =
    Returns ((hd 0 prices - 1) :: prices ++ [last prices 0 + 1]).
Proof.
  intros Hne Hrange prices. split; [| split].
  - exact (collect_levels_sorted pool).
  - exact (LongShortPool_levels_in pool).
  - now apply LongShortPool_MakeLevelSet_ticks.
Qed.

Lemma LongShortPool_level_set_witness :
  Pool.MakeLevelSet (main_ls_pool (T := float))
  = Returns [39; 40; 50; 55; 60; 61].
Proof.
  etransitivity.
  - apply LongShortPool_level_set.
    + vm_compute. discriminate.
    + apply (Forall_forallb _
               (fun kr => (INT_MIN <? LongShortEvent.price (snd kr))
                          && (LongShortEvent.price (snd kr) <? INT_MAX))).
      * intros kr Hkr. apply andb_true_iff in Hkr.
        now rewrite <- !Z.ltb_lt.
      * vm_compute. reflexivity.
  - vm_compute. reflexivity.
Defined.

(** ** The pro-forma payoff curve *)

Section PayoffCurve.
Context {T E L : Type} `{Number T} `{EventOps T E L}.
Hypothesis level_eq : forall x y : L, level_compare x y = Eq <-> x = y.
Hypothesis level_antisym :
  forall x y : L, level_compare x y = CompOpp (level_compare y x).
Hypothesis level_trans :
  forall x y z : L,
  level_compare x y = Lt -> level_compare y z = Lt -> level_compare x z = Lt.
Variable MakeWinningRisks : Pool.t T E -> L -> Outcome (list (Z * E)).

Lemma MakeLevelSet_sorted_by (pool : Pool.t T E) (levels : list L) :
  Pool.MakeLevelSet pool = Returns levels -> sorted_by level_compare levels.
Proof.
  pose proof (collect_levels_sorted_by level_eq level_antisym level_trans pool)
    as Hs.
  unfold Pool.MakeLevelSet.
  destruct level_ticks as [[under over] |].
  - destruct (Pool.collect_levels pool) as [| min s] eqn:Ec; [discriminate |].
    intros [= <-].
    pose proof (@set_insert_sorted_by L level_compare level_eq level_antisym
                  level_trans (under min) _ Hs) as Hs1.
    exact (@set_insert_sorted_by L level_compare level_eq level_antisym
             level_trans (over (last (min :: s) min)) _ Hs1).
  - now intros [= <-].
Qed.

Lemma curve_loop_points (pool : Pool.t T E) (event : E) (amount : T)
    (levels : list L) :
  forall result : list (L * T),
  sorted_by level_compare levels ->
  Forall (fun kv => Forall (fun l => level_compare (fst kv) l = Lt) levels)
    result ->
  let r :=
    for_each
      (fun level (s : Pool.t T E * list (L * T)) =>
         let '(this, result) := s in
         match Pool.ProFormaReturn MakeWinningRisks this event amount
                 level with
         | (this', Returns b) =>
             ((this', map_insert level_compare level
                        (PoolEvent.payoff (ev_base b)) result),
              Returns tt)
         | (this', AssertionFailed) => ((this', result), AssertionFailed)
         | (this', Undefined) => ((this', result), Undefined)
         end)
      levels (pool, result) in
  match curve_points
          (fun l => snd (Pool.ProFormaReturn MakeWinningRisks pool event
                           amount l))
          (fun b => PoolEvent.payoff (ev_base b)) levels with
  | Returns points => r = ((pool, result ++ points), Returns tt)
  | AssertionFailed => snd r = AssertionFailed
  | Undefined => snd r = Undefined
  end.
Proof.
  induction levels as [| level levels IH]; intros result Hs Hbelow;
    cbn [for_each curve_points].
  - now rewrite app_nil_r.
  - pose proof (ProFormaReturn_pool MakeWinningRisks pool event amount level)
      as Hp.
    destruct (Pool.ProFormaReturn MakeWinningRisks pool event amount level)
      as [this' [b | |]]; cbn [fst snd] in *; subst this'; try reflexivity.
    inversion Hs as [| ? ? Hs' Hall]; subst.
    assert (Hlast : Forall (fun kv : L * T =>
                              level_compare (fst kv) level = Lt) result).
    { revert Hbelow. apply Forall_impl. intros kv Hkv. now inversion Hkv. }
    rewrite (@map_insert_last_by L level_compare level_antisym T level
               (PoolEvent.payoff (ev_base b)) result Hlast).
    specialize (IH (result ++ [(level, PoolEvent.payoff (ev_base b))]) Hs').
    cbv zeta in IH.
    destruct (curve_points _ _ levels) as [points | |].
    + rewrite IH; [now rewrite <- app_assoc |].
      apply Forall_app. split.
      * revert Hbelow. apply Forall_impl. intros kv Hkv. now inversion Hkv.
      * constructor; [exact Hall | constructor].
    + apply IH. apply Forall_app. split.
      * revert Hbelow. apply Forall_impl. intros kv Hkv. now inversion Hkv.
      * constructor; [exact Hall | constructor].
    + apply IH. apply Forall_app. split.
      * revert Hbelow. apply Forall_impl. intros kv Hkv. now inversion Hkv.
      * constructor; [exact Hall | constructor].
Qed.

End PayoffCurve.

(** X11.  [ProFormaPayoffCurve] values the stake once per level of the
    pool's own level set, each time against the unchanged pool: when every
    valuation returns, the curve has one point per level, in the order of
    the levels, holding the payoff [ProFormaReturn] gives there; the first
    valuation that fails ends the call, and so does a level set that
    cannot be made. *)
Theorem ProFormaPayoffCurve_points {T E L : Type} `{Number T}
    `{EventOps T E L}
    (level_eq : forall x y : L, level_compare x y = Eq <-> x = y)
    (level_antisym :
       forall x y : L, level_compare x y = CompOpp (level_compare y x))
    (level_trans :
       forall x y z : L,
       level_compare x y = Lt -> level_compare y z = Lt ->
       level_compare x z = Lt)
    (MakeWinningRisks : Pool.t T E -> L -> Outcome (list (Z * E)))
    (pool : Pool.t T E) (event : E) (amount : T) :
  Pool.ProFormaPayoffCurve MakeWinningRisks pool event amount =
  (pool,
   match Pool.MakeLevelSet pool with
   | Returns levels =>
       curve_points
         (fun l => snd (Pool.ProFormaReturn MakeWinningRisks pool event
                          amount l))
         (fun b => PoolEvent.payoff (ev_base b)) levels
   | AssertionFailed => AssertionFailed
   | Undefined => Undefined
   end).
Proof.
  pose proof (ProFormaPayoffCurve_pool MakeWinningRisks pool event amount)
    as Hp.
  unfold Pool.ProFormaPayoffCurve, Pool.ForEachLevel in *.
  destruct (Pool.MakeLevelSet pool) as [levels | |] eqn:El; try reflexivity.
  pose proof (MakeLevelSet_sorted_by level_eq level_antisym level_trans
                pool El) as Hs.
  pose proof (curve_loop_points level_antisym MakeWinningRisks pool event
                amount (result := []) Hs (Forall_nil _)) as Hloop.
  cbv zeta in Hloop.
  match type of Hloop with
  | context [for_each ?f levels (pool, [])] =>
      destruct (for_each f levels (pool, [])) as [[pool' result] o]
  end.
  assert (Hpool : pool' = pool) by now destruct o.
  cbn [fst snd] in Hloop. subst pool'.
  destruct (curve_points _ _ levels) as [points | |].
  - now inversion Hloop.
  - now subst o.
  - now subst o.
Qed.

Lemma ProFormaPayoffCurve_points_witness :
  MutexPool.ProFormaPayoffCurve (main_mutex_pool (T := float))
    (MutexEvent.make "default") 100%float
  = (main_mutex_pool,
     Returns [("default", PrimFloat.div 17557%float 3100%float);
              ("no_default", 0%float)]).
Proof.
  etransitivity.
  - apply (@ProFormaPayoffCurve_points float (MutexEvent.t float) string
             Binary64 MutexEvent.ops string_compare_eq String.compare_antisym string_compare_trans).
  - vm_compute. reflexivity.
Defined.

(** ** The loops over the level set on a pool without stakes *)

(** X12.  On a pool without stakes the two loops over the level set end
    differently: in a directional pool the level set cannot be made, and
    with it neither [PoolWinningAmount()] nor [ProFormaPayoffCurve] has a
    defined result; in a category pool the level set is empty, the first
    returns [0.] and the second an empty curve. *)
Theorem empty_pool_level_loops {T : Type} `{Number T} :
  (forall (pool : LongShortPool.t T) (event : LongShortEvent.t T) (amount : T),
     Pool.risks pool = [] ->
     Pool.PoolWinningAmount pool = Undefined /\
     LongShortPool.ProFormaPayoffCurve pool event amount = (pool, Undefined))
  /\
  (forall (pool : MutexPool.t T) (event : MutexEvent.t T) (amount : T),
     Pool.risks pool = [] ->
     Pool.PoolWinningAmount pool = Returns zero /\
     MutexPool.ProFormaPayoffCurve pool event amount = (pool, Returns [])).
Proof.
  split; intros pool event amount Hnil.
  - unfold LongShortPool.ProFormaPayoffCurve, Pool.ProFormaPayoffCurve,
      Pool.PoolWinningAmount, Pool.ForEachLevel, Pool.MakeLevelSet,
      Pool.collect_levels.
    rewrite Hnil. split; reflexivity.
  - unfold MutexPool.ProFormaPayoffCurve, Pool.ProFormaPayoffCurve,
      Pool.PoolWinningAmount, Pool.ForEachLevel, Pool.MakeLevelSet,
      Pool.collect_levels.
    rewrite Hnil. split; reflexivity.
Qed.

Lemma empty_pool_level_loops_witness :
  Pool.PoolWinningAmount (Pool.empty : LongShortPool.t float) = Undefined /\
  Pool.PoolWinningAmount (Pool.empty : MutexPool.t float) = Returns 0%float.
Proof.
  destruct (@empty_pool_level_loops float Binary64) as [Hls Hmutex]. split.
  - exact (proj1 (Hls Pool.empty (LongShortEvent.make Long 50) 100%float
                    eq_refl)).
  - exact (proj1 (Hmutex Pool.empty (MutexEvent.make "default") 100%float
                    eq_refl)).
Defined.

(** ** Who is in the mapping a settlement returns *)

Lemma select_keys_sorted {V W : Type} (keep : V -> bool) (conv : V -> W)
    (m : list (Z * V)) :
  keys_sorted m -> keys_sorted (select keep conv m).
Proof.
  unfold keys_sorted. induction m as [| [k r] m IH]; simpl; intros Hs;
    [constructor |].
  inversion Hs as [| ? ? Hs' Hall]; subst.
  unfold select in *. cbn [filter snd].
  destruct (keep r); cbn [map fst]; [| now apply IH].
  constructor; [now apply IH |].
  assert (Habove : Forall (fun kv : Z * V => k < fst kv) m).
  { apply Forall_forall. intros kv Hin. rewrite Forall_forall in Hall.
    apply Hall. now apply in_map. }
  apply (select_keys_above keep conv) in Habove. unfold select in Habove.
  apply Forall_forall. intros z Hz. apply in_map_iff in Hz.
  destruct Hz as [kw [<- Hkw]]. rewrite Forall_forall in Habove.
  now apply Habove.
Qed.

(** X13.  The mapping a category settlement returns on a well-formed risk
    map is again well formed and holds, under their own ids, the risks
    that win at the level, each as the loop rebuilt it, and nothing
    else. *)
Theorem MutexPool_winners_lookup {T : Type} `{Number T} (pool : MutexPool.t T)
    (level : string) (winners : list (Z * MutexPool.Risk T)) :
  keys_sorted (Pool.risks pool) ->
  MutexPool.MakeWinningRisks pool level = Returns winners ->
  keys_sorted winners /\
  forall k : Z,
    map_at Z.compare k winners =
    match map_at Z.compare k (Pool.risks pool) with
    | Some r =>
        if MutexEvent.IsWinner r level
        then Some (MutexPool.winning
                     (Pool.TotalPool pool *! (one -! Pool.fees pool))%num
                     (Pool.TotalWinningAmount pool level) r)
        else None
    | None => None
    end.
Proof.
  intros Hs Hr. apply MutexPool_returns_settle in Hr.
  rewrite (MutexPool_settle_sorted pool level Hs) in Hr. cbn [fst] in Hr.
  subst winners. split.
  - now apply select_keys_sorted.
  - intros k. now apply map_at_select.
Qed.

Lemma MutexPool_winners_lookup_witness :
  exists winners : list (Z * MutexPool.Risk float),
    MutexPool.MakeWinningRisks (main_mutex_pool (T := float)) "default"
      = Returns winners /\
    map_at Z.compare 2 winners = None /\
    option_map (fun w => DefaultTX.payout (MutexEvent.tx w))
      (map_at Z.compare 1 winners) = Some 14550%float.
Proof.
  assert (Hr : exists winners,
             MutexPool.MakeWinningRisks (main_mutex_pool (T := float))
               "default" = Returns winners)
    by (eexists; vm_compute; reflexivity).
  destruct Hr as [winners Hr]. exists winners. split; [exact Hr |].
  destruct (MutexPool_winners_lookup _ _ main_mutex_pool_sorted Hr)
    as [_ Hk].
  rewrite !Hk. split; vm_compute; reflexivity.
Defined.

(** X14.  The same for a directional settlement: the mapping returned
    holds exactly the risks that win at the closing price, each as the two
    loops made it. *)
Theorem LongShortPool_winners_lookup {T : Type} `{Number T}
    (pool : LongShortPool.t T) (level : Z)
    (winners : list (Z * LongShortPool.Risk T)) :
  keys_sorted (Pool.risks pool) ->
  LongShortPool.MakeWinningRisks pool level = Returns winners ->
  let win_value := Pool.TotalWinningAmount pool level in
  keys_sorted winners /\
  forall k : Z,
    map_at Z.compare k winners =
    match map_at Z.compare k (Pool.risks pool) with
    | Some r =>
        if LongShortEvent.IsWinner r level
        then Some (LongShortPool.reweigh
                     (LongShortPool.total_inverse_distance_to_pin
                        (LongShortPool.settle pool level))
                     win_value
                     (LongShortPool.winning
                        (Pool.TotalPool pool *! (one -! Pool.fees pool))%num
                        win_value level r))
        else None
    | None => None
    end.
Proof.
  intros Hs Hr win_value. apply LongShortPool_returns_settle in Hr.
  rewrite (LongShortPool_settle_sorted pool level Hs) in *.
  cbn [LongShortPool.winning_risks
         LongShortPool.total_inverse_distance_to_pin] in *.
  rewrite select_map in Hr. subst winners. split.
  - now apply select_keys_sorted.
  - intros k. now apply map_at_select.
Qed.

Lemma LongShortPool_winners_lookup_witness :
  exists winners : list (Z * LongShortPool.Risk float),
    LongShortPool.MakeWinningRisks (main_ls_pool (T := float)) 56
      = Returns winners /\
    map_at Z.compare 2 winners = None /\
    option_map (fun w => LongShortEvent.price w)
      (map_at Z.compare 3 winners) = Some 60.
Proof.
  assert (Hr : exists winners,
             LongShortPool.MakeWinningRisks (main_ls_pool (T := float)) 56
             = Returns winners)
    by (eexists; vm_compute; reflexivity).
  destruct Hr as [winners Hr]. exists winners. split; [exact Hr |].
  destruct (LongShortPool_winners_lookup _ _ main_ls_pool_sorted Hr)
    as [_ Hk].
  rewrite !Hk. split; vm_compute; reflexivity.
Defined.

(** ** What a category winner is paid, in exact arithmetic *)

Lemma qsum_le {A : Type} (f g : A -> Qc) (l : list A) :
  (forall x, In x l -> (f x <= g x)%Qc) -> (qsum f l <= qsum g l)%Qc.
Proof.
  induction l as [| x l IH]; intros Hfg; simpl; [apply Qcle_refl |].
  apply Qcplus_le_compat; [apply Hfg; now left |].
  apply IH. intros y Hy. apply Hfg. now right.
Qed.

Lemma qsum_member_le {A : Type} (f : A -> Qc) (l : list A) (x : A) :
  (forall y, In y l -> (0 <= f y)%Qc) -> In x l -> (f x <= qsum f l)%Qc.
Proof.
  induction l as [| y l IH]; intros Hf Hin; [destruct Hin |]. simpl.
  assert (Hrest : (0 <= qsum f l)%Qc)
    by (apply qsum_nonneg; intros z Hz; apply Hf; now right).
  destruct Hin as [-> | Hin].
  - replace (f x) with (f x + 0)%Qc at 1 by ring.
    now apply Qcplus_le_compat; [apply Qcle_refl |].
  - replace (f x) with (0 + f x)%Qc by ring.
    apply Qcplus_le_compat; [apply Hf; now left |].
    apply IH; [| exact Hin]. intros z Hz. apply Hf. now right.
Qed.

Section MutexBounds.
Variables (pool : MutexPool.t Qc) (level : string).
Hypothesis amounts :
  Forall (fun kr => (0 < DefaultTX.amount (MutexEvent.tx (snd kr)))%Qc)
    (Pool.risks pool).

Lemma MutexPool_win_value_le_pool :
  (Pool.TotalWinningAmount pool level <= Pool.TotalPool pool)%Qc.
Proof.
  rewrite (@TotalWinningAmount_qsum (MutexEvent.t Qc) string _
             (@MutexEvent_winning_amount Qc Exact) pool level).
  rewrite (@TotalPool_qsum (MutexEvent.t Qc) string _ pool).
  apply qsum_le. intros kr Hin. rewrite Forall_forall in amounts.
  destruct (IsWinner (snd kr) level); [apply Qcle_refl |].
  apply Qclt_le_weak. now apply amounts.
Qed.

Lemma MutexPool_winner_le_win_value (k : Z) (r : MutexEvent.t Qc) :
  In (k, r) (Pool.risks pool) -> MutexEvent.IsWinner r level = true ->
  (DefaultTX.amount (MutexEvent.tx r) <= Pool.TotalWinningAmount pool level)%Qc.
Proof.
  intros Hin Hw.
  rewrite (@TotalWinningAmount_qsum (MutexEvent.t Qc) string _
             (@MutexEvent_winning_amount Qc Exact) pool level).
  pose proof (qsum_member_le
                (fun kr : Z * MutexEvent.t Qc =>
                   if IsWinner (snd kr) level
                   then DefaultTX.amount (ev_tx (snd kr)) else 0%Qc)
                (Pool.risks pool) (k, r)) as Hle.
  cbn [snd IsWinner ev_tx MutexEvent.ops] in Hle. rewrite Hw in Hle.
  apply Hle; [| exact Hin].
  intros kr Hkr. rewrite Forall_forall in amounts.
  destruct (MutexEvent.IsWinner (snd kr) level); [| apply Qcle_refl].
  apply Qclt_le_weak. now apply amounts.
Qed.

End MutexBounds.

(** X15.  In exact arithmetic, with positive amounts and a fee rate of at
    most 1, a winner of a category settlement is never paid less than its
    own stake net of fees and never more than the pool net of fees; its
    payoff is at least [1 - fees]. *)
Theorem MutexPool_payout_bounds (pool : MutexPool.t Qc) (level : string)
    (k : Z) (w : MutexPool.Risk Qc) :
  Forall (fun kr => (0 < DefaultTX.amount (MutexEvent.tx (snd kr)))%Qc)
    (Pool.risks pool) ->
  (Pool.fees pool <= 1)%Qc ->
  In (k, w) (fst (MutexPool.settle pool level)) ->
  (1 - Pool.fees pool <= PoolEvent.payoff (MutexEvent.base w))%Qc /\
  (DefaultTX.amount (MutexEvent.tx w) * (1 - Pool.fees pool)
   <= DefaultTX.payout (MutexEvent.tx w))%Qc /\
  (DefaultTX.payout (MutexEvent.tx w)
   <= Pool.TotalPool pool * (1 - Pool.fees pool))%Qc.
Proof.
  intros Hpos Hfee Hin.
  pose (P := fun kw : Z * MutexPool.Risk Qc =>
    (1 - Pool.fees pool <= PoolEvent.payoff (MutexEvent.base (snd kw)))%Qc /\
    (DefaultTX.amount (MutexEvent.tx (snd kw)) * (1 - Pool.fees pool)
     <= DefaultTX.payout (MutexEvent.tx (snd kw)))%Qc /\
    (DefaultTX.payout (MutexEvent.tx (snd kw))
     <= Pool.TotalPool pool * (1 - Pool.fees pool))%Qc).
  assert (Hall : Forall P (fst (MutexPool.settle pool level))).
  { unfold MutexPool.settle. apply MutexPool_pick_forall; [| constructor].
    intros k' r Hr Hw. unfold P, MutexPool.winning.
    cbn [snd MutexEvent.base MutexEvent.tx PoolEvent.payoff DefaultTX.amount
           DefaultTX.payout].
    exact_arith.
    set (TP := Pool.TotalPool pool). set (W := Pool.TotalWinningAmount pool level).
    set (a := DefaultTX.amount (MutexEvent.tx r)).
    set (f := Pool.fees pool) in *.
    assert (Hf : (0 <= 1 - f)%Qc) by now apply Qcle_minus_iff in Hfee.
    assert (Ha : (0 < a)%Qc).
    { rewrite Forall_forall in Hpos. exact (Hpos (k', r) Hr). }
    assert (HaW : (a <= W)%Qc)
      by exact (@MutexPool_winner_le_win_value pool level Hpos k' r Hr Hw).
    assert (HW : (0 < W)%Qc) by (eapply Qclt_le_trans; eassumption).
    assert (HW0 : W <> 0%Qc) by now apply Qc_pos_neq0.
    assert (HWTP : (W <= TP)%Qc)
      by exact (@MutexPool_win_value_le_pool pool level Hpos).
    assert (Hscale : (0 <= (1 - f) * / W)%Qc).
    { apply Qcmult_nonneg; [exact Hf |].
      apply Qcinv_nonneg. now apply Qclt_le_weak. }
    assert (Hpayoff : (1 - f <= TP * (1 - f) / W)%Qc).
    { replace (1 - f)%Qc with (W * ((1 - f) * / W))%Qc at 1 by now field.
      replace (TP * (1 - f) / W)%Qc with (TP * ((1 - f) * / W))%Qc
        by now field.
      now apply Qcmult_le_compat_r. }
    split; [exact Hpayoff |]. split.
    - rewrite !(Qcmult_comm a).
      apply Qcmult_le_compat_r; [exact Hpayoff | now apply Qclt_le_weak].
    - replace (TP * (1 - f))%Qc with (W * (TP * (1 - f) / W))%Qc at 2
        by now field.
      apply Qcmult_le_compat_r; [exact HaW |].
      eapply Qcle_trans; [exact Hf | exact Hpayoff]. }
  rewrite Forall_forall in Hall. exact (Hall (k, w) Hin).
Qed.

Lemma MutexPool_payout_bounds_witness :
  let pool := main_mutex_pool (T := Qc) in
  let w := nth_mutex_winner 1 pool "default" in
  (1 - Pool.fees pool <= PoolEvent.payoff (MutexEvent.base (snd w)))%Qc.
Proof.
  intros pool w.
  refine (proj1 (@MutexPool_payout_bounds pool "default" (fst w) (snd w)
                   _ _ _)).
  - apply (Forall_forallb _
             (fun kr => Qcltb 0 (DefaultTX.amount (MutexEvent.tx (snd kr))))).
    + intros kr. apply Qcltb_lt.
    + vm_compute. reflexivity.
  - apply Qclt_le_weak, Qcltb_lt. vm_compute. reflexivity.
  - vm_compute. right. left. reflexivity.
Defined.

(** ** What a directional winner is paid, in exact arithmetic *)

(** X16.  In exact arithmetic, with a nonzero winning amount and distances
    that fit an [int], the payout of a directional winner is the pool net
    of fees times its share of the inverse distances of the winners: the
    winner's own stake does not enter it. *)
Theorem LongShortPool_payout_by_proximity (pool : LongShortPool.t Qc)
    (level : Z) (k : Z) (w : LongShortPool.Risk Qc) :
  keys_sorted (Pool.risks pool) ->
  distances_fit pool level ->
  Pool.TotalWinningAmount pool level <> 0%Qc ->
  In (k, w) (LongShortPool.winning_risks (LongShortPool.settle pool level)) ->
  let inverse (r : LongShortEvent.t Qc) :=
    (/ Q2Qc (inject_Z (distance level r)))%Qc in
  let total_inverse :=
    qsum (fun kr => if LongShortEvent.IsWinner (snd kr) level
                    then inverse (snd kr) else 0%Qc) (Pool.risks pool) in
  0 < distance level w /\
  (0 < total_inverse)%Qc /\
  DefaultTX.payout (LongShortEvent.tx w) =
    (Pool.TotalPool pool * (1 - Pool.fees pool)
     * (inverse w / total_inverse))%Qc.
Proof.
  intros Hs Hfit HW Hin inverse total_inverse.
  destruct (@LongShortPool_settled_winner pool level Hs k w Hin)
    as [r (Hr & Hk & ->)].
  assert (Hwin : Exists (fun kr => LongShortEvent.IsWinner (snd kr) level = true)
                   (Pool.risks pool))
    by (apply Exists_exists; now exists (k, r)).
  pose proof (@LongShortPool_total_inverse_pos pool level Hfit Hwin) as Hti.
  pose proof Hfit as Hfit'. unfold distances_fit in Hfit'.
  rewrite Forall_forall in Hfit'.
  destruct (@WinningInverseDistance_exact r level Hk (Hfit' _ Hr))
    as [Hd Hi].
  pose proof (LongShortPool_reweigh_payout pool level r) as Hp.
  rewrite Hi in Hp.
  assert (Hsum : total LongShortEvent.inverse_distance_to_the_pin
                   (select (fun r => LongShortEvent.IsWinner r level)
                      (LongShortPool.winning
                         (Pool.TotalPool pool *! (one -! Pool.fees pool))%num
                         (Pool.TotalWinningAmount pool level) level)
                      (Pool.risks pool))
                 = total_inverse).
  { rewrite (LongShortPool_total_inverse_qsum pool level).
    apply qsum_ext. intros kr Hkr.
    destruct (LongShortEvent.IsWinner (snd kr) level) eqn:Ek; [| reflexivity].
    now destruct (@WinningInverseDistance_exact (snd kr) level Ek
                    (Hfit' _ Hkr)). }
  rewrite Hsum in Hti, Hp.
  change (distance level
            (LongShortPool.reweigh
               (total LongShortEvent.inverse_distance_to_the_pin
                  (select (fun r => LongShortEvent.IsWinner r level)
                     (LongShortPool.winning
                        (Pool.TotalPool pool *! (one -! Pool.fees pool))%num
                        (Pool.TotalWinningAmount pool level) level)
                     (Pool.risks pool)))
               (Pool.TotalWinningAmount pool level)
               (LongShortPool.winning
                  (Pool.TotalPool pool *! (one -! Pool.fees pool))%num
                  (Pool.TotalWinningAmount pool level) level r)))
    with (distance level r).
  split; [exact Hd |]. split; [exact Hti |].
  rewrite Hsum, Hp. unfold inverse.
  change (distance level
            (LongShortPool.reweigh total_inverse
               (Pool.TotalWinningAmount pool level)
               (LongShortPool.winning
                  (Pool.TotalPool pool *! (one -! Pool.fees pool))%num
                  (Pool.TotalWinningAmount pool level) level r)))
    with (distance level r).
  exact_arith.
  assert (Hti0 : total_inverse <> 0%Qc) by now apply Qc_pos_neq0.
  assert (Hd0 : Q2Qc (inject_Z (distance level r)) <> 0%Qc)
    by now apply Qc_pos_neq0, Qc_of_int_pos.
  now field.
Qed.

Lemma LongShortPool_payout_by_proximity_witness :
  let w := nth_ls_winner 1 (main_ls_pool (T := Qc)) 56 in
  0 < distance 56 (snd w).
Proof.
  intros w.
  assert (Hin : In (fst w, snd w)
                  (LongShortPool.winning_risks
                     (LongShortPool.settle (main_ls_pool (T := Qc)) 56))).
  { rewrite <- surjective_pairing. apply nth_In.
    replace (List.length _) with 3%nat by (vm_compute; reflexivity).
    repeat constructor. }
  exact (proj1 (@LongShortPool_payout_by_proximity main_ls_pool 56
                  (fst w) (snd w) main_ls_pool_sorted main_ls_pool_56_fits
                  main_ls_pool_56_wins Hin)).
Defined.

(** ** The winning rules of a long/short event *)

(** X17.  A long position wins strictly above its price, a short one
    strictly below, and an event with neither side never wins: nobody
    wins at its own price, and a long and a short at the same price never
    win together.  [WinningAmount] and [WinningInverseDistance] follow the
    same rule: a loser's winning amount is [0.] and its inverse distance
    is [1.]. *)
Theorem LongShortEvent_winning_rules {T : Type} `{Number T}
    (e : LongShortEvent.t T) (level : Z) :
  LongShortEvent.IsWinner e level =
    match LongShortEvent.side e with
    | Long => LongShortEvent.price e <? level
    | Short => level <? LongShortEvent.price e
    | Neither => false
    end /\
  (level = LongShortEvent.price e -> LongShortEvent.IsWinner e level = false) /\
  LongShortEvent.WinningAmount e level =
    (if LongShortEvent.IsWinner e level
     then DefaultTX.amount (LongShortEvent.tx e) else zero) /\
  (LongShortEvent.IsWinner e level = false ->
   LongShortEvent.WinningInverseDistance e level = one) /\
  (forall e' : LongShortEvent.t T,
     LongShortEvent.price e' = LongShortEvent.price e ->
     LongShortEvent.side e' <> LongShortEvent.side e ->
     LongShortEvent.IsWinner e level && LongShortEvent.IsWinner e' level
     = false).
Proof.
  unfold LongShortEvent.IsWinner, LongShortEvent.WinningAmount,
    LongShortEvent.WinningInverseDistance.
  rewrite Z.gtb_ltb.
  split; [| split; [| split; [| split]]].
  - destruct (LongShortEvent.side e); cbn [Side_eqb andb];
      destruct (LongShortEvent.price e <? level),
               (level <? LongShortEvent.price e); reflexivity.
  - intros ->. rewrite Z.ltb_irrefl.
    now destruct (LongShortEvent.side e).
  - destruct (LongShortEvent.side e); cbn [Side_eqb andb];
      destruct (LongShortEvent.price e <? level),
               (level <? LongShortEvent.price e); reflexivity.
  - destruct (LongShortEvent.side e); cbn [Side_eqb andb];
      destruct (LongShortEvent.price e <? level),
               (level <? LongShortEvent.price e);
      intros Hf; try discriminate Hf; reflexivity.
  - intros e' Hp Hside. rewrite Z.gtb_ltb, Hp.
    destruct (LongShortEvent.side e), (LongShortEvent.side e');
      cbn [Side_eqb andb]; try congruence;
      destruct (Z.ltb_spec (LongShortEvent.price e) level);
      destruct (Z.ltb_spec level (LongShortEvent.price e));
      try reflexivity; lia.
Qed.

(** X18.  In exact arithmetic the inverse distance of a winner whose
    distance to the closing price fits an [int] lies in (0, 1], and it is
    the inverse of that distance. *)
Theorem WinningInverseDistance_range (r : LongShortEvent.t Qc) (level : Z) :
  LongShortEvent.IsWinner r level = true ->
  distance level r <= INT_MAX ->
  let inverse := LongShortEvent.WinningInverseDistance r level in
  (0 < inverse)%Qc /\ (inverse <= 1)%Qc /\
  (inverse * Q2Qc (inject_Z (distance level r)) = 1)%Qc.
Proof.
  intros Hw Hfit inverse.
  destruct (WinningInverseDistance_exact r level Hw Hfit) as [Hd Hi].
  unfold inverse. rewrite Hi.
  pose proof (Qc_of_int_pos Hd) as Hpos.
  split; [now apply Qcinv_pos |]. split.
  - replace 1%Qc with (/ 1)%Qc by reflexivity.
    apply Qcinv_le_contravar; [reflexivity |].
    exact (Qc_of_int_le (a := 1) (b := distance level r) ltac:(lia)).
  - field. now apply Qc_pos_neq0.
Qed.

Lemma WinningInverseDistance_range_witness :
  (LongShortEvent.WinningInverseDistance
     (LongShortEvent.make (T := Qc) Short 60) 56 <= 1)%Qc.
Proof.
  refine (proj1 (proj2 (@WinningInverseDistance_range
                          (LongShortEvent.make Short 60) 56 _ _))).
  - reflexivity.
  - vm_compute. discriminate.
Defined.

(** ** NaN and Infinity in binary64 *)

Lemma nonfinite_sub_r (x y : float) :
  nonfinite y -> nonfinite (PrimFloat.sub x y).
Proof.
  unfold nonfinite. rewrite sub_spec.
  destruct (Prim2SF x) as [sx | sx | | sx mx ex];
    destruct (Prim2SF y) as [sy | sy | | sy my ey]; simpl; try tauto;
    destruct sx, sy; tauto.
Qed.

Lemma Close_nonfinite_r (x y : float) : nonfinite y -> Close x y = false.
Proof.
  intros Hy. apply (@nonfinite_sub_r x y) in Hy. revert Hy.
  unfold Close, nonfinite. binary64_arith.
  rewrite ltb_spec, abs_spec.
  destruct (Prim2SF (PrimFloat.sub x y)) as [s | s | | s m e]; simpl;
    try tauto; intros _; reflexivity.
Qed.

(** A term that is NaN or infinite makes the total NaN or infinite. *)
Lemma nonfinite_total_member {V : Type} (f : V -> float) (m : list (Z * V)) :
  forall acc : float,
  nonfinite acc \/ Exists (fun kr => nonfinite (f (snd kr))) m ->
  nonfinite (fold_left (fun acc kr => PrimFloat.add acc (f (snd kr))) m acc).
Proof.
  induction m as [| kr m IH]; intros acc Hor; cbn [fold_left].
  - destruct Hor as [Hacc | Hex]; [exact Hacc | inversion Hex].
  - apply IH. destruct Hor as [Hacc | Hex].
    + left. now apply nonfinite_add_l.
    + inversion Hex as [? ? Hkr | ? ? Hm]; subst.
      * left. now apply nonfinite_add_r.
      * now right.
Qed.

Lemma finite_total_member {V : Type} (f : V -> float) (m : list (Z * V))
    (kr : Z * V) :
  ~ nonfinite (total f m) -> In kr m -> ~ nonfinite (f (snd kr)).
Proof.
  intros Htotal Hin Hn. apply Htotal. unfold total. binary64_arith.
  apply nonfinite_total_member. right. apply Exists_exists. now exists kr.
Qed.

(** X19.  In binary64 [Close] is false as soon as one of its arguments is
    NaN or infinite. *)
Theorem Close_rejects_nonfinite (a b : float) :
  nonfinite a \/ nonfinite b -> Close a b = false.
Proof.
  intros [Ha | Hb]; [now apply Close_nonfinite | now apply Close_nonfinite_r].
Qed.

Lemma Close_rejects_nonfinite_witness :
  Close infinity 0%float = false /\ Close 0%float nan = false.
Proof.
  split; apply Close_rejects_nonfinite; [left | right]; exact I.
Defined.

(** X20.  In binary64, on a well-formed risk map, every winner of a
    mapping that a category settlement returns has a payout and a payoff
    that are neither NaN nor infinite: the assertion lets nothing else
    through. *)
Theorem MutexPool_returned_finite (pool : MutexPool.t float) (level : string)
    (winners : list (Z * MutexPool.Risk float)) (k : Z)
    (w : MutexPool.Risk float) :
  keys_sorted (Pool.risks pool) ->
  MutexPool.MakeWinningRisks pool level = Returns winners ->
  In (k, w) winners ->
  ~ nonfinite (DefaultTX.payout (MutexEvent.tx w)) /\
  ~ nonfinite (PoolEvent.payoff (MutexEvent.base w)).
Proof.
  intros Hs Hr Hin.
  pose proof (MutexPool_returns_balanced pool level Hs Hr) as Hbal.
  assert (Htotal : ~ nonfinite
                       (total (fun r => DefaultTX.payout (MutexEvent.tx r))
                          winners)).
  { intros Hn. rewrite Close_nonfinite in Hbal; [discriminate |].
    binary64_arith. now apply nonfinite_add_l. }
  pose proof (finite_total_member
                (fun r => DefaultTX.payout (MutexEvent.tx r)) winners (k, w)
                Htotal Hin) as Hpayout.
  split; [exact Hpayout |].
  apply MutexPool_returns_settle in Hr.
  rewrite (MutexPool_settle_sorted pool level Hs) in Hr. cbn [fst] in Hr.
  subst winners. apply in_select in Hin. destruct Hin as [r (_ & _ & ->)].
  intros Hn. apply Hpayout. cbn [snd MutexPool.winning MutexEvent.tx
                                   DefaultTX.payout].
  binary64_arith. now apply nonfinite_mul_r.
Qed.

Lemma MutexPool_returned_finite_witness :
  let w := nth_mutex_winner 1 (main_mutex_pool (T := float)) "default" in
  ~ nonfinite (DefaultTX.payout (MutexEvent.tx (snd w))).
Proof.
  intros w.
  refine (proj1 (@MutexPool_returned_finite main_mutex_pool "default"
                   (fst (MutexPool.settle main_mutex_pool "default"))
                   (fst w) (snd w) main_mutex_pool_sorted _ _)).
  - vm_compute. reflexivity.
  - vm_compute. right. left. reflexivity.
Defined.

Lemma LongShortPool_returned_winner {T : Type} `{Number T}
    (pool : LongShortPool.t T) (level : Z)
    (winners : list (Z * LongShortPool.Risk T)) (k : Z)
    (w : LongShortPool.Risk T) :
  keys_sorted (Pool.risks pool) ->
  LongShortPool.MakeWinningRisks pool level = Returns winners ->
  In (k, w) winners ->
  exists (r : LongShortEvent.t T) (total_inverse : T),
    In (k, r) (Pool.risks pool) /\
    LongShortEvent.IsWinner r level = true /\
    w = LongShortPool.reweigh total_inverse
          (Pool.TotalWinningAmount pool level)
          (LongShortPool.winning
             (Pool.TotalPool pool *! (one -! Pool.fees pool))%num
             (Pool.TotalWinningAmount pool level) level r).
Proof.
  intros Hs Hr Hin. apply LongShortPool_returns_settle in Hr.
  rewrite (LongShortPool_settle_sorted pool level Hs) in Hr.
  cbn [LongShortPool.winning_risks] in Hr. rewrite select_map in Hr.
  subst winners. apply in_select in Hin. destruct Hin as [r (Hr & Hk & ->)].
  now exists r; eexists.
Qed.

(** X21.  In binary64, on a well-formed risk map, every winner of a
    mapping that a directional settlement returns has a payout, a prima
    facie payout and a prima facie payoff that are neither NaN nor
    infinite.  Its payoff is another matter: the payout is divided by the
    winner's own amount, and for a winner that staked [0.] the payoff in
    the returned mapping is NaN or infinite. *)
Theorem LongShortPool_returned_finite (pool : LongShortPool.t float)
    (level : Z) (winners : list (Z * LongShortPool.Risk float)) (k : Z)
    (w : LongShortPool.Risk float) :
  keys_sorted (Pool.risks pool) ->
  LongShortPool.MakeWinningRisks pool level = Returns winners ->
  In (k, w) winners ->
  ~ nonfinite (DefaultTX.payout (LongShortEvent.tx w)) /\
  ~ nonfinite (LongShortEvent.prima_facie_payout w) /\
  ~ nonfinite (LongShortEvent.prima_facie_payoff w) /\
  (PrimFloat.eqb (DefaultTX.amount (LongShortEvent.tx w)) 0%float = true ->
   nonfinite (PoolEvent.payoff (LongShortEvent.base w))).
Proof.
  intros Hs Hr Hin.
  destruct (LongShortPool_returns_balanced pool level Hs Hr) as [Hbal Hred].
  assert (Hprima : ~ nonfinite
                       (total LongShortEvent.prima_facie_payout winners)).
  { intros Hn. rewrite Close_nonfinite in Hbal; [discriminate |].
    binary64_arith. now apply nonfinite_add_l. }
  assert (Htotal : ~ nonfinite
                       (total (fun r => DefaultTX.payout (LongShortEvent.tx r))
                          winners)).
  { intros Hn. rewrite Close_nonfinite_r in Hred; [discriminate | exact Hn]. }
  pose proof (finite_total_member
                (fun r => DefaultTX.payout (LongShortEvent.tx r)) winners
                (k, w) Htotal Hin) as Hpayout.
  pose proof (finite_total_member LongShortEvent.prima_facie_payout winners
                (k, w) Hprima Hin) as Hpp.
  cbn [snd] in Hpayout, Hpp.
  destruct (@LongShortPool_returned_winner float Binary64 pool level winners
              k w Hs Hr Hin)
    as (r & ti & _ & _ & ->).
  split; [exact Hpayout |]. split; [exact Hpp |]. split.
  - intros Hn. apply Hpp.
    cbn [LongShortPool.reweigh LongShortPool.winning
           LongShortEvent.prima_facie_payout
           LongShortEvent.prima_facie_payoff] in *.
    binary64_arith. now apply nonfinite_mul_r.
  - cbn [LongShortPool.reweigh LongShortPool.winning LongShortEvent.tx
           LongShortEvent.base PoolEvent.payoff DefaultTX.amount].
    binary64_arith. apply nonfinite_div_zero.
Qed.

Lemma LongShortPool_returned_finite_witness :
  let w := nth_ls_winner 0 free_rider_ls_pool 56 in
  DefaultTX.amount (LongShortEvent.tx (snd w)) = 0%float /\
  ~ nonfinite (DefaultTX.payout (LongShortEvent.tx (snd w))) /\
  nonfinite (PoolEvent.payoff (LongShortEvent.base (snd w))).
Proof.
  intros w.
  assert (Hs : keys_sorted (Pool.risks free_rider_ls_pool))
    by (unfold keys_sorted; vm_compute; repeat constructor).
  assert (Hr : LongShortPool.MakeWinningRisks free_rider_ls_pool 56
               = Returns (LongShortPool.winning_risks
                            (LongShortPool.settle free_rider_ls_pool 56)))
    by (vm_compute; reflexivity).
  assert (Hin : In (fst w, snd w)
                  (LongShortPool.winning_risks
                     (LongShortPool.settle free_rider_ls_pool 56)))
    by (vm_compute; left; reflexivity).
  destruct (@LongShortPool_returned_finite free_rider_ls_pool 56 _
              (fst w) (snd w) Hs Hr Hin) as (Hpayout & _ & _ & Hpayoff).
  split; [reflexivity |]. split; [exact Hpayout |].
  apply Hpayoff. reflexivity.
Defined.

(** ** The pro-forma payoff in terms of the pool as it stands *)

(** X22.  In exact arithmetic, on a category pool with ids [0 .. n-1], a
    hypothetical stake of [amount] on the winning category is valued at
    the payoff of the enlarged pool: both the pool and the winning amount
    grow by [amount] before the flat payoff is taken, and the stake is
    paid [amount] times that payoff; the pool itself stays as it was. *)
Theorem MutexPool_ProFormaReturn_dilution (n : nat) (pool : MutexPool.t Qc)
    (event : MutexEvent.t Qc) (amount : Qc) (level : string) :
  dense n pool -> Z.of_nat n < INT_MAX ->
  MutexEvent.IsWinner event level = true ->
  (Pool.TotalWinningAmount pool level + amount)%Qc <> 0%Qc ->
  exists b : MutexPool.Risk Qc,
    MutexPool.ProFormaReturn pool event amount level = (pool, Returns b) /\
    PoolEvent.payoff (MutexEvent.base b) =
      ((Pool.TotalPool pool + amount) * (1 - Pool.fees pool)
       / (Pool.TotalWinningAmount pool level + amount))%Qc /\
    DefaultTX.payout (MutexEvent.tx b) =
      (amount * PoolEvent.payoff (MutexEvent.base b))%Qc /\
    DefaultTX.id (MutexEvent.tx b) = Z.of_nat n /\
    DefaultTX.client_account (MutexEvent.tx b) = "Hypothetical".
Proof.
  intros Hd Hn Hw HW.
  set (pool1 := snd (Pool.MakeRisk pool event amount "Hypothetical")).
  destruct (MakeRisk_dense (@MutexEvent_tx_set Qc Exact) event amount
              "Hypothetical" Hd Hn) as (_ & Hd1 & _).
  fold pool1 in Hd1.
  assert (Hs1 : keys_sorted (Pool.risks pool1))
    by exact (dense_keys_sorted Hd1).
  assert (Htp : Pool.TotalPool pool1 = (Pool.TotalPool pool + amount)%Qc)
    by exact (MakeRisk_TotalPool (@MutexEvent_tx_set Qc Exact) event amount
                "Hypothetical" Hd Hn).
  assert (Htw : Pool.TotalWinningAmount pool1 level
                = (Pool.TotalWinningAmount pool level + amount)%Qc).
  { unfold Pool.TotalWinningAmount, pool1.
    rewrite (MakeRisk_appends (@MutexEvent_tx_set Qc Exact) event amount
               "Hypothetical" Hd Hn), fold_left_app.
    cbn [fold_left snd]. rewrite MutexEvent_winning_amount.
    change (IsWinner (registered pool event amount "Hypothetical") level)
      with (MutexEvent.IsWinner event level).
    now rewrite Hw. }
  assert (HW1 : Pool.TotalWinningAmount pool1 level <> 0%Qc)
    by now rewrite Htw.
  pose proof (@MutexPool_exact_returns pool1 level Hs1 HW1) as Hret.
  pose proof (MakeRisk_stored pool event amount "Hypothetical") as Hst.
  fold pool1 in Hst.
  unfold MutexPool.ProFormaReturn, Pool.ProFormaReturn,
    Pool.ProFormaReturnHelper.
  change (Pool.MakeRisk pool event amount "Hypothetical")
    with (Pool.tx pool, pool1).
  cbv beta iota. rewrite Hret.
  rewrite (map_at_select _ _ (Pool.tx pool) Hs1), Hst.
  change (MutexEvent.IsWinner (registered pool event amount "Hypothetical")
            level) with (MutexEvent.IsWinner event level).
  rewrite Hw. eexists. split; [reflexivity |].
  cbn [MutexPool.winning MutexEvent.base MutexEvent.tx PoolEvent.payoff
         DefaultTX.payout DefaultTX.id DefaultTX.client_account].
  rewrite Htp, Htw. destruct Hd as [Htx _].
  repeat split. exact Htx.
Qed.

Lemma MutexPool_ProFormaReturn_dilution_witness :
  exists b : MutexPool.Risk Qc,
    MutexPool.ProFormaReturn (main_mutex_pool (T := Qc))
      (MutexEvent.make "default") (Q2Qc 100) "default"
    = (main_mutex_pool, Returns b) /\
    DefaultTX.id (MutexEvent.tx b) = 4.
Proof.
  destruct (@MutexPool_ProFormaReturn_dilution 4 main_mutex_pool
              (MutexEvent.make "default") (Q2Qc 100) "default"%string)
    as (b & Hb & _ & _ & Hid & _).
  - split; reflexivity.
  - reflexivity.
  - reflexivity.
  - apply Qc_neq_this. vm_compute. discriminate.
  - exists b. split; [exact Hb | exact Hid].
Defined.

(** ** The ledger a sequence of registrations leaves behind *)

Section Ledger.
Context {T E L : Type} `{Number T} `{EventOps T E L}.
Hypothesis tx_set : forall (e : E) (x : DefaultTX.t T), ev_tx (ev_set_tx e x) = x.

Lemma register_all_ledger (regs : list (E * T * string)) :
  forall (n : nat) (pool : Pool.t T E),
  dense n pool -> Z.of_nat (n + List.length regs) <= INT_MAX ->
  snd (register_all pool regs) =
  Pool.mk (Z.of_nat (n + List.length regs)) (Pool.fees pool)
    (Pool.risks pool ++ ledger n regs).
Proof.
  induction regs as [| [[event amount] who] regs IH]; intros n pool Hd Hn;
    cbn [register_all List.length ledger snd] in *.
  - rewrite Nat.add_0_r, app_nil_r. destruct Hd as [<- _]. now destruct pool.
  - assert (Hn' : Z.of_nat n < INT_MAX) by lia.
    destruct (MakeRisk_dense tx_set event amount who Hd Hn')
      as (_ & Hd' & Hr).
    assert (Hf : Pool.fees (snd (Pool.MakeRisk pool event amount who))
                 = Pool.fees pool) by reflexivity.
    destruct (Pool.MakeRisk pool event amount who) as [id pool'] eqn:EM.
    cbn [snd] in Hd', Hr, Hf.
    specialize (IH (S n) pool' Hd').
    destruct (register_all pool' regs) as [ids pool''] eqn:ER.
    cbn [snd] in *. rewrite IH by lia. rewrite Hf, Hr, <- app_assoc.
    f_equal. f_equal. lia.
Qed.

End Ledger.

(** X23.  A sequence of fewer than [INT_MAX] registrations on an empty
    pool leaves the counter at their number, the fees at their default,
    and one risk per registration, in the order of registration: under id
    [i] the [i]-th event, carrying that id, the amount and the client
    given, and the pool account. *)
Theorem pool_of_ledger {T E L : Type} `{Number T} `{EventOps T E L}
    (tx_set : forall (e : E) (x : DefaultTX.t T), ev_tx (ev_set_tx e x) = x)
    (regs : list (E * T * string)) :
  Z.of_nat (List.length regs) <= INT_MAX ->
  pool_of regs =
  Pool.mk (Z.of_nat (List.length regs)) default_fees (ledger 0 regs).
Proof.
  intros Hn. unfold pool_of.
  rewrite (register_all_ledger tx_set regs (n := 0%nat) (pool := Pool.empty)
             (dense_empty (T := T) (E := E)));
    [reflexivity | exact Hn].
Qed.

Lemma pool_of_ledger_witness :
  map (fun kr => (fst kr, DefaultTX.client_account (MutexEvent.tx (snd kr))))
    (Pool.risks (main_mutex_pool (T := float)))
  = [(0, "barney"); (1, "barney"); (2, "arnold"); (3, "arnold")].
Proof.
  unfold main_mutex_pool.
  rewrite (@pool_of_ledger float (MutexEvent.t float) string Binary64
             MutexEvent.ops MutexEvent_tx_set).
  - reflexivity.
  - vm_compute. discriminate.
Defined.

(** ** The ticks under and over the prices *)

Lemma CategoryMap_staked {T E L : Type} `{Number T} `{EventOps T E L}
    (pool : Pool.t T E) (c : string) :
  match map_at String.compare c (Pool.CategoryMap pool) with
  | Some x => x
  | None => zero
  end
  = total (fun r => DefaultTX.amount (ev_tx r))
      (filter (in_category c) (Pool.risks pool)).
Proof.
  unfold Pool.CategoryMap. rewrite CategoryMap_loop.
  destruct (existsb (in_category c) (Pool.risks pool)) eqn:Ex;
    [reflexivity |].
  now rewrite filter_none by exact Ex.
Qed.

(** The winning amount at a level where the winners are the risks of one
    category. *)
Lemma LongShortPool_side_wins (pool : LongShortPool.t Qc) (level : Z)
    (c : string) :
  (forall kr, In kr (Pool.risks pool) ->
              LongShortEvent.IsWinner (snd kr) level = in_category c kr) ->
  Pool.TotalWinningAmount pool level =
  match map_at String.compare c (Pool.CategoryMap pool) with
  | Some x => x
  | None => 0%Qc
  end.
Proof.
  intros Hw.
  rewrite (@TotalWinningAmount_qsum (LongShortEvent.t Qc) Z _
             (@LongShortEvent_winning_amount Qc Exact) pool level).
  etransitivity; [| symmetry; exact (CategoryMap_staked pool c)].
  rewrite total_qsum.
  rewrite (qsum_filter
             (fun kr : Z * LongShortEvent.t Qc =>
                DefaultTX.amount (ev_tx (snd kr))) (in_category c)).
  apply qsum_ext. intros kr Hin.
  change (IsWinner (snd kr) level)
    with (LongShortEvent.IsWinner (snd kr) level).
  now rewrite (Hw kr Hin).
Qed.

(** X24.  Why the level set has a tick on either side of the prices: at
    its lowest level every short stake wins and no long one, at its
    highest level every long stake and no short one.  In exact arithmetic
    the winning amounts at the two levels are the entries of ["Short"] and
    ["Long"] in the category map (0 without an entry). *)
Theorem LongShortPool_ticks_split_sides (pool : LongShortPool.t Qc) :
  Pool.risks pool <> [] ->
  Forall (fun kr => INT_MIN < LongShortEvent.price (snd kr) < INT_MAX)
    (Pool.risks pool) ->
  let staked (c : string) :=
    match map_at String.compare c (Pool.CategoryMap pool) with
    | Some x => x
    | None => 0%Qc
    end in
  exists levels : list Z,
    Pool.MakeLevelSet pool = Returns levels /\
    Pool.TotalWinningAmount pool (hd 0 levels) = staked "Short" /\
    Pool.TotalWinningAmount pool (last levels 0) = staked "Long".
Proof.
  intros Hne Hrange staked.
  eexists. split; [now apply LongShortPool_MakeLevelSet_ticks |].
  pose proof (collect_levels_sorted pool) as Hs.
  pose proof (LongShortPool_levels_in pool) as Hin.
  set (prices := Pool.collect_levels pool) in *.
  assert (Hbounds : forall kr, In kr (Pool.risks pool) ->
            hd 0 prices <= LongShortEvent.price (snd kr) <= last prices 0).
  { intros kr Hkr.
    assert (Hp : In (LongShortEvent.price (snd kr)) prices)
      by (apply Hin; now exists kr).
    destruct prices as [| min s]; [destruct Hp |].
    split.
    - cbn [hd]. now apply (sorted_head_least Hs).
    - now apply (sorted_last_greatest Hs). }
  cbn [hd].
  change (hd 0 prices - 1 :: prices ++ [last prices 0 + 1])
    with ((hd 0 prices - 1 :: prices) ++ [last prices 0 + 1]).
  rewrite last_last.
  split; apply LongShortPool_side_wins; intros kr Hkr;
    specialize (Hbounds kr Hkr);
    unfold in_category; cbn [Category LongShortEvent.ops];
    unfold LongShortEvent.Category, LongShortEvent.IsWinner;
    rewrite Z.gtb_ltb;
    destruct (LongShortEvent.side (snd kr)); cbn [Side_eqb andb];
    repeat match goal with
           | |- context [?a <? ?b] => destruct (Z.ltb_spec a b)
           end; try reflexivity; lia.
Qed.

Lemma LongShortPool_ticks_split_sides_witness :
  exists levels : list Z,
    Pool.MakeLevelSet (main_ls_pool (T := Qc)) = Returns levels /\
    Pool.TotalWinningAmount (main_ls_pool (T := Qc)) (last levels 0)
    = match map_at String.compare "Long" (Pool.CategoryMap main_ls_pool) with
      | Some x => x
      | None => 0%Qc
      end.
Proof.
  destruct (@LongShortPool_ticks_split_sides (main_ls_pool (T := Qc)))
    as (levels & Hl & _ & Hlong).
  - vm_compute. discriminate.
  - apply (Forall_forallb _
             (fun kr => (INT_MIN <? LongShortEvent.price (snd kr))
                        && (LongShortEvent.price (snd kr) <? INT_MAX))).
    + intros kr Hkr. apply andb_true_iff in Hkr.
      now rewrite <- !Z.ltb_lt.
    + vm_compute. reflexivity.
  - exists levels. split; [exact Hl | exact Hlong].
Defined.

(** ** The winning rule of a category event *)

(** X25.  A category event wins at one level only, its own category,
    which is also the level it contributes to the level set; its winning
    amount is its amount there and [0.] at every other level. *)
Theorem MutexEvent_winning_rules {T : Type} `{Number T} (e : MutexEvent.t T)
    (level : string) :
  (MutexEvent.IsWinner e level = true <-> level = MutexEvent.Category e) /\
  MutexEvent.GetLevel e = MutexEvent.Category e /\
  MutexEvent.IsWinner e (MutexEvent.GetLevel e) = true /\
  MutexEvent.WinningAmount e level =
    (if MutexEvent.IsWinner e level
     then DefaultTX.amount (MutexEvent.tx e) else zero).
Proof.
  unfold MutexEvent.IsWinner, MutexEvent.WinningAmount, MutexEvent.Category,
    MutexEvent.GetLevel.
  split; [| split; [| split]].
  - rewrite String.eqb_eq. split; congruence.
  - reflexivity.
  - apply String.eqb_refl.
  - now rewrite String.eqb_sym.
Qed.

(** ** Payout and distance *)

(** X28.  In exact arithmetic, with amounts that are not negative, a
    winning amount that is not zero, a fee rate of at most 1 and distances
    that fit an [int]: of two winners of the mapping a directional
    settlement returns, the one strictly closer to the closing price is
    paid at least as much as the other, whatever the two staked. *)
Theorem LongShortPool_closer_winner_payout (pool : LongShortPool.t Qc)
    (level : Z) (winners : list (Z * LongShortPool.Risk Qc)) (k1 k2 : Z)
    (w1 w2 : LongShortPool.Risk Qc) :
  keys_sorted (Pool.risks pool) ->
  distances_fit pool level ->
  Forall (fun kr => (0 <= DefaultTX.amount (LongShortEvent.tx (snd kr)))%Qc)
    (Pool.risks pool) ->
  (Pool.fees pool <= 1)%Qc ->
  Pool.TotalWinningAmount pool level <> 0%Qc ->
  LongShortPool.MakeWinningRisks pool level = Returns winners ->
  In (k1, w1) winners ->
  In (k2, w2) winners ->
  distance level w1 < distance level w2 ->
  (DefaultTX.payout (LongShortEvent.tx w2)
   <= DefaultTX.payout (LongShortEvent.tx w1))%Qc.
Proof.
  intros Hs Hfit Hamt Hfee _ Hr H1 H2 Hd.
  apply LongShortPool_returns_settle in Hr. subst winners.
  destruct (@LongShortPool_settled_payout pool level Hs Hfit Hamt Hfee k1 w1 H1)
    as (Hd1 & Hc & Hp1 & _).
  destruct (@LongShortPool_settled_payout pool level Hs Hfit Hamt Hfee k2 w2 H2)
    as (Hd2 & _ & Hp2 & _).
  rewrite Hp1, Hp2.
  apply Qcmult_le_compat_r; [| exact Hc].
  apply Qcinv_le_contravar; [now apply Qc_of_int_pos |].
  apply Qc_of_int_le. lia.
Qed.

Lemma LongShortPool_closer_winner_payout_witness :
  let pool := main_ls_pool (T := Qc) in
  let w1 := nth_ls_winner 1 pool 56 in
  let w2 := nth_ls_winner 2 pool 56 in
  distance 56 (snd w1) < distance 56 (snd w2) /\
  (DefaultTX.payout (LongShortEvent.tx (snd w2))
   <= DefaultTX.payout (LongShortEvent.tx (snd w1)))%Qc.
Proof.
  intros pool w1 w2.
  assert (Hd : distance 56 (snd w1) < distance 56 (snd w2))
    by (vm_compute; reflexivity).
  assert (Hr : LongShortPool.MakeWinningRisks pool 56
               = Returns (LongShortPool.winning_risks
                            (LongShortPool.settle pool 56))).
  { unfold LongShortPool.MakeWinningRisks.
    replace (LongShortPool.balanced pool 56) with true
      by (vm_compute; reflexivity).
    replace (LongShortPool.redistributed pool 56) with true
      by (vm_compute; reflexivity).
    reflexivity. }
  assert (Hin : forall n, (n < 3)%nat ->
            In (fst (nth_ls_winner n pool 56), snd (nth_ls_winner n pool 56))
               (LongShortPool.winning_risks (LongShortPool.settle pool 56))).
  { intros n Hn. rewrite <- surjective_pairing. apply nth_In.
    replace (List.length _) with 3%nat by (vm_compute; reflexivity).
    exact Hn. }
  assert (Hamt : Forall
            (fun kr => (0 <= DefaultTX.amount (LongShortEvent.tx (snd kr)))%Qc)
            (Pool.risks pool)).
  { eapply Forall_impl; [| exact main_ls_pool_positive].
    intros kr. apply Qclt_le_weak. }
  assert (Hfee : (Pool.fees pool <= 1)%Qc) by (vm_compute; discriminate).
  split; [exact Hd |].
  exact (@LongShortPool_closer_winner_payout pool 56 _
           (fst w1) (fst w2) (snd w1) (snd w2)
           main_ls_pool_sorted main_ls_pool_56_fits Hamt Hfee
           main_ls_pool_56_wins Hr
           (Hin 1%nat ltac:(repeat constructor))
           (Hin 2%nat ltac:(repeat constructor)) Hd).
Defined.
